(** * LLM-Book-LIB: the retrieve / rerank / generate / verify pipeline

    A shallow embedding of the query pipeline of the repository:
    - [src/reranker.py], [src/rag_core.py], [src/answer_verifier.py] and
      [src/main.py] (the single-process application), in [Module Monolith];
    - [src/client/client_components.py], [src/client/config.py] and
      [src/client/client.py] (the thin client), in [Module Client].

    Python values are modelled as the interpreter has them: a [str] is a list
    of Unicode code points, a generator is a resumable state machine, an
    exception is the [Raise] branch of a result, a [set] of tuples is a [gset]
    and a [dict] comprehension is a fold of insertions. The collaborators of
    the pipeline (document store, relevance model, generation engine) are
    parameters. *)

From Stdlib Require Import ZArith NArith List String Ascii Lia DecimalString.
From Stdlib Require Import Permutation Sorted.
From stdpp Require Import base list gmap sets.
Import ListNotations.

(* ===================================================================== *)
(** * Part I: definitions                                                  *)
(* ===================================================================== *)

(** ** The Python runtime the sources rely on *)
Module Py.

(** A character is a Unicode code point; a [str] is a sequence of them. *)
Definition char : Type := N.
Definition str : Type := list char.

(** Source literals are written in UTF-8: [u] decodes one into code points. *)
Fixpoint utf8_decode (bs : list N) : str :=
  match bs with
  | [] => []
  | b0 :: t0 =>
    if (b0 <? 128)%N then b0 :: utf8_decode t0
    else match t0 with
    | [] => []
    | b1 :: t1 =>
      if (b0 <? 224)%N then ((b0 - 192) * 64 + (b1 - 128))%N :: utf8_decode t1
      else match t1 with
      | [] => []
      | b2 :: t2 =>
        if (b0 <? 240)%N
        then ((b0 - 224) * 4096 + (b1 - 128) * 64 + (b2 - 128))%N :: utf8_decode t2
        else match t2 with
        | [] => []
        | b3 :: t3 =>
          ((b0 - 240) * 262144 + (b1 - 128) * 4096 + (b2 - 128) * 64 + (b3 - 128))%N
            :: utf8_decode t3
        end
      end
    end
  end.

Definition u (s : string) : str :=
  utf8_decode (map N_of_ascii (list_ascii_of_string s)).

(** The interpreter's Unicode database. Whitespace is a short, fixed table and
    is written out in [isspace]; the decimal digits and the upper-case
    mapping are explicit on ASCII and a parameter beyond it (the tables
    depend on the Unicode version the interpreter ships). *)
Class Unicode : Type := {
  isdecimal_beyond_ascii : char -> bool;
  upper_beyond_ascii : char -> str
}.

(** [str.isspace] on one character, which is also what [\s] matches and what
    [str.strip] removes. *)
Definition isspace (c : char) : bool :=
  ((9 <=? c) && (c <=? 13) || (28 <=? c) && (c <=? 32)
   || (c =? 0x85) || (c =? 0xA0) || (c =? 0x1680)
   || (0x2000 <=? c) && (c <=? 0x200A)
   || (c =? 0x2028) || (c =? 0x2029) || (c =? 0x202F)
   || (c =? 0x205F) || (c =? 0x3000))%N.

(** What [\d] matches in a [str] pattern. *)
Definition isdecimal `{Unicode} (c : char) : bool :=
  if (c <? 128)%N then ((48 <=? c) && (c <=? 57))%N else isdecimal_beyond_ascii c.

Definition upper_char `{Unicode} (c : char) : str :=
  if (c <? 128)%N
  then [if ((97 <=? c) && (c <=? 122))%N then (c - 32)%N else c]
  else upper_beyond_ascii c.

(** [s.upper()] *)
Definition upper `{Unicode} (s : str) : str := flat_map upper_char s.

Fixpoint lstrip (s : str) : str :=
  match s with
  | [] => []
  | c :: s' => if isspace c then lstrip s' else s
  end.

Definition rstrip (s : str) : str := rev (lstrip (rev s)).

(** [s.strip()] *)
Definition strip (s : str) : str := rstrip (lstrip s).

Fixpoint startswith (p s : str) : bool :=
  match p, s with
  | [], _ => true
  | _ :: _, [] => false
  | a :: p', b :: s' => (a =? b)%N && startswith p' s'
  end.

(** [sub in s] *)
Fixpoint contains (sub s : str) : bool :=
  startswith sub s ||
  match s with
  | [] => false
  | _ :: s' => contains sub s'
  end.

(** [str(n)] for an [int] *)
Definition str_of_int (n : Z) : str :=
  map N_of_ascii (list_ascii_of_string (NilZero.string_of_int (Z.to_int n))).

(** [sep.join(parts)] *)
Fixpoint join (sep : str) (parts : list str) : str :=
  match parts with
  | [] => []
  | [p] => p
  | p :: ps => p ++ sep ++ join sep ps
  end.

(** [d.get(key, default)] on a key that may be absent *)
Definition get {A} (field : option A) (default : A) : A :=
  match field with Some v => v | None => default end.

(** [l[:n]]: a negative bound counts from the end. *)
Definition slice_to {A} (n : Z) (l : list A) : list A :=
  if (n <? 0)%Z then take (Z.to_nat (Z.of_nat (length l) + n)) l
  else take (Z.to_nat n) l.

(** An insertion-ordered [dict]: [d[k] = v] keeps the place of a key that
    is already there and appends a new one. *)
Fixpoint dict_set {K V} `{EqDecision K} (k : K) (v : V) (d : list (K * V))
    : list (K * V) :=
  match d with
  | [] => [(k, v)]
  | (k', v') :: d' =>
    if decide (k = k') then (k', v) :: d' else (k', v') :: dict_set k v d'
  end.

(** [{key(x): x for x in l}], built on top of [d]. *)
Definition dict_comprehension {K V} `{EqDecision K} (key : V -> K) (l : list V)
    (d : list (K * V)) : list (K * V) :=
  foldl (fun d x => dict_set (key x) x d) d l.

(** Exceptions the modelled code can raise. *)
Inductive exn : Type :=
| NameError (name : string)
| AttributeError (attr : string)
| KeyError (key : string)
| RuntimeError (msg : string)
| TypeError (operator : string).

Inductive result (A : Type) : Type :=
| Ok (a : A)
| Raise (e : exn).
Arguments Ok {A} a.
Arguments Raise {A} e.

(** [list.sort(key=..., reverse=True)] and [sorted(..., reverse=True)]: a
    stable sort by descending key, the key compared with [<] only. The
    element inserted is the one that came first in the list, so it goes in
    front of the elements that are not greater. *)
Section Sort.
Context {A K : Type} (ltb : K -> K -> bool) (key : A -> K).

Fixpoint insert_reverse (x : A) (l : list A) : list A :=
  match l with
  | [] => [x]
  | y :: l' =>
    if ltb (key x) (key y) then y :: insert_reverse x l' else x :: l
  end.

Fixpoint sort_reverse (l : list A) : list A :=
  match l with
  | [] => []
  | x :: l' => insert_reverse x (sort_reverse l')
  end.
End Sort.

(** [s < t] between two [str]: the order of the code points at the first
    place where the two differ, a proper prefix being less. *)
Fixpoint str_ltb (s t : str) : bool :=
  match s, t with
  | _, [] => false
  | [], _ :: _ => true
  | a :: s', b :: t' =>
    if (a <? b)%N then true else if (b <? a)%N then false else str_ltb s' t'
  end.

(** [a < b] between two values that are [None] or of one ordered type:
    [None] is ordered with nothing, and the comparison raises. *)
Definition lt_value {A} (ltb : A -> A -> bool) (a b : option A) : result bool :=
  match a, b with
  | Some x, Some y => Ok (ltb x y)
  | _, _ => Raise (TypeError "<")
  end.

(** [x < y] between two pairs: the first components that are not equal
    ([==]) are compared with [<]; pairs of equal components are not less. *)
Definition lt_pair {A B} `{EqDecision A, EqDecision B}
    (lt1 : A -> A -> result bool) (lt2 : B -> B -> result bool) (x y : A * B)
    : result bool :=
  if decide (x.1 = y.1) then
    if decide (x.2 = y.2) then Ok false else lt2 x.2 y.2
  else lt1 x.1 y.1.

(** [list.sort(key=...)] for keys whose [<] may raise: a stable sort by
    ascending key, the keys compared with [<] only, which the exception of
    a comparison leaves. The exception names no operand, so that it does not
    show which two keys the sort compared first; for the keys sorted in
    this development a sort raises exactly when two keys of the list are
    not ordered, whichever comparisons it makes. *)
Section SortBy.
Context {A K : Type} (lt : K -> K -> result bool) (key : A -> K).

Fixpoint insert_by (x : A) (l : list A) : result (list A) :=
  match l with
  | [] => Ok [x]
  | y :: l' =>
    match lt (key y) (key x) with
    | Raise e => Raise e
    | Ok false => Ok (x :: l)
    | Ok true =>
      match insert_by x l' with
      | Raise e => Raise e
      | Ok rest => Ok (y :: rest)
      end
    end
  end.

Fixpoint sort_by (l : list A) : result (list A) :=
  match l with
  | [] => Ok []
  | x :: l' =>
    match sort_by l' with
    | Raise e => Raise e
    | Ok sorted => insert_by x sorted
    end
  end.
End SortBy.

(** A format template ([str.format] with keyword fields only). The callers
    pass every field of their template. *)
Inductive segment : Type :=
| Text (s : str)
| Field (name : string).

Definition format_segment (kwargs : list (string * str)) (sg : segment) : str :=
  match sg with
  | Text s => s
  | Field name =>
    match find (fun kv => String.eqb name (fst kv)) kwargs with
    | Some kv => snd kv
    | None => []
    end
  end.

(** [template.format] called with keyword arguments *)
Definition format (template : list segment) (kwargs : list (string * str)) : str :=
  flat_map (format_segment kwargs) template.

End Py.

(** ** The fragment of [re] the sources use *)
Module Re.
Import Py.

(** Single-character classes. *)
Inductive cclass : Type :=
| Chr (c : char)     (* a literal character *)
| Dot                (* [.]: anything but a newline *)
| Space              (* [\s] *)
| Digit.             (* [\d] *)

Definition cmatch `{Unicode} (k : cclass) (c : char) : bool :=
  match k with
  | Chr a => (a =? c)%N
  | Dot => negb (c =? 10)%N
  | Space => isspace c
  | Digit => isdecimal c
  end.

(** Patterns. Both patterns of the repository quantify single-character
    classes only; [Group n] is the capturing group stored at index [n]
    (Python counts them from 1). *)
Inductive regex : Type :=
| Atom (k : cclass)
| Star (greedy : bool) (k : cclass)     (* [k*] and [k*?] *)
| Plus (k : cclass)                     (* [k+] *)
| Group (n : nat) (r : regex)
| Cat (r1 r2 : regex).

Definition captures : Type := list str.

(** [k*] from [s]: the greedy loop tries one more character first, the lazy
    one tries the continuation first. *)
Fixpoint star `{Unicode} {R} (greedy : bool) (k : cclass) (s : str)
    (cont : str -> option R) : option R :=
  match s with
  | [] => cont []
  | c :: s' =>
    if cmatch k c then
      if greedy then
        match star greedy k s' cont with
        | Some r => Some r
        | None => cont s
        end
      else
        match cont s with
        | Some r => Some r
        | None => star greedy k s' cont
        end
    else cont s
  end.

(** The backtracking matcher, anchored at the head of [s]: alternatives are
    tried in priority order and the first success wins. *)
Fixpoint rmatch `{Unicode} {R} (r : regex) (s : str) (caps : captures)
    (cont : str -> captures -> option R) : option R :=
  match r with
  | Atom k =>
    match s with
    | c :: s' => if cmatch k c then cont s' caps else None
    | [] => None
    end
  | Star greedy k => star greedy k s (fun s' => cont s' caps)
  | Plus k =>
    match s with
    | c :: s' => if cmatch k c then star true k s' (fun s'' => cont s'' caps) else None
    | [] => None
    end
  | Group n r' =>
    rmatch r' s caps
      (fun s' caps' => cont s' (<[n := take (length s - length s') s]> caps'))
  | Cat r1 r2 =>
    rmatch r1 s caps (fun s' caps' => rmatch r2 s' caps' cont)
  end.

Fixpoint ngroups (r : regex) : nat :=
  match r with
  | Group n r' => Nat.max (S n) (ngroups r')
  | Cat r1 r2 => Nat.max (ngroups r1) (ngroups r2)
  | _ => 0
  end.

(** A match at the head of [s]: the groups and the rest of the string. A
    group that did not take part is the empty string, as [findall] reports
    it. *)
Definition match_here `{Unicode} (r : regex) (s : str) : option (captures * str) :=
  rmatch r s (replicate (ngroups r) []) (fun s' caps => Some (caps, s')).

(** The left-to-right scan behind [findall] and [sub]: every position is
    tried in turn, a match is reported and the scan resumes where it ended
    ([skip] counts the characters of the match still to pass); a character no
    match covers is copied. *)
Inductive scanned : Type :=
| Hit (caps : captures)
| Copy (c : char).

Fixpoint scan `{Unicode} (r : regex) (s : str) (skip : nat) : list scanned :=
  match skip with
  | S n =>
    match s with
    | [] => []
    | _ :: s' => scan r s' n
    end
  | O =>
    match match_here r s with
    | Some (caps, rest) =>
      Hit caps ::
      match s with
      | [] => []
      | c :: s' =>
        match length s - length rest with
        | O => Copy c :: scan r s' 0
        | S m => scan r s' m
        end
      end
    | None =>
      match s with
      | [] => []
      | c :: s' => Copy c :: scan r s' 0
      end
    end
  end.

(** [re.findall(pattern, s)] *)
Definition findall `{Unicode} (r : regex) (s : str) : list captures :=
  flat_map (fun x => match x with Hit caps => [caps] | Copy _ => [] end) (scan r s 0).

(** [re.sub(pattern, repl, s)] for a replacement without group references *)
Definition sub `{Unicode} (r : regex) (repl : str) (s : str) : str :=
  flat_map (fun x => match x with Hit _ => repl | Copy c => [c] end) (scan r s 0).

(** A literal string as a pattern; the last character is given apart so that
    no empty pattern is needed. *)
Fixpoint lit (s : str) (last : char) : regex :=
  match s with
  | [] => Atom (Chr last)
  | c :: s' => Cat (Atom (Chr c)) (lit s' last)
  end.

End Re.

(** ** Data shared by both applications *)
Module Data.
Import Py.

(** The keys of [Document.metadata] the pipeline reads; a key may be absent
    from the dictionary. [title] is what the single-process application
    stores, [book_title] what the server sends to the client. *)
Record Metadata : Type := {
  source_file : option str;
  title : option str;
  book_title : option str;
  author : option str;
  page : option Z
}.

(** [langchain]'s [Document] and the client's [DocumentInfo]. *)
Record Document : Type := {
  page_content : str;
  metadata : Metadata
}.

(** A call of the generation engine ([Llama.__call__]); a sampling setting
    that is not passed is [None]. Decimal literals are kept as fractions. *)
Record LlmCall : Type := {
  prompt : str;
  max_tokens : Z;
  temperature : Z * positive;
  repeat_penalty : option (Z * positive);
  stop : list str;
  stream : bool
}.

(** One element of a streamed completion: [chunk["choices"][0]], whose
    ["text"] key may be absent. *)
Definition chunk : Type := option str.

(** The calls that leave a query's pipeline or pass between its components,
    in the order they are made: the document store is queried, the
    generation engine is called, the verifier is handed an answer and its
    source documents. *)
Inductive event : Type :=
| Retrieve (query : str)
| Generate (call : LlmCall)
| Verify (answer : str) (source_docs : list Document).

Definition NEWLINE : str := [10%N].

(** The separator of context parts, a rule between blank lines. *)
Definition SEPARATOR : str := [10; 10; 45; 45; 45; 10; 10]%N.

End Data.

(** ** The single-process application ([src/]) *)
Module Monolith.
Import Py Re Data.

(** *** [config.py] *)
Record AppConfig : Type := {
  RETRIEVER_K : Z;
  RERANKER_TOP_N : Z;
  LLM_MAX_TOKENS : Z;
  LLM_TEMPERATURE : Z * positive;
  LLM_REPEAT_PENALTY : Z * positive;
  GENERATION_PROMPT : list segment
}.

Definition QUOTE : str := [34%N].

Definition APP_CONFIG : AppConfig := {|
  RETRIEVER_K := 20%Z;
  RERANKER_TOP_N := 5%Z;
  LLM_MAX_TOKENS := 2048%Z;
  LLM_TEMPERATURE := (15%Z, 100%positive);
  LLM_REPEAT_PENALTY := (11%Z, 10%positive);
  GENERATION_PROMPT :=
    [ Text (u "<|begin_of_text|><|start_header_id|>system<|end_header_id|>
## GÖREV TANIMI
Sen, birincil kaynağa dayalı bir araştırma uzmanısın. Tek görevin, sağlanan KANITLAR bölümündeki metinleri kullanarak, kullanıcının SORU'suna doğrudan ve kanıta dayalı bir cevap oluşturmaktır.

## KESİN KURALLAR
1.  **KANIT DIŞINA ÇIKMA:** Cevabındaki her kelime, doğrudan KANITLAR bölümünden türetilmelidir. Kendi bilgini, yorumunu veya çıkarımını ASLA ekleme.
2.  **KAYNAK GÖSTERME ZORUNLULUĞU:** Cevabındaki her anlamlı cümle veya bilgi bloğunun sonuna, o bilginin alındığı kaynağı `[Kaynak: Kitap Başlığı - Yazar, Sayfa: X]` formatında ekle.
3.  **YETERSİZ KANIT DURUMU:** Eğer KANITLAR, soruyu cevaplamak için yeterli değilse veya konuyla ilgili değilse, başka hiçbir açıklama yapmadan SADECE şu cümleyi yaz: ");
      Text QUOTE;
      Text (u "Sağlanan kanıtlarda bu soruya yanıt verecek spesifik bir bilgi bulunmamaktadır.");
      Text QUOTE;
      Text (u "
<|eot_id|><|start_header_id|>user<|end_header_id|>
KANITLAR:
");
      Field "context";
      Text (u "

SORU: ");
      Field "question";
      Text (u "<|eot_id|><|start_header_id|>assistant<|end_header_id|>
") ]
|}.

(** *** [reranker.py] *)
Section ReRanker.
(** The scores of the cross-encoder, compared with [<], and its [predict]
    on a batch of (query, content) pairs. *)
Context {S : Type} (ltb : S -> S -> bool).
Variable _config : AppConfig.
Variable predict : list (str * str) -> list S.

(** [ReRanker.rerank] *)
Definition rerank (query : str) (documents : list Document) : list Document :=
  match documents, query with
  | [], _ => []
  | _, [] => []
  | _, _ =>
    let sentence_pairs := map (fun doc => (query, page_content doc)) documents in
    let scores := predict sentence_pairs in
    let scored_docs := combine scores documents in
    let scored_docs := sort_reverse ltb fst scored_docs in
    let top_n := RERANKER_TOP_N _config in
    map snd (slice_to top_n scored_docs)
  end.
End ReRanker.

(** *** [rag_core.py] *)

(** What [stream_query_response] yields: the source documents first, then
    the tokens of the answer. *)
Inductive yielded : Type :=
| YDocs (docs : list Document)
| YToken (token : str).

(** Where the generator is suspended. *)
Inductive frame : Type :=
| AtStart (user_query : str)
| AtYieldEmpty                                   (* at [yield []], [return] next *)
| AtYieldDocs (user_query : str) (reranked_docs : list Document)
| AtYieldToken (rest : list chunk)               (* inside [for chunk in stream] *)
| Finished.

(** The key of the dictionary comprehension that removes duplicates. *)
Definition identity (doc : Document) : str * option str * option Z :=
  (page_content doc, source_file (metadata doc), page (metadata doc)).

(** [{identity(doc): doc for doc in docs}] in insertion order, then
    [list(...values())]. *)
Definition unique (retrieved_docs : list Document) : list Document :=
  let unique_docs_map := dict_comprehension identity retrieved_docs [] in
  map snd unique_docs_map.

(** [RAGCore._format_context] *)
Definition _format_context (documents : list Document) : str :=
  let context_parts :=
    map (fun doc =>
      let metadata := metadata doc in
      let source_str :=
        get (title metadata) (u "Bilinmiyor") ++ u " - " ++
        get (author metadata) (u "Bilinmiyor") in
      let page := get (page metadata) 0%Z in
      u "[Kaynak: " ++ source_str ++ u ", Sayfa: " ++ str_of_int page ++ u "]"
        ++ NEWLINE ++ page_content doc) documents in
  join SEPARATOR context_parts.

(** The body of [for chunk in stream]: up to the next [yield token]. Empty
    tokens are passed over. *)
Fixpoint next_token (stream : list chunk) : option (str * list chunk) :=
  match stream with
  | [] => None
  | chunk :: rest =>
    match get chunk [] with
    | [] => next_token rest
    | token => Some (token, rest)
    end
  end.

Section RAGCore.
Context {S : Type} (ltb : S -> S -> bool).
Variable _config : AppConfig.
(** The collaborators: [self._database.get_retriever({'k': k}).invoke],
    the cross-encoder and the streaming completion of [self._llm]. *)
Variable retriever_invoke : Z -> str -> list Document.
Variable predict : list (str * str) -> list S.
Variable _llm : LlmCall -> list chunk.

Definition generation_call (user_query : str) (reranked_docs : list Document)
    : LlmCall :=
  let final_context := _format_context reranked_docs in
  let full_prompt :=
    format (GENERATION_PROMPT _config)
      [("context"%string, final_context); ("question"%string, user_query)] in
  {| prompt := full_prompt;
     max_tokens := LLM_MAX_TOKENS _config;
     temperature := LLM_TEMPERATURE _config;
     repeat_penalty := Some (LLM_REPEAT_PENALTY _config);
     stop := [u "<|eot_id|>"; u "<|end_of_text|>"];
     stream := true |}.

Definition resume_loop (stream : list chunk) (log : list event)
    : option yielded * frame * list event :=
  match next_token stream with
  | Some (token, rest) => (Some (YToken token), AtYieldToken rest, log)
  | None => (None, Finished, log)
  end.

(** [RAGCore.stream_query_response]: one [next()] on the generator, from
    the frame it was suspended in; [None] is [StopIteration]. The log
    grows by the collaborators called on the way. *)
Definition resume (fr : frame) (log : list event)
    : option yielded * frame * list event :=
  match fr with
  | AtStart user_query =>
    let k := RETRIEVER_K _config in
    let retrieved_docs := retriever_invoke k user_query in
    let log := log ++ [Retrieve user_query] in
    let unique_docs := unique retrieved_docs in
    match unique_docs with
    | [] => (Some (YDocs []), AtYieldEmpty, log)
    | _ =>
      let reranked_docs := rerank ltb _config predict user_query unique_docs in
      match reranked_docs with
      | [] => (Some (YDocs []), AtYieldEmpty, log)
      | _ => (Some (YDocs reranked_docs), AtYieldDocs user_query reranked_docs, log)
      end
    end
  | AtYieldEmpty => (None, Finished, log)
  | AtYieldDocs user_query reranked_docs =>
    let call := generation_call user_query reranked_docs in
    resume_loop (_llm call) (log ++ [Generate call])
  | AtYieldToken rest => resume_loop rest log
  | Finished => (None, Finished, log)
  end.

(** [stream_query_response(user_query)]: calling a generator function runs
    nothing yet. *)
Definition stream_query_response (user_query : str) : frame := AtStart user_query.

(** [for item in generator]: [resume] until [StopIteration]. [budget] bounds
    the number of [next()] calls the frame can still answer, so that
    [for_each] never stops short of [Finished]. *)
Fixpoint iterate (fuel : nat) (fr : frame) (log : list event)
    : list yielded * frame * list event :=
  match fuel with
  | O => ([], fr, log)
  | Datatypes.S fuel' =>
    match resume fr log with
    | (Some y, fr', log') =>
      let '(ys, fr'', log'') := iterate fuel' fr' log' in (y :: ys, fr'', log'')
    | (None, fr', log') => ([], fr', log')
    end
  end.

Definition budget (fr : frame) : nat :=
  match fr with
  | AtStart user_query =>
    3 + length (_llm (generation_call user_query
          (rerank ltb _config predict user_query
             (unique (retriever_invoke (RETRIEVER_K _config) user_query)))))
  | AtYieldEmpty => 1
  | AtYieldDocs user_query reranked_docs =>
    2 + length (_llm (generation_call user_query reranked_docs))
  | AtYieldToken rest => 1 + length rest
  | Finished => 1
  end.

Definition for_each (fr : frame) (log : list event)
    : list yielded * frame * list event :=
  iterate (budget fr) fr log.
End RAGCore.


(** *** [answer_verifier.py] *)

(** A reference of the answer and the provenance of a document: title,
    author and page, each a string. *)
Definition citation : Type := (str * str * str)%type.

(** [r"\[Kaynak: (.*?)\s*-\s*(.*?),\s*Sayfa:\s*(\d+)\]"] *)
Definition pattern : regex :=
  Cat (lit (u "[Kaynak:") 32%N)
  (Cat (Group 0 (Star false Dot))
  (Cat (Star true Space) (Cat (Atom (Chr 45%N)) (Cat (Star true Space)
  (Cat (Group 1 (Star false Dot))
  (Cat (Atom (Chr 44%N)) (Cat (Star true Space) (Cat (lit (u "Sayfa") 58%N)
  (Cat (Star true Space) (Cat (Group 2 (Plus Digit)) (Atom (Chr 93%N)))))))))))).

(** The three groups of one match, stripped. *)
Definition reference (groups : captures) : citation :=
  (strip (nth 0 groups []), strip (nth 1 groups []), strip (nth 2 groups [])).

(** The key a source document gets in [source_docs_map]. *)
Definition provenance (doc : Document) : citation :=
  (get (title (metadata doc)) (u "Bilinmiyor"),
   get (author (metadata doc)) (u "Bilinmiyor"),
   str_of_int (get (page (metadata doc)) 0%Z)).

(** [{provenance(doc): doc for doc in source_docs}]: a later document
    replaces an earlier one with the same key. *)
Definition source_docs_map (source_docs : list Document) : gmap citation Document :=
  foldl (fun m doc => <[provenance doc := doc]> m) ∅ source_docs.

(** What the cross-check of steps 1 to 3 computes. *)
Record CrossCheck : Type := {
  answer_references_set : gset citation;
  verified_refs : gset citation;
  hallucinated_refs : gset citation;
  verified_sources : list Document
}.

(** Steps 1 to 3 of [verify_and_present]; [None] when the answer holds no
    reference, the case that is presented as unverified. *)
Definition cross_check `{Unicode} (final_answer : str) (source_docs : list Document)
    : option CrossCheck :=
  let answer_references_raw := findall pattern final_answer in
  match answer_references_raw with
  | [] => None
  | _ =>
    let answer_references_set : gset citation :=
      list_to_set (map reference answer_references_raw) in
    let source_docs_map := source_docs_map source_docs in
    let verified_refs := answer_references_set ∩ dom source_docs_map in
    let hallucinated_refs := answer_references_set ∖ dom source_docs_map in
    let verified_sources :=
      omap (fun ref => source_docs_map !! ref) (elements verified_refs) in
    Some {| answer_references_set := answer_references_set;
            verified_refs := verified_refs;
            hallucinated_refs := hallucinated_refs;
            verified_sources := verified_sources |}
  end.

(** What is printed, block by block. The heading of the verified sources
    is printed before they are sorted; their lines follow in the sorted
    order. *)
Inductive block : Type :=
| Answer (text : str)
| NotVerified                              (* the answer could not be checked *)
| PossibleSources (docs : list Document)
| VerifiedHeading
| VerifiedSources (docs : list Document)   (* one line for each, in this order *)
| Warning (made_up : gset citation).       (* references that may be made up *)

(** [lambda d: (d.metadata.get('title'), d.metadata.get('page'))] *)
Definition sort_key (d : Document) : option str * option Z :=
  (title (metadata d), page (metadata d)).

(** [<] between two such keys. *)
Definition lt_key : option str * option Z -> option str * option Z -> result bool :=
  lt_pair (lt_value str_ltb) (lt_value Z.ltb).

(** [AnswerVerifier._present_unverified_answer] *)
Definition _present_unverified_answer (answer : str) (source_docs : list Document)
    : list block :=
  [Answer answer; NotVerified] ++
  match source_docs with
  | [] => []
  | _ => [PossibleSources source_docs]
  end.

(** The end of [verify_and_present]: [if hallucinated_refs:]. *)
Definition warning (c : CrossCheck) : list block :=
  if decide (hallucinated_refs c = ∅) then [] else [Warning (hallucinated_refs c)].

(** [AnswerVerifier.verify_and_present]: how it ends and what it printed.
    An exception of the sort leaves the method with the answer and the
    heading printed, before the warning. *)
Definition verify_and_present `{Unicode} (final_answer : str)
    (source_docs : list Document) : result unit * list block :=
  match cross_check final_answer source_docs with
  | None => (Ok tt, _present_unverified_answer final_answer source_docs)
  | Some c =>
    match verified_sources c with
    | [] => (Ok tt, [Answer final_answer] ++ warning c)
    | verified_sources =>
      match sort_by lt_key sort_key verified_sources with
      | Raise e => (Raise e, [Answer final_answer; VerifiedHeading])
      | Ok verified_sources =>
        (Ok tt,
         [Answer final_answer; VerifiedHeading; VerifiedSources verified_sources]
           ++ warning c)
      end
    end
  end.

(** *** [main.py] *)
Inductive outcome : Type :=
| NoDocuments                        (* no document answers the question *)
| NoInformation                      (* [except StopIteration] *)
| Presented (final_answer : str) (source_docs : list Document) (blocks : list block)
| Failed.                            (* [except Exception] *)

(** [final_answer += token] over the rest of the stream; a document list
    cannot be added to a string. *)
Fixpoint accumulate (final_answer : str) (items : list yielded) : option str :=
  match items with
  | [] => Some final_answer
  | YToken token :: items' => accumulate (final_answer ++ token) items'
  | YDocs _ :: _ => None
  end.

Section MainApplication.
Context `{Unicode} {S : Type} (ltb : S -> S -> bool).
Variable _config : AppConfig.
Variable retriever_invoke : Z -> str -> list Document.
Variable predict : list (str * str) -> list S.
Variable _llm : LlmCall -> list chunk.

(** [MainApplication._handle_query]. The collaborators are total functions
    here; were one of them to raise, the [except Exception] clause would end
    the query as [Failed], as it does when [verify_and_present] raises. *)
Definition _handle_query (user_query : str) : outcome * list event :=
  let response_stream := stream_query_response user_query in
  match resume ltb _config retriever_invoke predict _llm response_stream [] with
  | (None, _, log) => (NoInformation, log)
  | (Some (YDocs []), _, log) => (NoDocuments, log)
  | (Some (YToken []), _, log) => (NoDocuments, log)
  | (Some (YToken _), response_stream, log) =>
    let '(_, _, log) :=
      for_each ltb _config retriever_invoke predict _llm response_stream log in
    (Failed, log)
  | (Some (YDocs source_docs), response_stream, log) =>
    let '(items, _, log) :=
      for_each ltb _config retriever_invoke predict _llm response_stream log in
    match accumulate [] items with
    | Some final_answer =>
      let log := log ++ [Verify final_answer source_docs] in
      match verify_and_present final_answer source_docs with
      | (Ok _, blocks) => (Presented final_answer source_docs blocks, log)
      | (Raise _, _) => (Failed, log)
      end
    | None => (Failed, log)
    end
  end.
End MainApplication.

End Monolith.

(** ** The thin client ([src/client/]) *)
Module Client.
Import Py Re Data.

(** *** [config.py] *)
Record AppConfig : Type := {
  RETRIEVER_K : Z;
  RERANKER_N : Z;
  LLM_TEMPERATURE : Z * positive;
  LLM_MAX_TOKENS : Z;
  GENERATION_PROMPT : list segment;
  VERIFICATION_PROMPT : list segment
}.

Definition QUOTE : str := [34%N].

Definition config : AppConfig := {|
  RETRIEVER_K := 25%Z;
  RERANKER_N := 7%Z;
  LLM_TEMPERATURE := (5%Z, 100%positive);
  LLM_MAX_TOKENS := 2048%Z;
  GENERATION_PROMPT :=
    [ Text (u "<|begin_of_text|><|start_header_id|>system<|end_header_id|>
<TALIMATLAR>
Sen, verilen kaynak metinler konusunda uzman bir akademik asistansın. Görevin, kullanıcıdan gelen SORU'yu aşağıdaki kurallara harfiyen uyarak yanıtlamaktır.

**KESİN KURALLAR:**
1.  **YALNIZCA KAYNAKLARI KULLAN:** Cevabını SADECE ve YALNIZCA aşağıda <KAYNAKLAR> etiketi içinde verilen metinlere dayandır. Kendi ön bilgini veya internetten öğrendiklerini KESİNLİKLE kullanma.
2.  **KAYNAK GÖSTERME ZORUNLULUĞU:** Cevabına eklediğin HER BİR cümle veya iddia için, o bilginin alındığı metin parçasının başındaki referansı (örn: `[Kaynak: dosya.pdf, Sayfa: 123]`) cümlenin sonuna ekle. Bu kural istisnasızdır.
3.  **BİLGİ YOKSA, ");
      Text QUOTE;
      Text (u "YOK");
      Text QUOTE;
      Text (u " DE:** Eğer <KAYNAKLAR> bölümündeki metinler SORU'yu yanıtlamak için yeterli veya ilgili bilgi içermiyorsa, başka hiçbir açıklama yapmadan SADECE ve TAM OLARAK şu cevabı ver: ");
      Text QUOTE;
      Text (u "Sağlanan belgelerde bu bilgi mevcut değil.");
      Text QUOTE;
      Text (u "
4.  **SENTEZ ve KARŞILAŞTIRMA:** Eğer soru karşılaştırma veya özetleme gerektiriyorsa, farklı kaynaklardaki bilgileri birleştirerek tutarlı bir cevap oluştur, ancak her zaman 2. kurala uyarak kaynak göstermeye devam et.
5.  **YORUMSUZ OL:** Cevabına kendi yorumunu, çıkarımını veya görüşünü asla ekleme. Sadece kaynaklarda ne yazıyorsa onu aktar.
</TALIMATLAR><|eot_id|><|start_header_id|>user<|end_header_id|>

<KAYNAKLAR>
");
      Field "context";
      Text (u "
</KAYNAKLAR>

<SORU>
");
      Field "question";
      Text (u "
</SORU><|eot_id|><|start_header_id|>assistant<|end_header_id|>
") ];
  VERIFICATION_PROMPT :=
    [ Text (u "<|begin_of_text|><|start_header_id|>system<|end_header_id|>
<GÖREV>
Aşağıdaki 'İDDİA' metninin, verilen 'KAYNAK METİN' tarafından %100 oranında, hiçbir ek yorum veya bilgi katmadan desteklenip desteklenmediğini analiz et.
Yanıtın SADECE 'EVET' veya 'HAYIR' olmalıdır. Başka hiçbir açıklama yapma.
</GÖREV><|eot_id|><|start_header_id|>user<|end_header_id|>

<KAYNAK_METİN>
");
      Field "source_chunk";
      Text (u "
</KAYNAK_METİN>

<İDDİA>
");
      Field "generated_answer";
      Text (u "
</İDDİA><|eot_id|><|start_header_id|>assistant<|end_header_id|>
") ]
|}.

(** *** [shared_utils.py] *)
Record FinalResponse : Type := {
  final_answer : str;
  verified_sources : list Metadata;
  unverified_sources : list Metadata;
  is_fully_verified : bool;
  raw_llm_answer : str
}.

(** *** [client_components.py] *)

(** Two names the methods below read are bound nowhere in the file: the
    module never imports [re] (its imports are [logging], [hf_hub_download],
    [Llama], [CrossEncoder], [FinalResponse], [AppConfig],
    [ConsoleFormatter], [List], [DocumentInfo] and [QueryResult]), and
    [__init__] of [RAGCore] and of [AnswerVerifier] binds [self._formatter],
    not [self.formatter]. [as_written] is the file; the other values of
    [Bindings] describe the file with a name bound. *)
Record Bindings : Type := {
  re_imported : bool;
  formatter_bound : bool
}.

Definition as_written : Bindings :=
  {| re_imported := false; formatter_bound := false |}.

Definition global_re (b : Bindings) : result unit :=
  if re_imported b then Ok tt else Raise (NameError "re").

Definition self_formatter (b : Bindings) : result unit :=
  if formatter_bound b then Ok tt else Raise (AttributeError "formatter").

(** The sentence the generation prompt asks for when the sources do not
    answer the question, as [verify] spells it. *)
Definition NOT_FOUND : str := u "Sağlanan belgelerde bu bilgi mevcut değil.".

Definition EMPTY_ANSWER : str := u "Model boş bir cevap üretti.".

Definition NO_SOURCES : str :=
  u "Kullanıcının sorusunu yanıtlamak için hiçbir kaynak bulunamadı.".

(** [r'\[Kaynak:.*?\]'] *)
Definition tag_pattern : regex :=
  Cat (lit (u "[Kaynak") 58%N) (Cat (Star false Dot) (Atom (Chr 93%N))).

(** [d[key]] on a key that may be absent *)
Definition subscript {A} (key : string) (field : option A) : result A :=
  match field with
  | Some v => Ok v
  | None => Raise (KeyError key)
  end.

(** [RAGCore._format_context] *)
Definition _format_context (docs : list Document) : str :=
  match docs with
  | [] => NO_SOURCES
  | _ =>
    let context_parts :=
      map (fun doc =>
        let title := get (book_title (metadata doc)) (u "Bilinmeyen Kitap") in
        let author := get (author (metadata doc)) (u "Bilinmeyen Yazar") in
        let page :=
          match page (metadata doc) with
          | Some n => str_of_int n
          | None => u "Bilinmeyen Sayfa"
          end in
        let source_ref :=
          u "[Kaynak: " ++ title ++ u " (" ++ author ++ u "), Sayfa: " ++ page ++ u "]" in
        source_ref ++ NEWLINE ++ page_content doc) docs in
    join SEPARATOR context_parts
  end.

Section Components.
Context `{Unicode} {S : Type} (ltb : S -> S -> bool).
Variable b : Bindings.
Variable _config : AppConfig.
(** The collaborators: [predict] of the cross-encoder, and the text of a
    blocking completion of the engine, [llm(...)['choices'][0]['text']],
    which may raise. *)
Variable predict : list (str * str) -> list S.
Variable llm : LlmCall -> result str.

(** [RAGCore._rerank_documents] *)
Definition _rerank_documents (query : str) (docs : list Document) : list Document :=
  match docs with
  | [] => []
  | _ =>
    let pairs := map (fun doc => (query, page_content doc)) docs in
    let scores := predict pairs in
    let doc_scores := sort_reverse ltb snd (combine docs scores) in
    map fst (slice_to (RERANKER_N _config) doc_scores)
  end.

Definition generation_call (query : str) (reranked_docs : list Document) : LlmCall :=
  let context := _format_context reranked_docs in
  let full_prompt :=
    format (GENERATION_PROMPT _config)
      [("context"%string, context); ("question"%string, query)] in
  {| prompt := full_prompt;
     max_tokens := LLM_MAX_TOKENS _config;
     temperature := LLM_TEMPERATURE _config;
     repeat_penalty := None;
     stop := [u "<|eot_id|>"; u "<|end_of_text|>"];
     stream := false |}.

(** [RAGCore.generate_answer] *)
Definition generate_answer (query : str) (retrieved_docs : list Document)
    (log : list event) : result (str * list Document) * list event :=
  let reranked_docs := _rerank_documents query retrieved_docs in
  let call := generation_call query reranked_docs in
  match self_formatter b with
  | Raise e => (Raise e, log)
  | Ok _ =>
    let log := log ++ [Generate call] in
    match llm call with
    | Raise e => (Raise e, log)
    | Ok text =>
      let raw_answer := strip text in
      (Ok (raw_answer, reranked_docs), log)
    end
  end.

Definition verification_call (source_chunk claim : str) : LlmCall :=
  let verification_prompt :=
    format (VERIFICATION_PROMPT _config)
      [("source_chunk"%string, source_chunk); ("generated_answer"%string, claim)] in
  {| prompt := verification_prompt;
     max_tokens := 10%Z;
     temperature := (0%Z, 1%positive);
     repeat_penalty := None;
     stop := [u "<|eot_id|>"];
     stream := false |}.

(** The [for doc in source_docs] loop of [AnswerVerifier.verify], from the
    lists built so far. The log lines of the loop read
    [doc.metadata['book_title']] and [doc.metadata['page']]. *)
Fixpoint verify_sources (claim : str) (source_docs : list Document)
    (verified_sources unverified_sources : list Metadata) (log : list event)
    : result (list Metadata * list Metadata) * list event :=
  match source_docs with
  | [] => (Ok (verified_sources, unverified_sources), log)
  | doc :: rest =>
    let source_chunk := page_content doc in
    let call := verification_call source_chunk claim in
    match subscript "book_title" (book_title (metadata doc)) with
    | Raise e => (Raise e, log)
    | Ok _ =>
      match subscript "page" (page (metadata doc)) with
      | Raise e => (Raise e, log)
      | Ok _ =>
        let log := log ++ [Generate call] in
        match llm call with
        | Raise e => (Raise e, log)
        | Ok text =>
          let verification_result := upper (strip text) in
          if contains (u "EVET") verification_result
          then verify_sources claim rest
                 (verified_sources ++ [metadata doc]) unverified_sources log
          else verify_sources claim rest
                 verified_sources (unverified_sources ++ [metadata doc]) log
        end
      end
    end
  end.

(** [AnswerVerifier.verify] *)
Definition verify (raw_answer : str) (source_docs : list Document)
    (log : list event) : result FinalResponse * list event :=
  if contains NOT_FOUND raw_answer then
    (Ok {| final_answer := raw_answer;
           verified_sources := [];
           unverified_sources := [];
           is_fully_verified := true;
           raw_llm_answer := raw_answer |}, log)
  else
    match global_re b with
    | Raise e => (Raise e, log)
    | Ok _ =>
      let claim := strip (sub tag_pattern [] raw_answer) in
      match claim with
      | [] =>
        (Ok {| final_answer := EMPTY_ANSWER;
               verified_sources := [];
               unverified_sources := [];
               is_fully_verified := false;
               raw_llm_answer := raw_answer |}, log)
      | _ =>
        match self_formatter b with
        | Raise e => (Raise e, log)
        | Ok _ =>
          match verify_sources claim source_docs [] [] log with
          | (Raise e, log) => (Raise e, log)
          | (Ok (verified_sources, unverified_sources), log) =>
            let is_fully_verified :=
              (0 <? length verified_sources) && (length unverified_sources =? 0) in
            let final_answer := raw_answer in
            (Ok {| final_answer := final_answer;
                   verified_sources := verified_sources;
                   unverified_sources := unverified_sources;
                   is_fully_verified := is_fully_verified;
                   raw_llm_answer := raw_answer |}, log)
          end
        end
      end
    end.

(** *** [client.py] *)

(** [ServerAPIClient.retrieve_documents]: the documents of the server's
    answer, or [None] when the request failed. *)
Variable retrieve_documents : str -> option (list Document).

(** [TerminalApplication._handle_query]: the response that is displayed,
    if any. Nothing catches an exception here or in the main loop. *)
Definition _handle_query (query : str) : result (option FinalResponse) * list event :=
  let log := [Retrieve query] in
  match retrieve_documents query with
  | None => (Ok None, log)
  | Some [] => (Ok None, log)
  | Some retrieved_docs =>
    match generate_answer query retrieved_docs log with
    | (Raise e, log) => (Raise e, log)
    | (Ok (raw_answer, source_docs), log) =>
      match verify raw_answer source_docs (log ++ [Verify raw_answer source_docs]) with
      | (Raise e, log) => (Raise e, log)
      | (Ok verified_result, log) => (Ok (Some verified_result), log)
      end
    end
  end.
End Components.

End Client.

(** ** Notions the statements use *)
Module Spec.
Import Py Re Data.

(** *** Ranking *)
Section Ranking.
Context {S : Type} (ltb : S -> S -> bool).

(** Position [i] with score [a] comes before position [j] with score [b]
    in the ranking: [a] is not below [b], and on a tie the earlier position
    of the input wins. *)
Definition ranks_before (x y : nat * S) : Prop :=
  ltb x.2 y.2 = false /\ (ltb y.2 x.2 = false -> x.1 < y.1).

(** [idx] lists positions of [docs], each once, whose documents make up
    [out] in ranking order. *)
Definition selects {A} (scores : list S) (docs out : list A) (idx : list nat) : Prop :=
  NoDup idx /\
  Forall2 (fun i d => docs !! i = Some d) idx out /\
  StronglySorted (fun i j => exists a b,
    scores !! i = Some a /\ scores !! j = Some b /\ ranks_before (i, a) (j, b)) idx.

(** [out] refines [docs]: nothing added, nothing repeated, ranking order,
    at most [n] documents. *)
Definition refinement {A} (n : nat) (scores : list S) (docs out : list A) : Prop :=
  exists idx, selects scores docs out idx /\ length idx <= n.

(** [out] is made of the [n] best of [docs] under [scores], best first:
    every position left out ranks after every position kept. *)
Definition top_ranked {A} (n : nat) (scores : list S) (docs out : list A) : Prop :=
  exists idx,
    selects scores docs out idx /\
    length idx = Nat.min n (length docs) /\
    (forall i j a b, i ∈ idx -> j ∉ idx ->
       scores !! i = Some a -> scores !! j = Some b -> ranks_before (i, a) (j, b)).

(** Elements tagged with their position in the input. *)
Definition tag {E} (l : list E) : list (nat * E) := combine (seq 0 (length l)) l.

Definition tagged_before {E} (key : E -> S) (x y : nat * E) : Prop :=
  ranks_before (x.1, key x.2) (y.1, key y.2).

(** The scores the relevance model gives the candidates of a query. *)
Definition scores_of (predict : list (str * str) -> list S) (query : str)
    (docs : list Document) : list S :=
  predict (map (fun doc => (query, page_content doc)) docs).
End Ranking.

(** *** Streaming *)

(** The text fragments of a streamed completion, in generation order: the
    ["text"] of each chunk, the empty ones left out. *)
Definition fragments (stream : list chunk) : list str :=
  List.filter (fun token => match token with [] => false | _ => true end)
    (map (fun chunk => get chunk []) stream).

(** The evidence bundle of a query in the single-process application: the
    retrieved documents, made unique, then reranked. *)
Definition evidence {S} (ltb : S -> S -> bool) (_config : Monolith.AppConfig)
    (retriever_invoke : Z -> str -> list Document)
    (predict : list (str * str) -> list S) (user_query : str) : list Document :=
  Monolith.rerank ltb _config predict user_query
    (Monolith.unique (retriever_invoke (Monolith.RETRIEVER_K _config) user_query)).

Definition is_generate (ev : event) : Prop :=
  match ev with Generate _ => True | _ => False end.

(** *** Citations *)

(** The provenances of an evidence bundle, as a set. *)
Definition provenances (source_docs : list Document) : gset Monolith.citation :=
  list_to_set (map Monolith.provenance source_docs).

(** A document whose metadata holds a title and a page. *)
Definition titled (doc : Document) : Prop :=
  is_Some (title (metadata doc)) /\ is_Some (page (metadata doc)).

(** Two sort keys that [<] orders, and two whose titles, when both are
    there, are in order. *)
Definition ordered (k k' : option str * option Z) : Prop :=
  exists b, Monolith.lt_key k k' = Ok b.

Definition title_le (k k' : option str * option Z) : Prop :=
  match k.1, k'.1 with
  | Some t, Some t' => str_ltb t' t = false
  | _, _ => True
  end.

(** The references of an answer, as a set. *)
Definition references `{Unicode} (final_answer : str) : gset Monolith.citation :=
  list_to_set (map Monolith.reference (findall Monolith.pattern final_answer)).

(** The tag of title [T] and author [A] with a given page, and the
    reference it stands for. *)
Definition tag_T_A (page : string) : str :=
  u "[Kaynak: T - A, Sayfa: " ++ u page ++ u "]".

Definition cite_T_A (page : string) : Monolith.citation := (u "T", u "A", u page).

(** *** Claim-level verification *)
Definition both_bound : Client.Bindings :=
  {| Client.re_imported := true; Client.formatter_bound := true |}.

Definition short_circuit (raw_answer : str) : Client.FinalResponse :=
  {| Client.final_answer := raw_answer;
     Client.verified_sources := [];
     Client.unverified_sources := [];
     Client.is_fully_verified := true;
     Client.raw_llm_answer := raw_answer |}.

(** The claim [verify] checks: the answer without its tags, stripped. *)
Definition claim_of `{Unicode} (raw_answer : str) : str :=
  strip (sub Client.tag_pattern [] raw_answer).

Section PolicyB.
Context `{Unicode}.
Variable cfg : Client.AppConfig.
Variable llm : LlmCall -> result str.

(** The engine affirms [doc] for [claim]: its completion of the
    verification prompt holds the affirmative token. *)
Definition affirms (claim : str) (doc : Document) : bool :=
  match llm (Client.verification_call cfg (page_content doc) claim) with
  | Ok text => contains (u "EVET") (upper (strip text))
  | Raise _ => false
  end.

Definition denies (claim : str) (doc : Document) : bool := negb (affirms claim doc).

Definition verification_calls (claim : str) (docs : list Document) : list event :=
  map (fun doc => Generate (Client.verification_call cfg (page_content doc) claim)) docs.
End PolicyB.

End Spec.

(** ** Concrete inputs *)
Module Examples.
Import Py Re Data.

(** A Unicode database with nothing beyond ASCII: enough for inputs
    written in ASCII, on which the two tables are never consulted. *)
#[global] Instance ascii_only : Unicode :=
  {| isdecimal_beyond_ascii := fun _ => false; upper_beyond_ascii := fun c => [c] |}.

Definition book (t a : string) (p : Z) (content : string) : Document :=
  {| page_content := u content;
     metadata := {| source_file := Some (u "book.pdf");
                    title := Some (u t);
                    book_title := Some (u t);
                    author := Some (u a);
                    page := Some p |} |}.

Definition doc_T_A_5 : Document := book "T" "A" 5 "Five.".
Definition doc_T_A_7 : Document := book "T" "A" 7 "Seven.".

(** The end-to-end scenario: one chunk in the store, one answer. *)
Definition capital : Document := book "Book1" "Author1" 10 "X's capital is Y.".

Definition store (k : Z) (query : str) : list Document := [capital; capital].

(** A relevance model that scores a pair by the length of its content. *)
Definition by_length (pairs : list (str * str)) : list Z :=
  map (fun p => Z.of_nat (length p.2)) pairs.

Definition engine_stream (call : LlmCall) : list chunk :=
  [Some (u "X's capital is Y. "); None; Some [];
   Some (u "[Kaynak: Book1 - Author1, Sayfa: 10]")].

(** A title that holds the separator of the tag. *)
Definition dashed : Document := book "A - B" "C" 1 "Some text.".
Definition dashed_header : str := u "[Kaynak: A - B - C, Sayfa: 1]".

(** An engine that affirms the chunk [Five.], denies the others, and one
    that fails on the chunk [Seven.]. *)
Definition engine (call : LlmCall) : result str :=
  if contains (u "Five.") (prompt call) then Ok (u " Evet. ") else Ok (u "HAYIR").

Definition failing_engine (call : LlmCall) : result str :=
  if contains (u "Seven.") (prompt call) then Raise (RuntimeError "engine")
  else Ok (u "EVET").

Definition server (query : str) : option (list Document) := Some [doc_T_A_5; doc_T_A_7].





End Examples.

(** ** Reading a book into documents ([src/data_processor.py]) *)
Module DataProcessor.
Import Py Re Data.

(** *** [config.py]: what the processor reads of the configuration, and the
    metadata of a book *)
Record AppConfig : Type := {
  CHUNK_SIZE : Z;
  CHUNK_OVERLAP : Z
}.

Definition APP_CONFIG : AppConfig := {| CHUNK_SIZE := 512%Z; CHUNK_OVERLAP := 64%Z |}.

Record DocumentMetadata : Type := {
  source_file : str;
  title : str;
  author : str
}.

(** [re.sub(pattern, repl, s, count)] with a positive [count], for a
    replacement without group references: the scan of [Re.scan], which stops
    replacing once [count] matches are replaced and copies what is left. *)
Fixpoint sub_from `{Unicode} (r : regex) (repl : str) (count : nat) (s : str)
    (skip : nat) : str :=
  match skip with
  | S n =>
    match s with
    | [] => []
    | _ :: s' => sub_from r repl count s' n
    end
  | O =>
    match count with
    | O => s
    | S count' =>
      match match_here r s with
      | Some (_, rest) =>
        repl ++
        match s with
        | [] => []
        | c :: s' =>
          match length s - length rest with
          | O => c :: sub_from r repl count' s' 0
          | S m => sub_from r repl count' s' m
          end
        end
      | None =>
        match s with
        | [] => []
        | c :: s' => c :: sub_from r repl count s' 0
        end
      end
    end
  end.

Definition sub_count `{Unicode} (r : regex) (repl : str) (s : str) (count : nat) : str :=
  sub_from r repl count s 0.

(** [re.MULTILINE], the integer 8. [_clean_text] passes it as the fourth
    positional argument of [re.sub], which is [count]. *)
Definition MULTILINE : nat := 8.

(** [r'-\n\s*'] *)
Definition hyphen_break : regex :=
  Cat (Atom (Chr 45%N)) (Cat (Atom (Chr 10%N)) (Star true Space)).

(** [s.split(sep)] for a separator of one character *)
Fixpoint split (sep : char) (s : str) : list str :=
  match s with
  | [] => [[]]
  | c :: s' =>
    if (c =? sep)%N then [] :: split sep s'
    else
      match split sep s' with
      | line :: lines => (c :: line) :: lines
      | [] => [[c]]
      end
  end.

(** The character set [[\s\-\d\.]]. *)
Definition noise_char `{Unicode} (c : char) : bool :=
  isspace c || (c =? 45)%N || isdecimal c || (c =? 46)%N.

(** [re.fullmatch(r'[\s\-\d\.]+', s)] finds a match: [s] is made of one or
    more characters of the set. *)
Definition fullmatch_noise `{Unicode} (s : str) : bool :=
  match s with
  | [] => false
  | _ => forallb noise_char s
  end.

(** [DocumentProcessor._clean_text] *)
Definition _clean_text `{Unicode} (text : str) : str :=
  match text with
  | [] => []
  | _ =>
    let text := sub_count hyphen_break [] text MULTILINE in
    let lines := split 10%N text in
    let cleaned_lines :=
      List.filter (fun line => negb (fullmatch_noise (strip line))) lines in
    let text := join (u " ") cleaned_lines in
    strip (sub (Plus Space) (u " ") text)
  end.

Section DocumentProcessor.
Context `{Unicode}.
Variable _config : AppConfig.
(** The collaborators: [nltk.sent_tokenize(text, language='turkish')] and
    [PyMuPDFLoader(path).load()]; either may raise. *)
Variable sent_tokenize : str -> result (list str).
Variable load : str -> result (list Document).

(** One turn of [for sentence in sentences], on the paragraphs closed so
    far and the paragraph being filled. *)
Definition add_sentence (state : list str * str) (sentence : str) : list str * str :=
  let '(paragraphs, current_paragraph) := state in
  match strip sentence with
  | [] => (paragraphs, current_paragraph)
  | _ =>
    if (CHUNK_SIZE _config <?
        Z.of_nat (length current_paragraph) + Z.of_nat (length sentence) + 1)%Z
    then
      (match current_paragraph with
       | [] => paragraphs
       | _ => paragraphs ++ [strip current_paragraph]
       end,
       sentence)
    else (paragraphs, current_paragraph ++ u " " ++ sentence)
  end.

(** [DocumentProcessor._create_semantic_paragraphs] *)
Definition _create_semantic_paragraphs (text : str) : list str :=
  match sent_tokenize text with
  | Raise _ =>
    match text with
    | [] => []
    | _ => [text]
    end
  | Ok sentences =>
    let '(paragraphs, current_paragraph) := foldl add_sentence ([], []) sentences in
    match current_paragraph with
    | [] => paragraphs
    | _ => paragraphs ++ [strip current_paragraph]
    end
  end.

(** The documents of one page: the body of [for page_doc in pages]. The
    metadata of each is [asdict(metadata)] with the key [page] added. *)
Definition page_documents (metadata : DocumentMetadata) (page_doc : Document)
    : list Document :=
  let page_num := (get (page (Data.metadata page_doc)) 0 + 1)%Z in
  let clean_content := _clean_text (page_content page_doc) in
  match clean_content with
  | [] => []
  | _ =>
    let logical_paragraphs := _create_semantic_paragraphs clean_content in
    let base_metadata :=
      {| Data.source_file := Some (source_file metadata);
         Data.title := Some (title metadata);
         Data.book_title := None;
         Data.author := Some (author metadata);
         Data.page := Some page_num |} in
    map (fun paragraph =>
           {| page_content := paragraph; Data.metadata := base_metadata |})
        logical_paragraphs
  end.

(** [DocumentProcessor.process_pdf]: whatever is raised on the way ends in
    [return []]. *)
Definition process_pdf (pdf_path : str) (metadata : DocumentMetadata) : list Document :=
  match load pdf_path with
  | Raise _ => []
  | Ok [] => []
  | Ok pages => flat_map (page_documents metadata) pages
  end.
End DocumentProcessor.

End DataProcessor.

(** ** The metadata of a book ([src/metadata_manager.py]) *)
Module MetadataManager.
Import Py Data DataProcessor.

(** [s.replace(old, new)] for strings of one character *)
Definition replace (old new : char) (s : str) : str :=
  map (fun c => if (c =? old)%N then new else c) s.

Section MetadataManager.
(** [str.title] of the interpreter. *)
Variable title_case : str -> str.

(** The loop [while not author] of [_create_metadata_interactively] on the
    lines that are still to be typed: a line is read, and read again as long
    as nothing is left of it once stripped, each time after the message that
    the author cannot be left empty. [None] is the [EOFError] of [input]
    when no line is left. The result is the author, the lines not read and
    the number of messages. *)
Fixpoint ask_author (lines : list str) (messages : nat) : option (str * list str * nat) :=
  match lines with
  | [] => None
  | author_input :: lines' =>
    match strip author_input with
    | [] => ask_author lines' (S messages)
    | author => Some (author, lines', messages)
    end
  end.

(** [MetadataManager._create_metadata_interactively], for the PDF of name
    [pdf_name] and stem [stem]: the metadata that is saved. *)
Definition _create_metadata_interactively (pdf_name stem : str) (lines : list str)
    : option (DocumentMetadata * list str * nat) :=
  let default_title := title_case (replace 45%N 32%N (replace 95%N 32%N stem)) in
  match lines with
  | [] => None
  | title_input :: lines =>
    let title :=
      match strip title_input with
      | [] => default_title
      | stripped => stripped
      end in
    match ask_author lines 0 with
    | None => None
    | Some (author, lines, messages) =>
      Some ({| source_file := pdf_name; title := title; author := author |},
            lines, messages)
    end
  end.
End MetadataManager.
End MetadataManager.

(** ** Keeping the library in step ([src/main.py]) *)
Module Library.
Import Py Data DataProcessor.

(** [main.py] begins with [import datetime], which binds the module: the
    module has no attribute [now], so [datetime.now()] raises. *)
Definition datetime_now : result str := Raise (AttributeError "now").

(** *** [StateManager]: the dictionary of processed files, keyed by the
    resolved path *)
Definition is_pdf_processed (pdf_path : str) (_state : gmap str str) : bool :=
  bool_decide (is_Some (_state !! pdf_path)).

(** [self._state[path] = datetime.now().isoformat()], then [_save] *)
Definition mark_pdf_as_processed (pdf_path : str) (_state : gmap str str)
    : result (gmap str str) :=
  match datetime_now with
  | Raise e => Raise e
  | Ok now => Ok (<[pdf_path := now]> _state)
  end.

(** What a synchronisation does for a file, as far as it can be seen from
    outside. *)
Inductive sync_step : Type :=
| NoMetadata (pdf_path : str)              (* warning: no metadata, skipped *)
| NoContent (pdf_path : str)               (* warning: no content, skipped *)
| AddDocuments (pdf_path : str) (enriched_docs : list Document)
                                           (* [database.add_documents] is called *)
| Marked (pdf_path : str)                  (* the line that the file was processed *)
| Critical (pdf_path : str) (e : exn).     (* [except Exception]: logged, next file *)

Section MainApplication.
(** The collaborators: the PDF files of the source directory,
    [metadata_manager.get_metadata_for_pdf], [processor.process_pdf] and
    [database.add_documents], which may raise. *)
Variable glob : list str.
Variable get_metadata_for_pdf : str -> option DocumentMetadata.
Variable process_pdf : str -> DocumentMetadata -> list Document.
Variable add_documents : list Document -> result unit.

(** The body of [for pdf_path in pdfs_to_process], with its [try]. *)
Definition sync_pdf (_state : gmap str str) (pdf_path : str)
    : gmap str str * list sync_step :=
  match get_metadata_for_pdf pdf_path with
  | None => (_state, [NoMetadata pdf_path])
  | Some metadata =>
    match process_pdf pdf_path metadata with
    | [] => (_state, [NoContent pdf_path])
    | enriched_docs =>
      match add_documents enriched_docs with
      | Raise e => (_state, [AddDocuments pdf_path enriched_docs; Critical pdf_path e])
      | Ok _ =>
        match mark_pdf_as_processed pdf_path _state with
        | Raise e => (_state, [AddDocuments pdf_path enriched_docs; Critical pdf_path e])
        | Ok _state => (_state, [AddDocuments pdf_path enriched_docs; Marked pdf_path])
        end
      end
    end
  end.

(** [MainApplication._sync_library], after the metadata is asked for and
    the models are loaded: the state it leaves and what it did. *)
Definition _sync_library (_state : gmap str str) : gmap str str * list sync_step :=
  let pdfs_to_process :=
    List.filter (fun p => negb (is_pdf_processed p _state)) glob in
  foldl (fun acc pdf_path =>
           let '(_state, steps) := sync_pdf acc.1 pdf_path in
           (_state, acc.2 ++ steps))
        (_state, []) pdfs_to_process.
End MainApplication.
End Library.

(** ** The models ([src/model_registry.py]) *)
Module Registry.
Import Py.

(** What [_load_model] can raise. *)
Inductive raised : Type :=
| ModelError (message : str)
| TypeError (callee : string) (keyword : string).

(** [ModelError(message, exc_info=True)]. [config.py] gives the class the
    constructor [__init__(self, message, *args)] of its [SystemError], which
    takes no keyword: a call with one raises [TypeError] and makes no
    [ModelError]. *)
Definition new_ModelError (message : str) (keywords : list string) : raised :=
  match keywords with
  | [] => ModelError message
  | keyword :: _ => TypeError "SystemError.__init__" keyword
  end.

Section ModelRegistry.
Context {Model : Type}.
(** [str(e)], and what each loader does when it is called. *)
Variable describe : exn -> str.
Variable load_embedding load_cross_encoder _load_llama_model : result Model.

(** The registry: the dictionary [_models] and, for the statements, the
    keys whose loader was called, in order. *)
Record registry : Type := {
  _models : gmap str Model;
  loader_calls : list str
}.

(** [ModelRegistry._load_model] *)
Definition _load_model (model_key : str) (loader_func : result Model) (r : registry)
    : (Model + raised) * registry :=
  match _models r !! model_key with
  | Some model => (inl model, r)
  | None =>
    let called :=
      {| _models := _models r; loader_calls := loader_calls r ++ [model_key] |} in
    match loader_func with
    | Ok model =>
      (inl model,
       {| _models := <[model_key := model]> (_models r);
          loader_calls := loader_calls r ++ [model_key] |})
    | Raise e =>
      (inr (new_ModelError
              (u "'" ++ model_key ++ u "' modeli yüklenemedi: " ++ describe e)
              ["exc_info"%string]),
       called)
    end
  end.

Definition get_embedding_model : registry -> (Model + raised) * registry :=
  _load_model (u "embedding") load_embedding.

Definition get_cross_encoder_model : registry -> (Model + raised) * registry :=
  _load_model (u "cross_encoder") load_cross_encoder.

Definition get_llm : registry -> (Model + raised) * registry :=
  _load_model (u "llm") _load_llama_model.

(** [ModelRegistry.load_all_models_proactively]: what it raises, if
    anything. *)
Definition load_all_models_proactively (r : registry) : option raised * registry :=
  match get_embedding_model r with
  | (inr e, r) => (Some e, r)
  | (inl _, r) =>
    match get_cross_encoder_model r with
    | (inr e, r) => (Some e, r)
    | (inl _, r) =>
      match get_llm r with
      | (inr e, r) => (Some e, r)
      | (inl _, r) => (None, r)
      end
    end
  end.
End ModelRegistry.
End Registry.

(** ** The server ([src/server/server_components.py], [src/server/server.py]) *)
Module Server.
Import Py Data.

(** *** [DocumentConverter] *)
Section DocumentConverter.
(** [advanced_text_cleanup], and the text of the pages [PyPDFLoader] reads,
    which may raise. *)
Variable advanced_text_cleanup : str -> str.
Variable load : str -> result (list str).

(** The body of [for i, page_doc in enumerate(raw_pages)] from index [i]
    on. Pages whose clean content is shorter than 50 characters are passed
    over. *)
Fixpoint convert_pages (pdf_name book_title author : str) (i : Z) (raw_pages : list str)
    : list Document :=
  match raw_pages with
  | [] => []
  | raw_content :: raw_pages =>
    let page_num := (i + 1)%Z in
    let clean_content := advanced_text_cleanup raw_content in
    let rest := convert_pages pdf_name book_title author (i + 1) raw_pages in
    match clean_content with
    | [] => rest
    | _ =>
      if (length clean_content <? 50) then rest
      else
        {| page_content := clean_content;
           metadata := {| source_file := Some pdf_name;
                          title := None;
                          book_title := Some book_title;
                          author := Some author;
                          page := Some page_num |} |} :: rest
    end
  end.

(** [DocumentConverter.convert_pdf_to_documents] *)
Definition convert_pdf_to_documents (pdf_path pdf_name book_title author : str)
    : option (list Document) :=
  match load pdf_path with
  | Raise _ => None
  | Ok raw_pages =>
    match convert_pages pdf_name book_title author 0 raw_pages with
    | [] => None
    | processed_docs => Some processed_docs
    end
  end.
End DocumentConverter.

(** *** [StateManager] *)
Record ProcessedFile : Type := {
  processed_at : str;
  file_book_title : str;
  file_author : str;
  original_filename : str
}.

Definition is_file_processed (pdf_path : str) (_state : gmap str ProcessedFile) : bool :=
  bool_decide (is_Some (_state !! pdf_path)).

Definition mark_file_as_processed (pdf_path pdf_name book_title author now : str)
    (_state : gmap str ProcessedFile) : gmap str ProcessedFile :=
  <[pdf_path := {| processed_at := now;
                   file_book_title := book_title;
                   file_author := author;
                   original_filename := pdf_name |}]> _state.

(** *** [RequestHandler.handle_sync] *)

(** What the handler shares between requests: the state of the files and
    the batches of documents handed to the database, each recorded when
    [add_documents] is called with it, whether the call returns or raises. *)
Record server : Type := {
  _state : gmap str ProcessedFile;
  added : list (list Document)
}.

(** The answer to a request: status 200 with a message, or status 500. *)
Inductive response : Type :=
| Success (message : str)
| InternalServerError.

Section RequestHandler.
(** The collaborators: the name of a path, the converter, the database and
    the clock. *)
Variable name : str -> str.
Variable convert : str -> str -> str -> str -> option (list Document).
Variable add_documents : list Document -> result unit.
Variable now : str -> str.

(** The loop [for pdf_path in all_pdfs] on the lines the operator still
    types, with the count of new files so far. [None] in place of the count
    is an exception that leaves the loop ([EOFError] of [input], or the
    database): [do_POST] answers it with status 500, and what was done
    before it stays done. *)
Fixpoint sync_files (all_pdfs : list str) (s : server) (lines : list str)
    (new_files_processed : nat) : option nat * server * list str :=
  match all_pdfs with
  | [] => (Some new_files_processed, s, lines)
  | pdf_path :: all_pdfs =>
    if is_file_processed pdf_path (_state s)
    then sync_files all_pdfs s lines new_files_processed
    else
      match lines with
      | title_line :: author_line :: lines =>
        let book_title := strip title_line in
        let author := strip author_line in
        match book_title, author with
        | [], _ => sync_files all_pdfs s lines new_files_processed
        | _, [] => sync_files all_pdfs s lines new_files_processed
        | _, _ =>
          match convert pdf_path (name pdf_path) book_title author with
          | None => sync_files all_pdfs s lines new_files_processed
          | Some [] => sync_files all_pdfs s lines new_files_processed
          | Some documents =>
            let s := {| _state := _state s; added := added s ++ [documents] |} in
            match add_documents documents with
            | Raise _ => (None, s, lines)
            | Ok _ =>
              let s :=
                {| _state :=
                     mark_file_as_processed pdf_path (name pdf_path) book_title author
                       (now pdf_path) (_state s);
                   added := added s |} in
              sync_files all_pdfs s lines (S new_files_processed)
            end
          end
        end
      | _ => (None, s, [])
      end
  end.

(** [RequestHandler.handle_sync] under [do_POST]: the answer, the server
    and the lines left. *)
Definition handle_sync (all_pdfs : list str) (s : server) (lines : list str)
    : response * server * list str :=
  match sync_files all_pdfs s lines 0 with
  | (Some O, s, lines) =>
    (Success (u "Kütüphane güncel. Yeni dosya bulunamadı."), s, lines)
  | (Some new_files_processed, s, lines) =>
    (Success (str_of_int (Z.of_nat new_files_processed)
                ++ u " yeni dosya başarıyla işlendi ve veritabanına eklendi."),
     s, lines)
  | (None, s, lines) => (InternalServerError, s, lines)
  end.
End RequestHandler.
(** *** [VectorDatabase] *)

(** The database: the chunks of the Chroma collection, in the order
    [get] lists them, the list kept in memory for the keyword retriever, and
    the documents the keyword retriever was built from ([None] when there is
    none). *)
Record VectorDatabase : Type := {
  _db : list Document;
  _all_docs_in_memory : list Document;
  _bm25_retriever : option (list Document)
}.

(** What [get_retriever] returns: the vector retriever of the collection
    alone, or the ensemble of a keyword retriever over [corpus] and the
    vector retriever, with equal weights. *)
Inductive retriever : Type :=
| VectorOnly
| Ensemble (corpus : list Document).

Section VectorDatabase.
(** [self._text_splitter.split_documents] *)
Variable split_documents : list Document -> list Document.

(** [VectorDatabase._rebuild_bm25_retriever] *)
Definition _rebuild_bm25_retriever (v : VectorDatabase) : VectorDatabase :=
  match _all_docs_in_memory v with
  | [] =>
    {| _db := _db v; _all_docs_in_memory := _all_docs_in_memory v;
       _bm25_retriever := None |}
  | docs =>
    {| _db := _db v; _all_docs_in_memory := _all_docs_in_memory v;
       _bm25_retriever := Some docs |}
  end.

(** [VectorDatabase._initialize] on a persist directory that holds the
    chunks [stored] *)
Definition _initialize (stored : list Document) (v : VectorDatabase) : VectorDatabase :=
  match stored with
  | [] =>
    {| _db := stored; _all_docs_in_memory := _all_docs_in_memory v;
       _bm25_retriever := _bm25_retriever v |}
  | _ =>
    _rebuild_bm25_retriever
      {| _db := stored; _all_docs_in_memory := stored;
         _bm25_retriever := _bm25_retriever v |}
  end.

(** [VectorDatabase.__init__] *)
Definition new (stored : list Document) : VectorDatabase :=
  _initialize stored
    {| _db := []; _all_docs_in_memory := []; _bm25_retriever := None |}.

(** [VectorDatabase.add_documents] *)
Definition add_documents (documents : list Document) (v : VectorDatabase)
    : VectorDatabase :=
  match documents with
  | [] => v
  | _ =>
    let chunks := split_documents documents in
    match chunks with
    | [] => v
    | _ =>
      _rebuild_bm25_retriever
        {| _db := _db v ++ chunks;
           _all_docs_in_memory := _all_docs_in_memory v ++ chunks;
           _bm25_retriever := _bm25_retriever v |}
    end
  end.

(** [VectorDatabase.rebuild]: the directory is removed, so the collection
    that is opened again is empty. *)
Definition rebuild (v : VectorDatabase) : VectorDatabase :=
  _initialize []
    {| _db := _db v; _all_docs_in_memory := []; _bm25_retriever := None |}.

(** [VectorDatabase.get_retriever] *)
Definition get_retriever (v : VectorDatabase) : retriever :=
  match _bm25_retriever v with
  | None => VectorOnly
  | Some corpus => Ensemble corpus
  end.

(** [VectorDatabase.count] *)
Definition count (v : VectorDatabase) : nat := length (_db v).

(** The calls a database receives after it is made. *)
Inductive call : Type :=
| AddDocuments (documents : list Document)
| Rebuild.

Definition perform (v : VectorDatabase) (c : call) : VectorDatabase :=
  match c with
  | AddDocuments documents => add_documents documents v
  | Rebuild => rebuild v
  end.
End VectorDatabase.

End Server.

(** ** Notions the statements about ingestion and the server use *)
Module Shape.
Import Py.

(** A character that is not whitespace. *)
Definition nonspace (c : char) : bool := negb (isspace c).

(** A sentence the paragraph loop passes over: nothing is left of it once
    stripped. *)
Definition blank (s : str) : bool :=
  match strip s with
  | [] => true
  | _ => false
  end.

(** The paragraph a run of sentences makes: the sentences joined by single
    spaces, stripped. *)
Definition paragraph_of (sentences : list str) : str := strip (join (u " ") sentences).

(** A word: one character or more, none of them whitespace. *)
Definition word (w : str) : Prop := w <> [] /\ Forall (fun c => isspace c = false) w.

(** The paragraph being filled holds the run [g] of sentences: they are
    joined by single spaces, after one space at most. *)
Definition filling (cur : str) (g : list str) : Prop :=
  (g = [] /\ cur = []) \/
  (g <> [] /\ (cur = join (u " ") g \/ cur = u " " ++ join (u " ") g)).

(** A paragraph fits the chunk size, or it is one sentence on its own. *)
Definition fits (chunk_size : Z) (sentences : list str) (p : str) : Prop :=
  (Z.of_nat (length p) <= chunk_size)%Z \/ exists s, In s sentences /\ p = strip s.

(** The keyword retriever of the server's database is built from the
    chunks of its collection. *)
Definition in_step (v : Server.VectorDatabase) : Prop :=
  Server._all_docs_in_memory v = Server._db v /\
  Server._bm25_retriever v =
    match Server._db v with
    | [] => None
    | chunks => Some chunks
    end.
End Shape.

(** ** Concrete inputs for ingestion *)
Module IngestExamples.
Import Py Re Data DataProcessor.

(** A small chunk size, so that short sentences fill a paragraph. *)
Definition small : AppConfig := {| CHUNK_SIZE := 16%Z; CHUNK_OVERLAP := 0%Z |}.

Definition sentences : list str :=
  [u "One."; u " Two two."; u "  "; u "A sentence longer than sixteen."; u "End."].

(** A tokenizer that answers with [sentences], and one that fails. *)
Definition tokenizer (text : str) : result (list str) := Ok sentences.

Definition failing_tokenizer (text : str) : result (list str) :=
  Raise (RuntimeError "punkt").

Definition the_book : DocumentMetadata :=
  {| source_file := u "book.pdf"; title := u "T"; author := u "A" |}.

Definition page_of (index : Z) (content : str) : Document :=
  {| page_content := content;
     Data.metadata := {| Data.source_file := None; Data.title := None;
                         Data.book_title := None; Data.author := None;
                         Data.page := Some index |} |}.

(** A page of text and a page that holds nothing but its number. *)
Definition text_page : Document :=
  page_of 0 (u "Chap-" ++ NEWLINE ++ u "ter one.   It begins." ++ NEWLINE ++ u " 12 ").

Definition number_page : Document := page_of 1 (u "  - 13 -" ++ NEWLINE).

Definition loader (pdf_path : str) : result (list Document) := Ok [text_page; number_page].

(** The one document of [text_page] when the tokenizer fails. *)
Definition first_document : Document :=
  {| page_content := u "Chapter one. It begins.";
     Data.metadata := {| Data.source_file := Some (u "book.pdf");
                         Data.title := Some (u "T");
                         Data.book_title := None;
                         Data.author := Some (u "A");
                         Data.page := Some 1%Z |} |}.
End IngestExamples.

(** ** Concrete inputs for the server *)
Module ServerExamples.
Import Py Data Server.

Definition long_page : str := replicate 50 97%N.

(** A PDF of three pages, the second too short to be kept. *)
Definition loader (pdf_path : str) : result (list str) :=
  Ok [long_page; u "short"; long_page].

Definition page_doc (n : Z) : Document :=
  {| page_content := long_page;
     metadata := {| source_file := Some (u "b.pdf"); title := None;
                    book_title := Some (u "T"); author := Some (u "A");
                    page := Some n |} |}.

Definition convert (pdf_path pdf_name book_title author : str) : option (list Document) :=
  Some [page_doc 1].

Definition database (documents : list Document) : result unit := Ok tt.

Definition clock (pdf_path : str) : str := u "2024".

Definition fresh : server := {| _state := ∅; added := [] |}.

(** The server after the file [b] was processed under the title [T] and
    the author [A]. *)
Definition synced : server :=
  {| _state := {[ u "b" := {| processed_at := u "2024";
                              file_book_title := u "T";
                              file_author := u "A";
                              original_filename := u "b.pdf" |} ]};
     added := [[page_doc 1]] |}.

(** A converter that makes one page under the title and the author it is
    given, and a database that refuses the books of the author [B]. *)
Definition one_page (pdf_name book_title author : str) : list Document :=
  [{| page_content := long_page;
      metadata := {| source_file := Some pdf_name; title := None;
                     book_title := Some book_title; author := Some author;
                     page := Some 1%Z |} |}].

Definition convert_as_given (pdf_path pdf_name book_title author : str)
    : option (list Document) :=
  Some (one_page pdf_name book_title author).

Definition picky_database (documents : list Document) : result unit :=
  match documents with
  | doc :: _ =>
    if decide (author (metadata doc) = Some (u "B"))
    then Raise (RuntimeError "database") else Ok tt
  | [] => Ok tt
  end.

(** The server after the file [b] was processed under the title [T] and
    the author [A], and the batch of the file [c], of the author [B], was
    refused. *)
Definition half_synced : server :=
  {| _state := {[ u "b" := {| processed_at := u "2024";
                              file_book_title := u "T";
                              file_author := u "A";
                              original_filename := u "b.pdf" |} ]};
     added := [one_page (u "b.pdf") (u "T") (u "A");
               one_page (u "c.pdf") (u "U") (u "B")] |}.
End ServerExamples.


(* ===================================================================== *)
(** * Part II: theorems                                                    *)
(* ===================================================================== *)

Set Warnings "-clear-no-such-hyp".

(** ** The reranker *)
Module SortFacts.
Import Py Re Data Spec.
Section Shape.
Context {E S : Type} (ltb : S -> S -> bool) (key : E -> S).

(** The sort permutes its input. *)
Lemma insert_reverse_perm (x : E) l :
  Permutation (insert_reverse ltb key x l) (x :: l).
Proof.
  induction l as [|y l IH]; simpl; [done|].
  destruct (ltb (key x) (key y)); [|done].
  rewrite IH. apply perm_swap.
Qed.

Lemma sort_reverse_perm (l : list E) : Permutation (sort_reverse ltb key l) l.
Proof.
  induction l as [|x l IH]; simpl; [done|].
  by rewrite insert_reverse_perm, IH.
Qed.

Lemma sort_reverse_length (l : list E) : length (sort_reverse ltb key l) = length l.
Proof. apply Permutation_length, sort_reverse_perm. Qed.

(** The sort looks at keys only: it commutes with a map that keeps them. *)
Lemma insert_reverse_map {T} (f : T -> E) x l :
  insert_reverse ltb key (f x) (map f l) =
  map f (insert_reverse ltb (fun t => key (f t)) x l).
Proof.
  induction l as [|y l IH]; simpl; [done|].
  destruct (ltb (key (f x)) (key (f y))); simpl; [by rewrite IH|done].
Qed.

Lemma sort_reverse_map {T} (f : T -> E) l :
  sort_reverse ltb key (map f l) = map f (sort_reverse ltb (fun t => key (f t)) l).
Proof.
  induction l as [|x l IH]; simpl; [done|].
  by rewrite IH, insert_reverse_map.
Qed.

End Shape.

Section Order.
Context {E S : Type} (ltb : S -> S -> bool) (key : E -> S).
Hypothesis ltb_irrefl : forall a, ltb a a = false.
Hypothesis ltb_trans : forall a b c, ltb a b = true -> ltb b c = true -> ltb a c = true.
Hypothesis ltb_negtrans :
  forall a b c, ltb a b = false -> ltb b c = false -> ltb a c = false.

Lemma ltb_asym a b : ltb a b = true -> ltb b a = false.
Proof.
  intros Hab. destruct (ltb b a) eqn:Hba; [|done].
  pose proof (ltb_irrefl a) as Hi. by rewrite (ltb_trans _ _ _ Hab Hba) in Hi.
Qed.

(** Inserting an element that came before all of [l] keeps the ranking
    order, ties included: the sort is stable. *)
Lemma insert_reverse_sorted (x : nat * E) l :
  StronglySorted (tagged_before ltb key) l ->
  Forall (fun y => x.1 < y.1) l ->
  StronglySorted (tagged_before ltb key) (insert_reverse ltb (fun t => key t.2) x l).
Proof.
  induction l as [|y l IH]; simpl; intros Hs Hx.
  - repeat constructor.
  - apply StronglySorted_inv in Hs as [Hs Hy].
    apply Forall_cons in Hx as [Hxy Hx].
    destruct (ltb (key x.2) (key y.2)) eqn:Hlt.
    + constructor; [by apply IH|].
      rewrite (insert_reverse_perm _ _ x l). constructor; [|done].
      split; simpl; [by apply ltb_asym|congruence].
    + constructor; [by constructor|].
      constructor; [by split|].
      rewrite List.Forall_forall in Hy, Hx. apply List.Forall_forall. intros z Hz.
      destruct (Hy z Hz) as [Hyz _]. simpl in Hyz.
      split; simpl; [by eapply ltb_negtrans|]. intros _. by apply Hx.
Qed.

Lemma sort_reverse_sorted (l : list (nat * E)) :
  StronglySorted lt (map fst l) ->
  StronglySorted (tagged_before ltb key) (sort_reverse ltb (fun t => key t.2) l).
Proof.
  induction l as [|x l IH]; simpl; intros Hs; [constructor|].
  apply StronglySorted_inv in Hs as [Hs Hx].
  apply insert_reverse_sorted; [by apply IH|].
  rewrite (sort_reverse_perm _ _ l).
  apply List.Forall_forall. intros y Hy.
  rewrite List.Forall_forall in Hx. apply Hx, in_map_iff. by exists y.
Qed.
End Order.

Section Top.
Context {E S A : Type} (ltb : S -> S -> bool) (key : E -> S) (val : E -> A).
Hypothesis ltb_irrefl : forall a, ltb a a = false.
Hypothesis ltb_trans : forall a b c, ltb a b = true -> ltb b c = true -> ltb a c = true.
Hypothesis ltb_negtrans :
  forall a b c, ltb a b = false -> ltb b c = false -> ltb a c = false.

Lemma in_combine_seq (l : list E) n i e :
  In (i, e) (combine (seq n (length l)) l) <-> n <= i /\ l !! (i - n) = Some e.
Proof.
  revert n. induction l as [|x l IH]; intros n; simpl.
  - split; [done|]. by intros [_ ?].
  - rewrite IH. split.
    + intros [[= <- <-]|[Hn Hl]].
      * by rewrite Nat.sub_diag.
      * split; [lia|]. by replace (i - n) with (Datatypes.S (i - Datatypes.S n)) by lia.
    + intros [Hn Hl]. destruct (decide (i = n)) as [->|Hne].
      * rewrite Nat.sub_diag in Hl. simpl in Hl. left. congruence.
      * right. split; [lia|].
        by replace (i - n) with (Datatypes.S (i - Datatypes.S n)) in Hl by lia.
Qed.

Lemma in_tag (l : list E) i e : In (i, e) (tag l) <-> l !! i = Some e.
Proof.
  unfold tag. rewrite in_combine_seq, Nat.sub_0_r. split; [by intros [_ ?]|].
  intros ?. split; [lia|done].
Qed.

Lemma map_fst_tag (l : list E) : map fst (tag l) = seq 0 (length l).
Proof.
  unfold tag. generalize 0. induction l as [|x l IH]; intros n; simpl; [done|].
  by rewrite IH.
Qed.

Lemma map_snd_tag (l : list E) : map snd (tag l) = l.
Proof.
  unfold tag. generalize 0. induction l as [|x l IH]; intros n; simpl; [done|].
  by rewrite IH.
Qed.

Lemma seq_sorted n m : StronglySorted lt (seq n m).
Proof.
  revert n. induction m as [|m IH]; intros n; simpl; constructor; [apply IH|].
  apply List.Forall_forall. intros i Hi. apply in_seq in Hi. lia.
Qed.

Lemma lookup_map {X Y} (f : X -> Y) (l : list X) i :
  map f l !! i = f <$> (l !! i).
Proof.
  revert i. induction l as [|x l IH]; intros [|i]; simpl; try done.
Qed.

Lemma sorted_app_inv {X} (R : X -> X -> Prop) l1 l2 :
  StronglySorted R (l1 ++ l2) ->
  StronglySorted R l1 /\ forall x y, In x l1 -> In y l2 -> R x y.
Proof.
  induction l1 as [|a l1 IH]; simpl; intros Hs.
  - split; [constructor|]. by intros ? ? [].
  - apply StronglySorted_inv in Hs as [Hs Ha].
    destruct (IH Hs) as [Hs1 Hcross].
    rewrite List.Forall_forall in Ha. split.
    + constructor; [done|]. apply List.Forall_forall. intros x Hx.
      apply Ha, in_or_app. by left.
    + intros x y [<-|Hx] Hy; [|by apply Hcross].
      apply Ha, in_or_app. by right.
Qed.

Lemma sorted_map {X Y} (R : X -> X -> Prop) (R' : Y -> Y -> Prop) (f : X -> Y) l :
  (forall x y, In x l -> In y l -> R x y -> R' (f x) (f y)) ->
  StronglySorted R l -> StronglySorted R' (map f l).
Proof.
  induction l as [|a l IH]; simpl; intros Hf Hs; [constructor|].
  apply StronglySorted_inv in Hs as [Hs Ha]. constructor.
  - apply IH; [|done]. intros x y Hx Hy. apply Hf; by right.
  - rewrite List.Forall_forall in Ha. apply List.Forall_forall.
    intros y' Hy'. apply in_map_iff in Hy' as (y & <- & Hy).
    apply Hf; [by left|by right|by apply Ha].
Qed.

(** The first [k] of the sorted list are the [k] best of the input, best
    first, each taken once. *)
Lemma take_sort_top_ranked (l : list E) (k : nat) :
  top_ranked ltb k (map key l) (map val l)
    (map val (take k (sort_reverse ltb key l))).
Proof.
  set (sorted := sort_reverse ltb (fun t : nat * E => key t.2) (tag l)).
  assert (Hperm : Permutation sorted (tag l)) by apply sort_reverse_perm.
  assert (Hsort : StronglySorted (tagged_before ltb key) sorted).
  { apply sort_reverse_sorted; try done. rewrite map_fst_tag. apply seq_sorted. }
  assert (Heq : sort_reverse ltb key l = map snd sorted).
  { unfold sorted. rewrite <- (sort_reverse_map ltb key snd), map_snd_tag. done. }
  assert (Hin : forall x, In x sorted -> l !! x.1 = Some x.2).
  { intros [i e] Hx. apply in_tag. by rewrite <- Hperm. }
  assert (Hintake : forall x, In x (take k sorted) -> In x sorted).
  { intros x Hx. rewrite <- (take_drop k sorted). apply in_or_app. by left. }
  rewrite Heq, firstn_map, map_map.
  exists (map fst (take k sorted)). unfold selects. split_and!.
  - rewrite <- firstn_map. apply (sublist_NoDup _ (map fst sorted)); [|apply sublist_take].
    rewrite Hperm, map_fst_tag. apply NoDup_seq.
  - induction (take k sorted) as [|x t IH]; simpl; constructor.
    + rewrite lookup_map, (Hin x); [done|]. apply Hintake. by left.
    + apply IH. intros y Hy. apply Hintake. by right.
  - rewrite <- (take_drop k sorted) in Hsort.
    apply sorted_app_inv in Hsort as [Hsort _].
    eapply sorted_map; [|exact Hsort].
    intros x y Hx Hy HR. exists (key x.2), (key y.2).
    rewrite !lookup_map, (Hin x), (Hin y) by auto. done.
  - rewrite !length_map, length_take. unfold sorted.
    rewrite sort_reverse_length. unfold tag.
    rewrite length_combine, length_seq. lia.
  - intros i j a b Hi Hj Ha Hb.
    rewrite lookup_map in Ha, Hb.
    apply list_elem_of_In, in_map_iff in Hi as (x & <- & Hx).
    rewrite (Hin x) in Ha by auto. injection Ha as <-.
    destruct (l !! j) as [e|] eqn:He; [|done]. injection Hb as <-.
    assert (Hje : In (j, e) (drop k sorted)).
    { apply in_tag in He. rewrite <- Hperm, <- (take_drop k sorted) in He.
      apply in_app_or in He as [He|He]; [|done].
      exfalso. apply Hj, list_elem_of_In, in_map_iff. by exists (j, e). }
    rewrite <- (take_drop k sorted) in Hsort.
    apply sorted_app_inv in Hsort as [_ Hcross].
    apply (Hcross x (j, e) Hx Hje).
Qed.
End Top.

Lemma top_ranked_refinement {S A} (ltb : S -> S -> bool) n scores (docs out : list A) :
  top_ranked ltb n scores docs out -> refinement ltb n scores docs out.
Proof. intros (idx & Hsel & Hlen & _). exists idx. split; [done|lia]. Qed.

Lemma refinement_nil {S A} (ltb : S -> S -> bool) n scores (docs : list A) :
  refinement ltb n scores docs [].
Proof.
  exists []. split; [|simpl; lia]. split_and!; constructor.
Qed.

Lemma top_ranked_nil {S A} (ltb : S -> S -> bool) n scores :
  top_ranked ltb n scores (@nil A) [].
Proof.
  exists []. split_and!.
  - split_and!; constructor.
  - simpl. by rewrite Nat.min_0_r.
  - by intros ? ? ? ? ?%elem_of_nil.
Qed.

Lemma map_fst_combine {X Y} (a : list X) (b : list Y) :
  length a = length b -> map fst (combine a b) = a.
Proof.
  revert b. induction a as [|x a IH]; intros [|y b] Hlen; simpl in *; try done.
  f_equal. apply IH. lia.
Qed.

Lemma map_snd_combine {X Y} (a : list X) (b : list Y) :
  length a = length b -> map snd (combine a b) = b.
Proof.
  revert b. induction a as [|x a IH]; intros [|y b] Hlen; simpl in *; try done.
  f_equal. apply IH. lia.
Qed.

Lemma slice_to_nonneg {X} (n : Z) (l : list X) :
  (0 <= n)%Z -> slice_to n l = take (Z.to_nat n) l.
Proof. intros Hn. unfold slice_to. by rewrite (proj2 (Z.ltb_ge n 0) Hn). Qed.


Section RerankFacts.
Context {S : Type} (ltb : S -> S -> bool).
Variable predict : list (str * str) -> list S.
Hypothesis ltb_irrefl : forall a, ltb a a = false.
Hypothesis ltb_trans : forall a b c, ltb a b = true -> ltb b c = true -> ltb a c = true.
Hypothesis ltb_negtrans :
  forall a b c, ltb a b = false -> ltb b c = false -> ltb a c = false.
Hypothesis predict_length : forall pairs, length (predict pairs) = length pairs.

#[local] Abbreviation scores_of := (scores_of predict).

Lemma scores_of_length query docs : length (scores_of query docs) = length docs.
Proof. unfold scores_of. by rewrite predict_length, length_map. Qed.

Lemma monolith_rerank_top cfg query docs :
  (0 <= Monolith.RERANKER_TOP_N cfg)%Z -> query <> [] ->
  top_ranked ltb (Z.to_nat (Monolith.RERANKER_TOP_N cfg)) (scores_of query docs) docs
    (Monolith.rerank ltb cfg predict query docs).
Proof.
  intros Hn Hq. unfold Monolith.rerank.
  destruct docs as [|d docs].
  { apply top_ranked_nil. }
  destruct query as [|c query]; [done|].
  rewrite slice_to_nonneg by done.
  pose proof (scores_of_length (c :: query) (d :: docs)) as Hlen.
  fold (scores_of (c :: query) (d :: docs)).
  pose proof (take_sort_top_ranked ltb fst snd ltb_irrefl ltb_trans ltb_negtrans
    (combine (scores_of (c :: query) (d :: docs)) (d :: docs))
    (Z.to_nat (Monolith.RERANKER_TOP_N cfg))) as Htop.
  by rewrite map_fst_combine, map_snd_combine in Htop.
Qed.

Lemma client_rerank_top cfg query docs :
  (0 <= Client.RERANKER_N cfg)%Z ->
  top_ranked ltb (Z.to_nat (Client.RERANKER_N cfg)) (scores_of query docs) docs
    (Client._rerank_documents ltb cfg predict query docs).
Proof.
  intros Hn. unfold Client._rerank_documents.
  destruct docs as [|d docs].
  { apply top_ranked_nil. }
  rewrite slice_to_nonneg by done.
  pose proof (scores_of_length query (d :: docs)) as Hlen.
  fold (scores_of query (d :: docs)).
  pose proof (take_sort_top_ranked ltb snd fst ltb_irrefl ltb_trans ltb_negtrans
    (combine (d :: docs) (scores_of query (d :: docs)))
    (Z.to_nat (Client.RERANKER_N cfg))) as Htop.
  by rewrite map_fst_combine, map_snd_combine in Htop.
Qed.

(** C2. The reranker is a refinement. For scores compared by a strict weak
    order, a relevance model that scores every pair, and a top-N that is
    not negative: the result of [ReRanker.rerank] selects positions of the
    input, each at most once, in descending order of score with ties in
    input order, and at most top-N of them; for a query that is not empty
    they are the top-N best of the input; no candidates give no documents.
    [RAGCore._rerank_documents] of the client does the same for every
    query. *)
Theorem rerank_is_refinement cfg ccfg query docs :
  (0 <= Monolith.RERANKER_TOP_N cfg)%Z ->
  (0 <= Client.RERANKER_N ccfg)%Z ->
  let scores := scores_of query docs in
  let top_n := Z.to_nat (Monolith.RERANKER_TOP_N cfg) in
  refinement ltb top_n scores docs (Monolith.rerank ltb cfg predict query docs) /\
  (query <> [] ->
   top_ranked ltb top_n scores docs (Monolith.rerank ltb cfg predict query docs)) /\
  Monolith.rerank ltb cfg predict query [] = [] /\
  top_ranked ltb (Z.to_nat (Client.RERANKER_N ccfg)) scores docs
    (Client._rerank_documents ltb ccfg predict query docs) /\
  Client._rerank_documents ltb ccfg predict query [] = [].
Proof.
  intros Hn Hc scores top_n. split_and!.
  - destruct query as [|c query].
    + replace (Monolith.rerank ltb cfg predict [] docs) with (@nil Document)
        by (by destruct docs).
      apply refinement_nil.
    + by apply top_ranked_refinement, monolith_rerank_top.
  - intros Hq. by apply monolith_rerank_top.
  - done.
  - by apply client_rerank_top.
  - done.
Qed.
End RerankFacts.

(** C2, on three candidates scored by the length of their content. *)
Lemma rerank_is_refinement_witness :
  top_ranked Z.ltb 5
    (Examples.by_length
       (map (fun doc => (u "capital", page_content doc))
          [Examples.doc_T_A_5; Examples.capital; Examples.doc_T_A_7]))
    [Examples.doc_T_A_5; Examples.capital; Examples.doc_T_A_7]
    (Monolith.rerank Z.ltb Monolith.APP_CONFIG Examples.by_length (u "capital")
       [Examples.doc_T_A_5; Examples.capital; Examples.doc_T_A_7]) /\
  Monolith.rerank Z.ltb Monolith.APP_CONFIG Examples.by_length (u "capital")
    [Examples.doc_T_A_5; Examples.capital; Examples.doc_T_A_7] =
    [Examples.capital; Examples.doc_T_A_7; Examples.doc_T_A_5].
Proof.
  split; [|by vm_compute].
  assert (Hirrefl : forall a, Z.ltb a a = false) by apply Z.ltb_irrefl.
  assert (Htrans : forall a b c,
    Z.ltb a b = true -> Z.ltb b c = true -> Z.ltb a c = true)
    by (intros a b c; rewrite !Z.ltb_lt; lia).
  assert (Hneg : forall a b c,
    Z.ltb a b = false -> Z.ltb b c = false -> Z.ltb a c = false)
    by (intros a b c; rewrite !Z.ltb_ge; lia).
  assert (Hlen : forall pairs, length (Examples.by_length pairs) = length pairs)
    by (intros pairs; apply length_map).
  destruct (rerank_is_refinement Z.ltb Examples.by_length Hirrefl Htrans Hneg Hlen
    Monolith.APP_CONFIG Client.config (u "capital")
    [Examples.doc_T_A_5; Examples.capital; Examples.doc_T_A_7])
    as (_ & Htop & _); [by vm_compute|by vm_compute|].
  apply Htop. by vm_compute.
Defined.
End SortFacts.

(** ** The stream of a query *)
Module StreamFacts.
Import Py Re Data Spec Monolith.

Lemma next_token_None stream :
  next_token stream = None -> fragments stream = [].
Proof.
  unfold fragments. induction stream as [|c stream IH]; simpl; [done|].
  by destruct c as [[|a t]|].
Qed.

Lemma next_token_Some stream token rest :
  next_token stream = Some (token, rest) ->
  fragments stream = token :: fragments rest /\ length rest < length stream.
Proof.
  unfold fragments. induction stream as [|c stream IH]; simpl; [done|].
  destruct c as [[|a t]|]; simpl.
  - intros Hn. destruct (IH Hn) as [-> Hlen]. split; [done|lia].
  - intros [= <- <-]. split; [done|lia].
  - intros Hn. destruct (IH Hn) as [-> Hlen]. split; [done|lia].
Qed.

Section Stream.
Context `{Unicode} {S : Type} (ltb : S -> S -> bool).
Variable _config : AppConfig.
Variable retriever_invoke : Z -> str -> list Document.
Variable predict : list (str * str) -> list S.
Variable _llm : LlmCall -> list chunk.

#[local] Abbreviation resume := (resume ltb _config retriever_invoke predict _llm).
#[local] Abbreviation iterate := (iterate ltb _config retriever_invoke predict _llm).
#[local] Abbreviation for_each := (for_each ltb _config retriever_invoke predict _llm).
#[local] Abbreviation generation_call := (generation_call _config).
#[local] Abbreviation reranked := (evidence ltb _config retriever_invoke predict).
#[local] Abbreviation _handle_query :=
  (_handle_query ltb _config retriever_invoke predict _llm).

(** The loop over the tokens runs to the end of the stream. *)
Lemma iterate_tokens fuel rest log :
  length rest < fuel ->
  iterate fuel (AtYieldToken rest) log = (map YToken (fragments rest), Finished, log).
Proof.
  revert rest log. induction fuel as [|fuel IH]; intros rest log Hlen; [lia|].
  simpl. unfold resume_loop.
  destruct (next_token rest) as [[token rest']|] eqn:Hn.
  - apply next_token_Some in Hn as [-> Hlt].
    rewrite IH by lia. done.
  - by rewrite (next_token_None _ Hn).
Qed.

Lemma iterate_after_docs fuel user_query reranked_docs log :
  length (_llm (generation_call user_query reranked_docs)) < fuel ->
  iterate fuel (AtYieldDocs user_query reranked_docs) log =
  (map YToken (fragments (_llm (generation_call user_query reranked_docs))),
   Finished, log ++ [Generate (generation_call user_query reranked_docs)]).
Proof.
  intros Hlen. rewrite <- (iterate_tokens fuel _ _ Hlen).
  destruct fuel as [|fuel]; [lia|]. done.
Qed.

Lemma resume_start user_query :
  resume (AtStart user_query) [] =
  (Some (YDocs (reranked user_query)),
   match reranked user_query with
   | [] => AtYieldEmpty
   | _ => AtYieldDocs user_query (reranked user_query)
   end,
   [Retrieve user_query]).
Proof.
  unfold evidence. simpl.
  destruct (unique _) as [|d ds] eqn:Hu; [done|].
  by destruct (rerank _ _ _ _ _).
Qed.

Lemma for_each_start user_query :
  for_each (AtStart user_query) [] =
  match reranked user_query with
  | [] => ([YDocs []], Finished, [Retrieve user_query])
  | reranked_docs =>
    (YDocs reranked_docs ::
       map YToken (fragments (_llm (generation_call user_query reranked_docs))),
     Finished,
     [Retrieve user_query; Generate (generation_call user_query reranked_docs)])
  end.
Proof.
  unfold Monolith.for_each, budget. fold (reranked user_query).
  change (iterate (3 + ?n) ?fr ?log) with
    (match resume fr log with
     | (Some y, fr', log') =>
       let '(ys, fr'', log'') := iterate (2 + n) fr' log' in (y :: ys, fr'', log'')
     | (None, fr', log') => ([], fr', log')
     end).
  rewrite resume_start.
  destruct (reranked user_query) as [|d ds] eqn:Hr; [done|].
  rewrite iterate_after_docs by lia. done.
Qed.

Lemma accumulate_tokens final_answer tokens :
  accumulate final_answer (map YToken tokens) = Some (final_answer ++ concat tokens).
Proof.
  revert final_answer. induction tokens as [|t tokens IH]; intros final_answer; simpl.
  - by rewrite app_nil_r.
  - by rewrite IH, app_assoc.
Qed.

(** A query, from the question to the presentation. *)
Lemma handle_query_eq user_query :
  _handle_query user_query =
  match reranked user_query with
  | [] => (NoDocuments, [Retrieve user_query])
  | source_docs =>
    let call := generation_call user_query source_docs in
    let final_answer := concat (fragments (_llm call)) in
    (match verify_and_present final_answer source_docs with
     | (Ok _, blocks) => Presented final_answer source_docs blocks
     | (Raise _, _) => Failed
     end,
     [Retrieve user_query; Generate call; Verify final_answer source_docs])
  end.
Proof.
  unfold Monolith._handle_query, stream_query_response. rewrite resume_start.
  destruct (reranked user_query) as [|d ds] eqn:Hr; [done|].
  unfold Monolith.for_each, budget.
  rewrite iterate_after_docs by lia. rewrite accumulate_tokens. cbn [app].
  by destruct (verify_and_present _ _) as [[[]|e] blocks].
Qed.

(** C3. The two-phase stream. The first [next()] of the stream of a query
    yields the evidence bundle, the unique retrieved documents reranked,
    having called the document store and not the generation engine. When
    the bundle is empty the whole stream is that one empty list and the
    engine is never called; otherwise the items after the bundle are the
    fragments of the completion, in generation order, and the engine is
    called once. The stream ends, and a finished stream stays finished. *)
Theorem two_phase_stream user_query :
  let source_docs := reranked user_query in
  let call := generation_call user_query source_docs in
  resume (stream_query_response user_query) [] =
    (Some (YDocs source_docs),
     match source_docs with
     | [] => AtYieldEmpty
     | _ => AtYieldDocs user_query source_docs
     end,
     [Retrieve user_query]) /\
  for_each (stream_query_response user_query) [] =
    match source_docs with
    | [] => ([YDocs []], Finished, [Retrieve user_query])
    | _ =>
      (YDocs source_docs :: map YToken (fragments (_llm call)),
       Finished,
       [Retrieve user_query; Generate call])
    end /\
  resume Finished [] = (None, Finished, []).
Proof.
  intros source_docs call. split_and!.
  - apply resume_start.
  - unfold stream_query_response. rewrite for_each_start.
    subst source_docs call. by destruct (reranked user_query).
  - done.
Qed.
End Stream.
End StreamFacts.

(** ** Removing duplicates *)
Module DictFacts.
Import Py.
Section Dict.
Context {K V : Type} `{EqDecision K}.

Lemma dict_set_keys_old (k : K) (v : V) d :
  In k (map fst d) -> map fst (dict_set k v d) = map fst d.
Proof.
  induction d as [|[k' v'] d IH]; simpl; [done|].
  destruct (decide (k = k')) as [->|Hne]; simpl; [done|].
  intros [?|Hin]; [congruence|]. by rewrite IH.
Qed.

Lemma dict_set_keys_new (k : K) (v : V) d :
  ~ In k (map fst d) -> map fst (dict_set k v d) = map fst d ++ [k].
Proof.
  induction d as [|[k' v'] d IH]; simpl; [done|].
  destruct (decide (k = k')) as [->|Hne]; simpl; [tauto|].
  intros Hnin. rewrite IH; tauto.
Qed.

Lemma NoDup_snoc {X} (l : list X) x :
  List.NoDup l -> ~ In x l -> List.NoDup (l ++ [x]).
Proof.
  induction l as [|y l IH]; simpl; intros Hl Hx.
  - repeat constructor. by intros [].
  - apply List.NoDup_cons_iff in Hl as [Hy Hl]. constructor.
    + rewrite in_app_iff. simpl. intros [?|[<-|[]]]; tauto.
    + apply IH; tauto.
Qed.

Lemma dict_set_entries (k k' : K) (v v' : V) d :
  In (k', v') (dict_set k v d) -> (k' = k /\ v' = v) \/ In (k', v') d.
Proof.
  induction d as [|[k0 v0] d IH]; simpl.
  - intros [[= <- <-]|[]]. by left.
  - destruct (decide (k = k0)) as [->|Hne]; simpl.
    + intros [[= <- <-]|Hin]; [by left|by right; right].
    + intros [Heq|Hin]; [by right; left|].
      destruct (IH Hin) as [?|?]; [by left|by right; right].
Qed.

(** A dictionary comprehension over [l]: one entry per distinct key, and
    every entry is an element of [l] under its own key. *)
Lemma comprehension_spec (key : V -> K) l d :
  List.NoDup (map fst d) ->
  List.NoDup (map fst (dict_comprehension key l d)) /\
  (forall k, In k (map fst (dict_comprehension key l d)) <->
             In k (map fst d) \/ In k (map key l)) /\
  (forall k v, In (k, v) (dict_comprehension key l d) ->
               In (k, v) d \/ (In v l /\ key v = k)).
Proof.
  unfold dict_comprehension. revert d.
  induction l as [|x l IH]; intros d Hd; simpl.
  - split_and!; [done|tauto|tauto].
  - destruct (decide (key x ∈ map fst d)) as [Hin|Hnin];
      rewrite list_elem_of_In in *.
    + destruct (IH (dict_set (key x) x d)) as (Hnd & Hkeys & Hvals);
        [by rewrite dict_set_keys_old|].
      split_and!; [done| |].
      * intros k. rewrite Hkeys, dict_set_keys_old by done.
        simpl. split; [tauto|]. intros [?|[<-|?]]; auto.
      * intros k v Hv. destruct (Hvals k v Hv) as [Hd0|[? ?]]; [|by right; auto].
        apply dict_set_entries in Hd0 as [[-> ->]|?]; [right|left]; auto.
    + destruct (IH (dict_set (key x) x d)) as (Hnd & Hkeys & Hvals).
      { rewrite dict_set_keys_new by done. by apply NoDup_snoc. }
      split_and!; [done| |].
      * intros k. rewrite Hkeys, dict_set_keys_new, in_app_iff by done.
        simpl. tauto.
      * intros k v Hv. destruct (Hvals k v Hv) as [Hd0|[? ?]]; [|by right; auto].
        apply dict_set_entries in Hd0 as [[-> ->]|?]; [right|left]; auto.
Qed.
End Dict.
End DictFacts.

Module DedupFacts.
Import Py Re Data Spec Monolith DictFacts.

Lemma unique_spec (retrieved_docs : list Document) :
  List.NoDup (map identity (unique retrieved_docs)) /\
  (forall k, In k (map identity (unique retrieved_docs)) <->
             In k (map identity retrieved_docs)) /\
  (forall doc, In doc (unique retrieved_docs) -> In doc retrieved_docs).
Proof.
  unfold unique.
  destruct (comprehension_spec identity retrieved_docs [] (List.NoDup_nil _))
    as (Hnd & Hkeys & Hvals).
  set (d := dict_comprehension identity retrieved_docs []) in *.
  assert (Hid : map identity (map snd d) = map fst d).
  { rewrite map_map. apply map_ext_in. intros [k v] Hin.
    destruct (Hvals k v Hin) as [[]|[_ ?]]. done. }
  rewrite Hid. split_and!; [done| |].
  - intros k. rewrite Hkeys. simpl. tauto.
  - intros doc (kv & <- & Hin)%in_map_iff. destruct kv as [k v].
    by destruct (Hvals k v Hin) as [[]|[? _]].
Qed.

(** The number of documents kept is the number of distinct identities. *)
Lemma unique_length (retrieved_docs : list Document) :
  length (unique retrieved_docs) =
  size (list_to_set (map identity retrieved_docs) : gset (str * option str * option Z)).
Proof.
  destruct (unique_spec retrieved_docs) as (Hnd & Hkeys & _).
  rewrite <- (length_map identity).
  rewrite <- (size_list_to_set (C := gset (str * option str * option Z)))
    by by apply NoDup_ListNoDup.
  f_equal. apply set_eq. intros k.
  rewrite !elem_of_list_to_set, !list_elem_of_In. apply Hkeys.
Qed.

(** C6. Removing duplicates. For every list of retrieved documents the
    unique documents are as many as the distinct identities (content,
    source file, page) of the list, no two of them share an identity, each
    is a document of the list and every document of the list has its
    identity among them; and what the stream of a query reranks is the list
    of unique documents. *)
Theorem dedup_before_rerank {S : Type} (ltb : S -> S -> bool) (_config : AppConfig)
    (retriever_invoke : Z -> str -> list Document)
    (predict : list (str * str) -> list S) (_llm : LlmCall -> list chunk)
    (retrieved_docs : list Document) (user_query : str) :
  length (unique retrieved_docs) =
    size (list_to_set (map identity retrieved_docs) : gset (str * option str * option Z)) /\
  List.NoDup (map identity (unique retrieved_docs)) /\
  (forall doc, In doc (unique retrieved_docs) -> In doc retrieved_docs) /\
  (forall doc, In doc retrieved_docs ->
     exists kept, In kept (unique retrieved_docs) /\ identity kept = identity doc) /\
  (resume ltb _config retriever_invoke predict _llm (stream_query_response user_query) []).1.1 =
    Some (YDocs (rerank ltb _config predict user_query
      (unique (retriever_invoke (RETRIEVER_K _config) user_query)))).
Proof.
  destruct (unique_spec retrieved_docs) as (Hnd & Hkeys & Hvals).
  split_and!; [apply unique_length|done|done| |].
  - intros doc Hin.
    assert (Hk : In (identity doc) (map identity (unique retrieved_docs))).
    { apply Hkeys, in_map_iff. by exists doc. }
    apply in_map_iff in Hk as (kept & ? & ?). by exists kept.
  - by rewrite StreamFacts.resume_start.
Qed.
End DedupFacts.

(** ** Sorting by keys that may not be ordered *)
Module SortByFacts.
Import Py Data Spec Monolith.

Section Sort.
Context {A K : Type} (lt : K -> K -> result bool) (key : A -> K).

Lemma insert_by_perm x l r :
  insert_by lt key x l = Ok r -> Permutation (x :: l) r.
Proof.
  revert r. induction l as [|y l IH]; intros r; cbn [insert_by].
  - by intros [= <-].
  - destruct (lt (key y) (key x)) as [[|]|e]; [|by intros [= <-]|done].
    destruct (insert_by lt key x l) as [rest|e]; [|done].
    intros [= <-]. rewrite perm_swap. constructor. by apply IH.
Qed.

(** A sort that returns has put the same elements in some order. *)
Lemma sort_by_perm l r : sort_by lt key l = Ok r -> Permutation l r.
Proof.
  revert r. induction l as [|x l IH]; intros r; cbn [sort_by].
  - by intros [= <-].
  - destruct (sort_by lt key l) as [sorted|e]; [|done].
    intros Hr%insert_by_perm. rewrite <- Hr. constructor. by apply IH.
Qed.

Lemma insert_by_raise x l e :
  insert_by lt key x l = Raise e -> exists y, In y l /\ lt (key y) (key x) = Raise e.
Proof.
  induction l as [|y l IH]; cbn [insert_by]; [done|].
  destruct (lt (key y) (key x)) as [[|]|e'] eqn:Hlt.
  - destruct (insert_by lt key x l) as [rest|e']; [done|].
    intros [= ->]. destruct (IH eq_refl) as (z & Hz & Hraise).
    exists z. split; [by right|done].
  - done.
  - intros [= ->]. exists y. split; [by left|done].
Qed.

(** A sort raises what the comparison of two of its elements raised. *)
Lemma sort_by_raise l e :
  sort_by lt key l = Raise e ->
  exists x y, In x l /\ In y l /\ lt (key x) (key y) = Raise e.
Proof.
  induction l as [|x l IH]; cbn [sort_by]; [done|].
  destruct (sort_by lt key l) as [sorted|e'] eqn:Hs.
  - intros (y & Hy & Hraise)%insert_by_raise. exists y, x. split_and!; [|by left|done].
    right. apply sort_by_perm in Hs. apply (Permutation_in y (Permutation_sym Hs) Hy).
  - intros [= ->]. destruct (IH eq_refl) as (y & z & Hy & Hz & Hraise).
    exists y, z. split_and!; [by right|by right|done].
Qed.

(** Elements whose keys are all ordered with each other are sorted. *)
Lemma sort_by_ok (P : A -> Prop) l :
  (forall x y, P x -> P y -> exists b, lt (key x) (key y) = Ok b) ->
  Forall P l ->
  exists r, sort_by lt key l = Ok r.
Proof.
  intros Hord Hl.
  destruct (sort_by lt key l) as [r|e] eqn:Hs; [by exists r|].
  apply sort_by_raise in Hs as (x & y & Hx & Hy & Hraise).
  rewrite List.Forall_forall in Hl.
  destruct (Hord x y (Hl x Hx) (Hl y Hy)) as [b Hb]. congruence.
Qed.
End Sort.

Lemma str_ltb_irrefl s : str_ltb s s = false.
Proof.
  induction s as [|a s IH]; [done|]. cbn [str_ltb]. by rewrite N.ltb_irrefl.
Qed.

Lemma str_ltb_antisym s t : str_ltb s t = false -> str_ltb t s = false -> s = t.
Proof.
  revert t. induction s as [|a s IH]; intros [|b t]; cbn [str_ltb]; try done.
  destruct (N.ltb_spec a b), (N.ltb_spec b a); try done; try lia.
  intros Hs Ht. assert (a = b) as -> by lia. f_equal. by apply IH.
Qed.

Lemma str_ltb_asym s t : str_ltb s t = true -> str_ltb t s = false.
Proof.
  revert t. induction s as [|a s IH]; intros [|b t]; cbn [str_ltb]; try done.
  destruct (N.ltb_spec a b), (N.ltb_spec b a); try done; try lia. apply IH.
Qed.

(** [a <= b <= c] gives [a <= c], where [s <= t] is [not (t < s)]. *)
Lemma str_le_trans a b c :
  str_ltb b a = false -> str_ltb c b = false -> str_ltb c a = false.
Proof.
  revert b c. induction a as [|x a IH]; intros [|y b] [|z c]; cbn [str_ltb]; try done.
  destruct (N.ltb_spec y x), (N.ltb_spec x y), (N.ltb_spec z y), (N.ltb_spec y z),
    (N.ltb_spec z x), (N.ltb_spec x z); try done; try lia.
  apply IH.
Qed.

(** The keys [<] orders: equal titles with equal pages or two pages that
    are there, or two different titles that are there. *)
Lemma ordered_iff k k' :
  ordered k k' <->
  (k.1 = k'.1 /\ (k.2 = k'.2 \/ (is_Some k.2 /\ is_Some k'.2))) \/
  (k.1 <> k'.1 /\ is_Some k.1 /\ is_Some k'.1).
Proof.
  unfold ordered, lt_key, lt_pair, is_Some.
  destruct k as [t p], k' as [t' p']. cbn [fst snd].
  destruct (decide (t = t')) as [->|Ht].
  - destruct (decide (p = p')) as [->|Hp]; [naive_solver|].
    destruct p as [p|], p' as [p'|]; cbn [lt_value]; naive_solver.
  - destruct t as [t|], t' as [t'|]; cbn [lt_value]; naive_solver.
Qed.

Lemma ordered_refl k : ordered k k.
Proof. apply ordered_iff. left. by auto. Qed.

Lemma ordered_sym k k' : ordered k k' -> ordered k' k.
Proof. rewrite !ordered_iff. naive_solver. Qed.

(** What an answer of [<] says of the titles. *)
Lemma lt_key_true_title_le k k' : lt_key k k' = Ok true -> title_le k k'.
Proof.
  unfold lt_key, lt_pair, title_le. destruct k as [[t|] p], k' as [[t'|] p']; cbn [fst snd];
    try done.
  destruct (decide (Some t = Some t')) as [[= ->]|Ht].
  - intros _. apply str_ltb_irrefl.
  - cbn [lt_value]. intros [= Hlt]. by apply str_ltb_asym.
Qed.

Lemma lt_key_false_title_le k k' : lt_key k k' = Ok false -> title_le k' k.
Proof.
  unfold lt_key, lt_pair, title_le. destruct k as [[t|] p], k' as [[t'|] p']; cbn [fst snd];
    try done.
  destruct (decide (Some t = Some t')) as [[= ->]|Ht].
  - intros _. apply str_ltb_irrefl.
  - cbn [lt_value]. by intros [= Hlt].
Qed.

(** Titles in order through a key that both ends are ordered with. *)
Lemma title_le_trans k k' k'' :
  ordered k' k -> title_le k k' -> title_le k' k'' -> title_le k k''.
Proof.
  rewrite ordered_iff. unfold title_le.
  destruct k as [[t|] p], k' as [[t'|] p'], k'' as [[t''|] p'']; cbn [fst snd]; try done.
  - intros _. apply str_le_trans.
  - unfold is_Some. naive_solver.
Qed.

(** A key that is not less than [k], that [k] and [k'] are ordered with,
    and that comes before [k'] in the order of the titles: [k'] and [k] are
    ordered. *)
Lemma ordered_after z k k' :
  lt_key z k = Ok false -> ordered z k' -> title_le z k' -> ordered k' k.
Proof.
  intros Hlt Hzk' Hle.
  assert (Hzk : ordered z k) by (by exists false).
  revert Hzk Hzk' Hle Hlt.
  rewrite !ordered_iff. unfold title_le, lt_key, lt_pair, is_Some.
  destruct z as [tz pz], k as [t p], k' as [t' p']. cbn [fst snd].
  intros Hzk Hzk' Hle Hlt.
  destruct (decide (t' = t)) as [->|Hne].
  - destruct (decide (tz = t)) as [->|Hz].
    + clear Hle Hlt. left. split; [done|]. destruct pz, p, p'; naive_solver.
    + exfalso.
      destruct tz as [a|], t as [b|]; [|naive_solver..].
      cbn [lt_value] in Hlt. injection Hlt as Hlt.
      apply Hz. f_equal. by apply str_ltb_antisym.
  - clear Hle Hlt. right. split; [done|]. destruct tz, t, t'; naive_solver.
Qed.

(** A comparison of two keys raises nothing but [TypeError]. *)
Lemma lt_key_raise k k' e : lt_key k k' = Raise e -> e = TypeError "<".
Proof.
  unfold lt_key, lt_pair. destruct k as [[t|] [p|]], k' as [[t'|] [p'|]]; cbn [fst snd];
    repeat case_decide; cbn [lt_value]; congruence.
Qed.

Section SortBy.
Context {A : Type} (key : A -> option str * option Z).

#[local] Abbreviation insert_by := (insert_by lt_key key).
#[local] Abbreviation sort_by := (sort_by lt_key key).

(** An insertion that returns has found the element ordered with every
    element of the sorted list. *)
Lemma insert_by_sorted x s r :
  StronglySorted (fun a b => title_le (key a) (key b)) s ->
  (forall a b, In a s -> In b s -> ordered (key a) (key b)) ->
  insert_by x s = Ok r ->
  StronglySorted (fun a b => title_le (key a) (key b)) r /\
  Forall (fun a => ordered (key a) (key x)) s.
Proof.
  revert r. induction s as [|y s IH]; intros r Hsorted Hpair; cbn [Py.insert_by].
  - intros [= <-]. split; [by repeat constructor|done].
  - apply StronglySorted_inv in Hsorted as [Hs Hy].
    assert (Hpair' : forall a b, In a s -> In b s -> ordered (key a) (key b)).
    { intros a b Ha Hb. apply Hpair; by right. }
    destruct (lt_key (key y) (key x)) as [[|]|e] eqn:Hlt; [| |done].
    + destruct (insert_by x s) as [rest|e] eqn:Hins; [|done].
      intros [= <-]. destruct (IH rest Hs Hpair' eq_refl) as [Hrest Hall].
      split.
      * constructor; [done|].
        apply insert_by_perm in Hins. rewrite <- Hins.
        constructor; [by apply lt_key_true_title_le|done].
      * constructor; [by exists true|done].
    + intros [= <-].
      assert (Hyx : ordered (key y) (key x)) by (by exists false).
      assert (Hxy : title_le (key x) (key y)) by (by apply lt_key_false_title_le).
      split.
      * constructor; [by constructor|]. constructor; [done|].
        rewrite List.Forall_forall in Hy. apply List.Forall_forall. intros w Hw.
        apply (title_le_trans _ (key y)); [done|done|by apply Hy].
      * constructor; [done|].
        rewrite List.Forall_forall in Hy. apply List.Forall_forall. intros w Hw.
        apply (ordered_after (key y)); [done| |by apply Hy].
        apply Hpair; [by left|by right].
Qed.

Lemma sort_by_sorted l r :
  sort_by l = Ok r ->
  StronglySorted (fun a b => title_le (key a) (key b)) r /\
  (forall a b, In a r -> In b r -> ordered (key a) (key b)).
Proof.
  revert r. induction l as [|x l IH]; intros r; cbn [Py.sort_by].
  - intros [= <-]. split; [constructor|by intros a b []].
  - destruct (sort_by l) as [s|e]; [|done].
    destruct (IH s eq_refl) as [Hsorted Hpair]. intros Hins.
    destruct (insert_by_sorted x s r Hsorted Hpair Hins) as [Hr Hall].
    split; [done|].
    apply insert_by_perm in Hins. rewrite List.Forall_forall in Hall.
    intros a b Ha Hb.
    apply (Permutation_in _ (Permutation_sym Hins)) in Ha, Hb.
    destruct Ha as [<-|Ha], Hb as [<-|Hb].
    + apply ordered_refl.
    + apply ordered_sym. by apply Hall.
    + by apply Hall.
    + by apply Hpair.
Qed.

(** The sort raises exactly when the list holds two elements whose keys
    [<] cannot order, whichever of them it compares first. *)
Lemma sort_by_raises_iff l :
  sort_by l = Raise (TypeError "<") <->
  exists d d', In d l /\ In d' l /\ lt_key (key d) (key d') = Raise (TypeError "<").
Proof.
  split; [apply sort_by_raise|].
  intros (d & d' & Hd & Hd' & Hraise).
  destruct (sort_by l) as [r|e] eqn:Hs.
  - exfalso. pose proof (sort_by_perm _ _ _ _ Hs) as Hperm.
    apply sort_by_sorted in Hs as [_ Hpair].
    destruct (Hpair d d') as [b Hb]; [by apply (Permutation_in _ Hperm)..|]. congruence.
  - apply sort_by_raise in Hs as (x & y & _ & _ & Hxy).
    by rewrite (lt_key_raise _ _ _ Hxy).
Qed.
End SortBy.
End SortByFacts.

(** ** The cross-check of citations *)
Module CitationFacts.
Import Py Re Data Spec Monolith SortByFacts.

(** The keys of the dictionary are the provenances of the bundle. *)
Lemma dom_source_docs_map source_docs :
  dom (source_docs_map source_docs) = provenances source_docs.
Proof.
  unfold source_docs_map, provenances.
  assert (Hgen : forall m : gmap citation Document,
    dom (foldl (fun m doc => <[provenance doc := doc]> m) m source_docs) =
    dom m ∪ list_to_set (map provenance source_docs)).
  { induction source_docs as [|doc docs IH]; intros m; simpl.
    - set_solver.
    - rewrite IH, dom_insert_L. set_solver. }
  rewrite Hgen, dom_empty_L. set_solver.
Qed.

Lemma elem_of_provenances r source_docs :
  r ∈ provenances source_docs <-> exists doc, In doc source_docs /\ provenance doc = r.
Proof.
  unfold provenances. rewrite elem_of_list_to_set, list_elem_of_In, in_map_iff.
  naive_solver.
Qed.

Lemma elem_of_references `{Unicode} r final_answer :
  r ∈ references final_answer <->
  exists groups, In groups (findall pattern final_answer) /\ reference groups = r.
Proof.
  unfold references. rewrite elem_of_list_to_set, list_elem_of_In, in_map_iff.
  naive_solver.
Qed.

(** Steps 1 to 3 compute the intersection and the difference. *)
Lemma cross_check_sets `{Unicode} final_answer source_docs :
  match cross_check final_answer source_docs with
  | None => findall pattern final_answer = []
  | Some c =>
    findall pattern final_answer <> [] /\
    answer_references_set c = references final_answer /\
    verified_refs c = references final_answer ∩ provenances source_docs /\
    hallucinated_refs c = references final_answer ∖ provenances source_docs
  end.
Proof.
  unfold cross_check, references.
  destruct (findall pattern final_answer) as [|g gs]; [done|].
  simpl. rewrite dom_source_docs_map. done.
Qed.

Lemma cross_check_found `{Unicode} final_answer source_docs :
  findall pattern final_answer <> [] ->
  exists c, cross_check final_answer source_docs = Some c /\
    verified_refs c = references final_answer ∩ provenances source_docs /\
    hallucinated_refs c = references final_answer ∖ provenances source_docs.
Proof.
  intros Hne. pose proof (cross_check_sets final_answer source_docs) as Hc.
  destruct (cross_check final_answer source_docs) as [c|]; [|done].
  exists c. naive_solver.
Qed.

Lemma findall_T_A_5 `{Unicode} :
  findall pattern (tag_T_A "5") = [[u "T"; u "A"; u "5"]].
Proof. vm_compute. reflexivity. Qed.

Lemma findall_T_A_99 `{Unicode} :
  findall pattern (tag_T_A "99") = [[u "T"; u "A"; u "99"]].
Proof. vm_compute. reflexivity. Qed.

Lemma findall_T_A_007 `{Unicode} :
  findall pattern (tag_T_A "007") = [[u "T"; u "A"; u "007"]].
Proof. vm_compute. reflexivity. Qed.

Lemma references_single `{Unicode} final_answer t a p :
  findall pattern final_answer = [[t; a; p]] ->
  references final_answer = {[ (strip t, strip a, strip p) ]}.
Proof. unfold references. intros ->. simpl. set_solver. Qed.

(** The tag of a document of the bundle is verified. *)
Lemma round_trip `{Unicode} source_docs doc :
  In doc source_docs ->
  title (metadata doc) = Some (u "T") ->
  author (metadata doc) = Some (u "A") ->
  page (metadata doc) = Some 5%Z ->
  exists c, cross_check (tag_T_A "5") source_docs = Some c /\
    verified_refs c = {[ cite_T_A "5" ]} /\ hallucinated_refs c = ∅.
Proof.
  intros Hin Ht Ha Hp.
  destruct (cross_check_found (tag_T_A "5") source_docs) as (c & Hc & Hv & Hh).
  { by rewrite findall_T_A_5. }
  exists c. split; [done|].
  rewrite (references_single _ _ _ _ findall_T_A_5) in Hv, Hh.
  assert (Hprov : cite_T_A "5" ∈ provenances source_docs).
  { apply elem_of_provenances. exists doc. split; [done|].
    unfold provenance. by rewrite Ht, Ha, Hp. }
  change (strip (u "T"), strip (u "A"), strip (u "5")) with (cite_T_A "5") in Hv, Hh.
  rewrite Hv, Hh. set_solver.
Qed.

(** A tag whose reference no document of the bundle has is hallucinated. *)
Lemma not_in_bundle `{Unicode} source_docs (p : string) :
  findall pattern (tag_T_A p) = [[u "T"; u "A"; u p]] ->
  strip (u p) = u p ->
  (forall doc, In doc source_docs -> provenance doc <> cite_T_A p) ->
  exists c, cross_check (tag_T_A p) source_docs = Some c /\
    verified_refs c = ∅ /\ hallucinated_refs c = {[ cite_T_A p ]}.
Proof.
  intros Hf Hs Hnone.
  destruct (cross_check_found (tag_T_A p) source_docs) as (c & Hc & Hv & Hh).
  { by rewrite Hf. }
  exists c. split; [done|].
  rewrite (references_single _ _ _ _ Hf) in Hv, Hh.
  assert (Hprov : cite_T_A p ∉ provenances source_docs).
  { intros (doc & Hin & Hp)%elem_of_provenances. by apply (Hnone doc). }
  replace (strip (u "T"), strip (u "A"), strip (u p)) with (cite_T_A p) in Hv, Hh
    by (unfold cite_T_A; by rewrite Hs).
  rewrite Hv, Hh. set_solver.
Qed.


(** A value of the dictionary is a document of the bundle under its key. *)
Lemma source_docs_map_lookup source_docs r doc :
  source_docs_map source_docs !! r = Some doc ->
  In doc source_docs /\ provenance doc = r.
Proof.
  unfold source_docs_map.
  assert (Hgen : forall m : gmap citation Document,
    foldl (fun m doc => <[provenance doc := doc]> m) m source_docs !! r = Some doc ->
    (In doc source_docs /\ provenance doc = r) \/ m !! r = Some doc).
  { induction source_docs as [|d docs IH]; intros m; simpl; [by right|].
    intros [[? ?]|Hm]%IH; [left; by auto|].
    destruct (decide (provenance d = r)) as [<-|Hne].
    - rewrite lookup_insert_eq in Hm. injection Hm as ->. left. by auto.
    - rewrite lookup_insert_ne in Hm by done. by right. }
  intros [?|Hm]%Hgen; [done|]. by rewrite lookup_empty in Hm.
Qed.

(** A page cited as [007] is not the page whose string is [7]. *)
Lemma strict_page `{Unicode} source_docs :
  (forall doc, In doc source_docs ->
     str_of_int (get (page (metadata doc)) 0%Z) = u "7") ->
  exists c, cross_check (tag_T_A "007") source_docs = Some c /\
    verified_refs c = ∅ /\ hallucinated_refs c = {[ cite_T_A "007" ]}.
Proof.
  intros Hpage. apply not_in_bundle; [apply findall_T_A_007|by vm_compute|].
  intros doc Hin. unfold provenance. rewrite (Hpage doc Hin).
  vm_compute. discriminate.
Qed.

Lemma lt_key_titled d d' :
  titled d -> titled d' -> exists b, lt_key (sort_key d) (sort_key d') = Ok b.
Proof.
  unfold titled, lt_key, lt_pair, sort_key. cbn [fst snd].
  intros [[t ->] [p ->]] [[t' ->] [p' ->]].
  repeat case_decide; cbn [lt_value]; eauto.
Qed.

(** The verified sources are documents of the bundle. *)
Lemma verified_sources_in `{Unicode} final_answer source_docs c doc :
  cross_check final_answer source_docs = Some c ->
  In doc (verified_sources c) ->
  In doc source_docs /\ provenance doc ∈ verified_refs c.
Proof.
  intros Hcc Hdoc. unfold cross_check in Hcc.
  destruct (findall pattern final_answer); [done|]. injection Hcc as <-. simpl in *.
  apply list_elem_of_In, list_elem_of_omap in Hdoc as (r & Hr & Hm).
  apply elem_of_elements in Hr. apply source_docs_map_lookup in Hm as [? <-]. done.
Qed.

(** How [verify_and_present] ends: with everything printed, the verified
    sources in some order and the warning when a reference is made up; or
    in [TypeError], at the sort, on two verified sources whose keys [<]
    cannot order, with the answer and the heading printed and no
    warning. *)
Lemma verify_and_present_ends `{Unicode} final_answer source_docs c :
  cross_check final_answer source_docs = Some c ->
  (exists sorted,
     sort_by lt_key sort_key (verified_sources c) = Ok sorted /\
     Permutation (verified_sources c) sorted /\
     verify_and_present final_answer source_docs =
       (Ok tt,
        [Answer final_answer] ++
        match sorted with
        | [] => []
        | _ => [VerifiedHeading; VerifiedSources sorted]
        end ++ warning c)) \/
  (verify_and_present final_answer source_docs =
     (Raise (TypeError "<"), [Answer final_answer; VerifiedHeading]) /\
   exists d d',
     In d (verified_sources c) /\ In d' (verified_sources c) /\
     In d source_docs /\ In d' source_docs /\
     lt_key (sort_key d) (sort_key d') = Raise (TypeError "<")).
Proof.
  intros Hcc. unfold verify_and_present. rewrite Hcc.
  destruct (verified_sources c) as [|doc docs] eqn:Hvs.
  { left. exists []. by split_and!. }
  rewrite <- Hvs.
  destruct (sort_by lt_key sort_key (verified_sources c)) as [sorted|e] eqn:Hs.
  - left. exists sorted. pose proof (sort_by_perm _ _ _ _ Hs) as Hperm.
    split_and!; [done|done|].
    destruct sorted as [|d ds]; [|done].
    apply Permutation_sym, Permutation_nil in Hperm. congruence.
  - right. apply sort_by_raise in Hs as (d & d' & Hd & Hd' & Hraise).
    pose proof (lt_key_raise _ _ _ Hraise) as ->.
    split; [done|]. exists d, d'.
    pose proof (verified_sources_in _ _ _ _ Hcc Hd) as [? _].
    pose proof (verified_sources_in _ _ _ _ Hcc Hd') as [? _]. done.
Qed.

(** The same for every answer, with or without a tag. *)
Lemma verify_and_present_cases `{Unicode} final_answer source_docs :
  (exists blocks,
     verify_and_present final_answer source_docs = (Ok tt, blocks) /\
     In (Answer final_answer) blocks) \/
  (verify_and_present final_answer source_docs =
     (Raise (TypeError "<"), [Answer final_answer; VerifiedHeading]) /\
   exists c d d',
     cross_check final_answer source_docs = Some c /\
     In d (verified_sources c) /\ In d' (verified_sources c) /\
     In d source_docs /\ In d' source_docs /\
     lt_key (sort_key d) (sort_key d') = Raise (TypeError "<")).
Proof.
  destruct (cross_check final_answer source_docs) as [c|] eqn:Hcc.
  - destruct (verify_and_present_ends _ _ _ Hcc)
      as [(sorted & _ & _ & ->)|(? & d & d' & ?)]; [left|right].
    + eexists. split; [done|]. by left.
    + split; [done|]. by exists c, d, d'.
  - left. unfold verify_and_present. rewrite Hcc. eexists. split; [done|]. by left.
Qed.

(** [verify_and_present] raises exactly when two of the verified sources
    have keys that [<] cannot order. *)
Lemma verify_and_present_raises_iff `{Unicode} final_answer source_docs :
  (exists printed, verify_and_present final_answer source_docs =
     (Raise (TypeError "<"), printed)) <->
  exists c d d',
    cross_check final_answer source_docs = Some c /\
    In d (verified_sources c) /\ In d' (verified_sources c) /\
    lt_key (sort_key d) (sort_key d') = Raise (TypeError "<").
Proof.
  split.
  - intros [printed Hraise].
    destruct (verify_and_present_cases final_answer source_docs)
      as [(blocks & Hok & _)|(_ & c & d & d' & ? & ? & ? & _ & _ & ?)]; [congruence|].
    by exists c, d, d'.
  - intros (c & d & d' & Hcc & Hd & Hd' & Hraise).
    assert (Hs : sort_by lt_key sort_key (verified_sources c) = Raise (TypeError "<")).
    { apply sort_by_raises_iff. by exists d, d'. }
    unfold verify_and_present. rewrite Hcc.
    destruct (verified_sources c) as [|doc docs] eqn:Hvs; [done|].
    rewrite Hs. by eexists.
Qed.

(** On a bundle whose documents all hold a title and a page the sort
    returns, and so does [verify_and_present]. *)
Lemma verify_and_present_titled `{Unicode} final_answer source_docs :
  Forall titled source_docs ->
  exists blocks, verify_and_present final_answer source_docs = (Ok tt, blocks).
Proof.
  intros Hall. destruct (cross_check final_answer source_docs) as [c|] eqn:Hcc.
  - destruct (verify_and_present_ends _ _ _ Hcc)
      as [(sorted & _ & _ & ->)|(_ & d & d' & _ & _ & Hd & Hd' & Hraise)]; [by eauto|].
    rewrite List.Forall_forall in Hall.
    destruct (lt_key_titled d d' (Hall d Hd) (Hall d' Hd')) as [b Hb]. congruence.
  - unfold verify_and_present. rewrite Hcc. by eauto.
Qed.

(** Policy A, the cross-check of citations. For every answer and every
    evidence bundle: when the answer holds no tag of the grammar [pattern]
    it is presented as unverified; otherwise the verified references are
    the references of the answer that are provenances of the bundle and the
    hallucinated ones are those that are not, where a reference is made of
    the three stripped groups of a match and a provenance of the title, the
    author and the string of the page of a document, all compared as
    strings. The verified sources are documents of the bundle, the answer
    is always printed, and whenever [verify_and_present] returns a
    non-empty hallucinated set is printed as a warning. On a bundle that
    holds a document of title T, author A and page 5, the tag with page 5 is
    verified and nothing is hallucinated; the tag with page 99 is
    hallucinated when no document of the bundle has that provenance; the
    tag with page 007 is hallucinated on a bundle whose pages all print as
    7. *)
Lemma citation_cross_check `{Unicode} (final_answer : str) (source_docs : list Document) :
  match cross_check final_answer source_docs with
  | None =>
    findall pattern final_answer = [] /\
    verify_and_present final_answer source_docs =
      (Ok tt, _present_unverified_answer final_answer source_docs)
  | Some c =>
    verified_refs c = references final_answer ∩ provenances source_docs /\
    hallucinated_refs c = references final_answer ∖ provenances source_docs /\
    (forall r, r ∈ verified_refs c <->
       r ∈ references final_answer /\
       exists doc, In doc source_docs /\ provenance doc = r) /\
    (forall r, r ∈ hallucinated_refs c <->
       r ∈ references final_answer /\
       forall doc, In doc source_docs -> provenance doc <> r) /\
    (forall doc, doc ∈ verified_sources c ->
       In doc source_docs /\ provenance doc ∈ verified_refs c) /\
    In (Answer final_answer) (verify_and_present final_answer source_docs).2 /\
    (forall blocks,
       verify_and_present final_answer source_docs = (Ok tt, blocks) ->
       hallucinated_refs c <> ∅ ->
       In (Warning (hallucinated_refs c)) blocks)
  end /\
  (forall r, r ∈ references final_answer <->
     exists groups, In groups (findall pattern final_answer) /\
       r = (strip (nth 0 groups []), strip (nth 1 groups []), strip (nth 2 groups []))) /\
  (forall doc, In doc source_docs ->
     title (metadata doc) = Some (u "T") ->
     author (metadata doc) = Some (u "A") ->
     page (metadata doc) = Some 5%Z ->
     exists c, cross_check (tag_T_A "5") source_docs = Some c /\
       verified_refs c = {[ cite_T_A "5" ]} /\ hallucinated_refs c = ∅) /\
  ((forall doc, In doc source_docs -> provenance doc <> cite_T_A "99") ->
     exists c, cross_check (tag_T_A "99") source_docs = Some c /\
       verified_refs c = ∅ /\ hallucinated_refs c = {[ cite_T_A "99" ]}) /\
  ((forall doc, In doc source_docs ->
      str_of_int (get (page (metadata doc)) 0%Z) = u "7") ->
     exists c, cross_check (tag_T_A "007") source_docs = Some c /\
       verified_refs c = ∅ /\ hallucinated_refs c = {[ cite_T_A "007" ]}).
Proof.
  split_and!.
  - pose proof (cross_check_sets final_answer source_docs) as Hc.
    destruct (cross_check final_answer source_docs) as [c|] eqn:Hcc.
    2:{ unfold verify_and_present. by rewrite Hcc. }
    destruct Hc as (Hne & Hrefs & Hv & Hh). split_and!; [done|done| | | | |].
    + intros r. rewrite Hv, elem_of_intersection, elem_of_provenances. done.
    + intros r. rewrite Hh, elem_of_difference, elem_of_provenances. naive_solver.
    + intros doc Hdoc%list_elem_of_In. by apply (verified_sources_in final_answer).
    + destruct (verify_and_present_ends _ _ _ Hcc) as [(sorted & _ & _ & ->)|[-> _]];
        by left.
    + intros blocks Hblocks Hnonempty.
      destruct (verify_and_present_ends _ _ _ Hcc) as [(sorted & _ & _ & Heq)|[Heq _]];
        [|congruence].
      rewrite Heq in Hblocks. injection Hblocks as <-.
      right. apply in_or_app. right.
      unfold warning. case_decide; [done|]. by left.
  - intros r. rewrite elem_of_references. unfold reference. naive_solver.
  - intros doc. apply round_trip.
  - apply not_in_bundle; [apply findall_T_A_99|by vm_compute].
  - apply strict_page.
Qed.

(** The cross-check on bundles of one document: page 5 against the tags of
    pages 5 and 99, page 7 against the tag of page 007. *)
Lemma citation_cross_check_single :
  (exists c, cross_check (tag_T_A "5") [Examples.doc_T_A_5] = Some c /\
     verified_refs c = {[ cite_T_A "5" ]} /\ hallucinated_refs c = ∅) /\
  (exists c, cross_check (tag_T_A "99") [Examples.doc_T_A_5] = Some c /\
     verified_refs c = ∅ /\ hallucinated_refs c = {[ cite_T_A "99" ]}) /\
  (exists c, cross_check (tag_T_A "007") [Examples.doc_T_A_7] = Some c /\
     verified_refs c = ∅ /\ hallucinated_refs c = {[ cite_T_A "007" ]}).
Proof.
  pose proof (citation_cross_check (tag_T_A "5") [Examples.doc_T_A_5])
    as (_ & _ & Hfive & Hother & _).
  pose proof (citation_cross_check (tag_T_A "007") [Examples.doc_T_A_7])
    as (_ & _ & _ & _ & Hstrict).
  split_and!.
  - apply (Hfive Examples.doc_T_A_5); [by left|reflexivity|reflexivity|reflexivity].
  - apply Hother. intros doc [<-|[]]. vm_compute. discriminate.
  - apply Hstrict. intros doc [<-|[]]. vm_compute. reflexivity.
Qed.


(** C10. Tags are not round-trip safe for a title that holds the separator.
    There is a document whose title holds [" - "] such that the header the
    context assembler renders for it, given back verbatim as the answer, is
    parsed into a reference that is not the provenance of the document (the
    lazy first group stops at the first separator): nothing is verified
    and the reference is hallucinated. *)
Theorem separator_in_title_is_not_round_trip_safe `{Unicode} :
  exists (doc : Document) (header : str),
    contains (u " - ") (get (title (metadata doc)) []) = true /\
    _format_context [doc] = header ++ NEWLINE ++ page_content doc /\
    provenance doc = (u "A - B", u "C", u "1") /\
    references header = {[ (u "A", u "B - C", u "1") ]} /\
    exists c, cross_check header [doc] = Some c /\
      verified_refs c = ∅ /\
      hallucinated_refs c = {[ (u "A", u "B - C", u "1") ]}.
Proof.
  exists Examples.dashed, Examples.dashed_header.
  assert (Hf : findall pattern Examples.dashed_header = [[u "A"; u "B - C"; u "1"]])
    by (vm_compute; reflexivity).
  assert (Hrefs : references Examples.dashed_header = {[ (u "A", u "B - C", u "1") ]}).
  { rewrite (references_single _ _ _ _ Hf).
    by replace (strip (u "A"), strip (u "B - C"), strip (u "1"))
      with (u "A", u "B - C", u "1") by (vm_compute; reflexivity). }
  assert (Hprov : provenance Examples.dashed = (u "A - B", u "C", u "1"))
    by (vm_compute; reflexivity).
  split_and!; [by vm_compute|by vm_compute|done|done|].
  destruct (cross_check_found Examples.dashed_header [Examples.dashed])
    as (c & Hc & Hv & Hh); [by rewrite Hf|].
  exists c. split; [done|]. rewrite Hv, Hh, Hrefs.
  assert (Hne : (u "A", u "B - C", u "1") <> (u "A - B", u "C", u "1"))
    by (vm_compute; discriminate).
  unfold provenances. cbn [map]. rewrite Hprov.
  clear Hf Hrefs Hprov Hc Hv Hh. revert Hne.
  generalize (u "A", u "B - C", u "1"), (u "A - B", u "C", u "1").
  intros r r'. set_solver.
Qed.

End CitationFacts.

(** ** Claim-level verification *)
Module VerifyFacts.
Import Py Re Data Spec Client.
Section Facts.
Context `{Unicode}.
Variable b : Bindings.
Variable cfg : AppConfig.
Variable llm : LlmCall -> result str.

#[local] Abbreviation verify_sources := (verify_sources cfg llm).
#[local] Abbreviation verify := (verify b cfg llm).

(** When the loop ends normally every call returned, and the two lists
    split the documents by the engine's answer. *)
Lemma verify_sources_ok claim docs vs us log vs' us' log' :
  verify_sources claim docs vs us log = (Ok (vs', us'), log') ->
  vs' = vs ++ map metadata (List.filter (affirms cfg llm claim) docs) /\
  us' = us ++ map metadata (List.filter (denies cfg llm claim) docs) /\
  log' = log ++ verification_calls cfg claim docs /\
  Forall (fun doc => exists text,
    llm (verification_call cfg (page_content doc) claim) = Ok text) docs.
Proof.
  revert vs us log. induction docs as [|doc docs IH]; intros vs us log; simpl.
  - intros [= <- <- <-]. by rewrite !app_nil_r.
  - destruct (subscript "book_title" _); [|done].
    destruct (subscript "page" _); [|done].
    unfold denies, affirms.
    destruct (llm (verification_call cfg (page_content doc) claim)) as [text|e] eqn:Hllm;
      [|done].
    destruct (contains (u "EVET") (upper (strip text))) eqn:Hyes; simpl; intros Hrec;
      apply IH in Hrec as (-> & -> & -> & Hall);
      rewrite <- ?app_assoc; split_and!; try done;
      constructor; eauto.
Qed.

(** An error of the engine on any document leaves the loop without lists. *)
Lemma verify_sources_raise claim docs vs us log doc e :
  In doc docs ->
  llm (verification_call cfg (page_content doc) claim) = Raise e ->
  exists e' log', verify_sources claim docs vs us log = (Raise e', log').
Proof.
  intros Hin He.
  destruct (verify_sources claim docs vs us log) as [[[vs' us']|e'] log'] eqn:Hv;
    [|by eauto].
  apply verify_sources_ok in Hv as (_ & _ & _ & Hall).
  rewrite List.Forall_forall in Hall. destruct (Hall doc Hin) as [text Ht]. congruence.
Qed.

(** The loop adds calls of the engine to the log, and nothing else. *)
Lemma verify_sources_log claim docs vs us log r log' :
  verify_sources claim docs vs us log = (r, log') ->
  exists added, log' = log ++ added /\ Forall is_generate added.
Proof.
  revert vs us log. induction docs as [|doc docs IH]; intros vs us log; simpl.
  - intros [= <- <-]. exists []. by rewrite app_nil_r.
  - destruct (subscript "book_title" _); [|intros [= <- <-]; exists []; by rewrite app_nil_r].
    destruct (subscript "page" _); [|intros [= <- <-]; exists []; by rewrite app_nil_r].
    destruct (llm _) as [text|e].
    + destruct (contains _ _); intros (added & -> & Hadd)%IH;
        eexists; rewrite <- app_assoc; split; try done; by constructor.
    + intros [= <- <-]. eexists. split; [done|]. by repeat constructor.
Qed.

(** The canonical sentence ends [verify] at once, the log untouched. *)
Lemma verify_not_found raw docs log :
  contains NOT_FOUND raw = true ->
  verify raw docs log = (Ok (short_circuit raw), log).
Proof. intros Hc. unfold Client.verify. by rewrite Hc. Qed.

(** [verify] adds calls of the engine to the log, and nothing else. *)
Lemma verify_log raw docs log r log' :
  verify raw docs log = (r, log') ->
  exists added, log' = log ++ added /\ Forall is_generate added.
Proof.
  unfold Client.verify.
  assert (Hnil : forall (r0 : result FinalResponse), (r0, log) = (r, log') ->
    exists added, log' = log ++ added /\ Forall is_generate added).
  { intros r0 [= <- <-]. exists []. by rewrite app_nil_r. }
  destruct (contains NOT_FOUND raw); [apply Hnil|].
  destruct (global_re b); [|apply Hnil].
  destruct (strip _) as [|c claim]; [apply Hnil|].
  destruct (self_formatter b); [|apply Hnil].
  destruct (Client.verify_sources _ _ _ _ _ _ _) as [[[vs us]|e] log0] eqn:Hv;
    intros [= <- <-]; by apply verify_sources_log in Hv.
Qed.

(** The verdict of the loop, whenever one is produced. *)
Lemma verify_verdict raw docs log resp log' :
  verify raw docs log = (Ok resp, log') ->
  contains NOT_FOUND raw = false ->
  claim_of raw <> [] ->
  verified_sources resp = map metadata (List.filter (affirms cfg llm (claim_of raw)) docs) /\
  unverified_sources resp = map metadata (List.filter (denies cfg llm (claim_of raw)) docs) /\
  is_fully_verified resp =
    (0 <? length (verified_sources resp)) && (length (unverified_sources resp) =? 0) /\
  final_answer resp = raw /\
  log' = log ++ verification_calls cfg (claim_of raw) docs /\
  Forall (fun doc => exists text,
    llm (verification_call cfg (page_content doc) (claim_of raw)) = Ok text) docs /\
  b = both_bound.
Proof.
  unfold Client.verify, claim_of. intros Hv Hc Hclaim. rewrite Hc in Hv.
  destruct b as [[] []]; simpl in Hv; try done;
    destruct (strip _) as [|c claim] eqn:Hs; try done.
  destruct (Client.verify_sources _ _ _ _ _ _ _) as [[[vs us]|e] log0] eqn:Hl; [|done].
  injection Hv as <- <-. simpl.
  apply verify_sources_ok in Hl as (-> & -> & -> & Hall). done.
Qed.

(** An error of the engine on a chunk makes [verify] raise. *)
Lemma verify_raise raw docs log doc e :
  contains NOT_FOUND raw = false ->
  claim_of raw <> [] ->
  In doc docs ->
  llm (verification_call cfg (page_content doc) (claim_of raw)) = Raise e ->
  exists e' log', verify raw docs log = (Raise e', log').
Proof.
  unfold Client.verify, claim_of. intros Hc Hclaim Hin He. rewrite Hc.
  destruct (global_re b); [|by eauto].
  destruct (strip _) as [|c claim] eqn:Hs; [done|].
  destruct (self_formatter b); [|by eauto].
  destruct (verify_sources_raise (c :: claim) docs [] [] log doc e Hin He)
    as (e' & log' & ->). eauto.
Qed.

(** The file as it is: the short-circuit, or [NameError]. *)
Lemma verify_as_written_eq raw docs log :
  Client.verify as_written cfg llm raw docs log =
  if contains NOT_FOUND raw then (Ok (short_circuit raw), log)
  else (Raise (NameError "re"), log).
Proof. unfold Client.verify. by destruct (contains NOT_FOUND raw). Qed.

(** C5. The canonical negative short-circuit. Whatever the evidence bundle,
    whatever names the file binds, an answer equal to the canonical sentence
    [NOT_FOUND], and more generally one that holds it, is returned as the
    final answer with [is_fully_verified = true], with empty lists of
    sources and with the log unchanged: the engine is not called. The
    sentence is the one the generation prompt of [config] asks for. *)
Theorem not_found_short_circuit source_docs log :
  verify NOT_FOUND source_docs log = (Ok (short_circuit NOT_FOUND), log) /\
  (forall raw_answer, contains NOT_FOUND raw_answer = true ->
     verify raw_answer source_docs log = (Ok (short_circuit raw_answer), log)) /\
  is_fully_verified (short_circuit NOT_FOUND) = true /\
  final_answer (short_circuit NOT_FOUND) = NOT_FOUND /\
  In (Text NOT_FOUND) (GENERATION_PROMPT config).
Proof.
  split_and!.
  - apply verify_not_found. by vm_compute.
  - intros raw_answer. apply verify_not_found.
  - done.
  - done.
  - unfold config. cbn [GENERATION_PROMPT]. do 6 right. left. unfold NOT_FOUND. reflexivity.
Qed.

(** The loop over documents that have their keys and get an answer, up to
    a document for which the engine raises. *)
Lemma verify_sources_engine_error claim before doc after vs us log e :
  Forall (fun d =>
            is_Some (book_title (metadata d)) /\ is_Some (page (metadata d)) /\
            exists text, llm (verification_call cfg (page_content d) claim) = Ok text)
    before ->
  is_Some (book_title (metadata doc)) ->
  is_Some (page (metadata doc)) ->
  llm (verification_call cfg (page_content doc) claim) = Raise e ->
  verify_sources claim (before ++ doc :: after) vs us log =
    (Raise e, log ++ verification_calls cfg claim (before ++ [doc])).
Proof.
  intros Hbefore [t Ht] [p Hp] He. revert vs us log.
  induction Hbefore as [|d before (Hdt & Hdp & text & Htext) Hbefore IH]; intros vs us log.
  - cbn [app Client.verify_sources]. rewrite Ht, Hp. cbn [subscript]. by rewrite He.
  - cbn [app Client.verify_sources].
    destruct Hdt as [dt ->], Hdp as [dp ->]. cbn [subscript]. rewrite Htext.
    destruct (contains _ _); rewrite IH; cbn [verification_calls map app];
      by rewrite <- app_assoc.
Qed.

(** C9, as amended. In claim-level verification an exception the generation
    engine raises during the verification call of a chunk is not handled.
    Take an answer that does not hold the canonical sentence and whose
    claim is not empty, and a bundle in which the engine answers for the
    chunks before [doc] and raises [e] for [doc], all of them holding the
    keys the log lines read. When the loop is reached (the names [re] and
    [formatter] bound), [verify] raises [e] itself, after the calls for the
    chunks up to [doc] and with none for the chunks after it; in the file as
    written it has raised [NameError] before the first call. Either way
    no verdict is produced, for [doc] or for any other chunk. A chunk is
    listed as unverified only when its call returned a text without the
    affirmative token: a verdict, when there is one, comes from a loop that
    was reached and from calls that all returned. *)
Theorem verification_error_propagates raw_answer before doc after log e :
  contains NOT_FOUND raw_answer = false ->
  claim_of raw_answer <> [] ->
  Forall (fun d =>
            is_Some (book_title (metadata d)) /\ is_Some (page (metadata d)) /\
            exists text,
              llm (verification_call cfg (page_content d) (claim_of raw_answer)) = Ok text)
    before ->
  is_Some (book_title (metadata doc)) ->
  is_Some (page (metadata doc)) ->
  llm (verification_call cfg (page_content doc) (claim_of raw_answer)) = Raise e ->
  verify raw_answer (before ++ doc :: after) log =
    (if re_imported b then
       if formatter_bound b then
         (Raise e, log ++ verification_calls cfg (claim_of raw_answer) (before ++ [doc]))
       else (Raise (AttributeError "formatter"), log)
     else (Raise (NameError "re"), log)) /\
  (forall resp log', verify raw_answer (before ++ doc :: after) log <> (Ok resp, log')) /\
  (forall source_docs resp log',
     verify raw_answer source_docs log = (Ok resp, log') ->
     b = both_bound /\
     unverified_sources resp =
       map metadata (List.filter (denies cfg llm (claim_of raw_answer)) source_docs) /\
     Forall (fun d => exists text,
       llm (verification_call cfg (page_content d) (claim_of raw_answer)) = Ok text)
       source_docs).
Proof.
  intros Hc Hclaim Hbefore Ht Hp He.
  assert (Heq : verify raw_answer (before ++ doc :: after) log =
    (if re_imported b then
       if formatter_bound b then
         (Raise e, log ++ verification_calls cfg (claim_of raw_answer) (before ++ [doc]))
       else (Raise (AttributeError "formatter"), log)
     else (Raise (NameError "re"), log))).
  { unfold Client.verify, claim_of in *. rewrite Hc.
    unfold global_re, self_formatter.
    destruct (re_imported b); [|done].
    destruct (strip _) as [|c claim] eqn:Hs; [done|].
    destruct (formatter_bound b); [|done].
    by rewrite (verify_sources_engine_error _ _ _ _ _ _ _ _ Hbefore Ht Hp He). }
  split_and!.
  - exact Heq.
  - intros resp log'. rewrite Heq. by destruct (re_imported b), (formatter_bound b).
  - intros source_docs resp log' Hv.
    by destruct (verify_verdict _ _ _ _ _ Hv Hc Hclaim) as (_ & ? & _ & _ & _ & ? & ?).
Qed.
End Facts.

(** C4. The verifier of the file never reaches the verdict of the loop: on
    an answer that does not hold the canonical sentence, [verify] raises
    [NameError] at [re.sub], because the module does not import [re]. So it
    does on a bundle with one chunk the engine affirms and one it denies,
    for which the verdict of the loop would be [is_fully_verified = false]. *)
Theorem verify_raises_name_error `{Unicode} cfg llm raw_answer source_docs log :
  verify as_written cfg llm raw_answer source_docs log =
    (if contains NOT_FOUND raw_answer
     then (Ok (short_circuit raw_answer), log)
     else (Raise (NameError "re"), log)) /\
  affirms config Examples.engine (u "Five is five.") Examples.doc_T_A_5 = true /\
  affirms config Examples.engine (u "Five is five.") Examples.doc_T_A_7 = false /\
  verify as_written config Examples.engine (u "Five is five.")
    [Examples.doc_T_A_5; Examples.doc_T_A_7] [] = (Raise (NameError "re"), []).
Proof.
  split_and!; [apply verify_as_written_eq|by vm_compute|by vm_compute|by vm_compute].
Qed.

(** The verdict of the loop on that input, with the two names bound: the
    conjunction the comment of the loop announces. *)
Lemma affirmed_and_denied_is_not_fully_verified :
  exists resp log,
    verify both_bound config Examples.engine (u "Five is five.")
      [Examples.doc_T_A_5; Examples.doc_T_A_7] [] = (Ok resp, log) /\
    verified_sources resp = [metadata Examples.doc_T_A_5] /\
    unverified_sources resp = [metadata Examples.doc_T_A_7] /\
    is_fully_verified resp = false.
Proof. eexists _, _. split_and!; by vm_compute. Qed.

(** C9. The engine fails on the second chunk of two: with the two names
    bound the error leaves [verify] after the two calls, the chunk is not
    listed as unverified and the first chunk gets no verdict; in the file
    as it is, [verify] has already raised [NameError]. *)
Lemma verification_error_is_not_isolated :
  verify both_bound config Examples.failing_engine (u "Five is five.")
    [Examples.doc_T_A_5; Examples.doc_T_A_7] [] =
    (Raise (RuntimeError "engine"),
     verification_calls config (u "Five is five.")
       [Examples.doc_T_A_5; Examples.doc_T_A_7]) /\
  verify as_written config Examples.failing_engine (u "Five is five.")
    [Examples.doc_T_A_5; Examples.doc_T_A_7] [] = (Raise (NameError "re"), []).
Proof. split; by vm_compute. Qed.

(** C9 as amended, on a bundle of three chunks whose second makes the
    engine fail. *)
Lemma verification_error_propagates_witness :
  verify both_bound config Examples.failing_engine (u "Five is five.")
    ([Examples.doc_T_A_5] ++ Examples.doc_T_A_7 :: [Examples.capital]) [] =
    (if re_imported both_bound then
       if formatter_bound both_bound then
         (Raise (RuntimeError "engine"),
          [] ++ verification_calls config (claim_of (u "Five is five."))
                  ([Examples.doc_T_A_5] ++ [Examples.doc_T_A_7]))
       else (Raise (AttributeError "formatter"), [])
     else (Raise (NameError "re"), [])) /\
  (forall resp log',
     verify both_bound config Examples.failing_engine (u "Five is five.")
       ([Examples.doc_T_A_5] ++ Examples.doc_T_A_7 :: [Examples.capital]) [] <>
     (Ok resp, log')) /\
  (forall source_docs resp log',
     verify both_bound config Examples.failing_engine (u "Five is five.") source_docs [] =
       (Ok resp, log') ->
     both_bound = both_bound /\
     unverified_sources resp =
       map metadata
         (List.filter (denies config Examples.failing_engine (claim_of (u "Five is five.")))
            source_docs) /\
     Forall (fun d => exists text,
       Examples.failing_engine
         (verification_call config (page_content d) (claim_of (u "Five is five."))) =
       Ok text)
       source_docs).
Proof.
  apply (verification_error_propagates both_bound config Examples.failing_engine
           (u "Five is five.") [Examples.doc_T_A_5] Examples.doc_T_A_7 [Examples.capital]
           [] (RuntimeError "engine")).
  - by vm_compute.
  - by vm_compute.
  - constructor; [|constructor]. split_and!; [by eexists|by eexists|].
    eexists. vm_compute. reflexivity.
  - by eexists.
  - by eexists.
  - vm_compute. reflexivity.
Defined.
End VerifyFacts.

(** ** The context of the generator *)
Module ContextFacts.
Import Py Re Data Spec.

Lemma join_nonempty sep part parts :
  part <> [] -> join sep (part :: parts) <> [].
Proof.
  destruct part as [|c part]; [done|]. intros _. by destruct parts.
Qed.

Lemma monolith_context_nonempty (documents : list Document) :
  documents <> [] -> Monolith._format_context documents <> [].
Proof.
  destruct documents as [|doc documents]; [done|]. intros _.
  unfold Monolith._format_context. cbn [map]. apply join_nonempty.
  replace (u "[Kaynak: ") with (91%N :: u "Kaynak: ") by (vm_compute; reflexivity).
  done.
Qed.

(** C7, as amended. On no documents the context assembler of the client
    returns the sentinel [NO_SOURCES], which is not the empty string. The
    one of the single-process application has no sentinel: on no documents
    it returns the empty string, on some it returns a string that is not
    empty, and the stream of a query only builds a context, for the one
    call of the engine, from a bundle that is not empty. *)
Theorem context_of_no_documents {S : Type} (ltb : S -> S -> bool)
    (_config : Monolith.AppConfig) (retriever_invoke : Z -> str -> list Document)
    (predict : list (str * str) -> list S) (_llm : LlmCall -> list chunk)
    (user_query : str) :
  Client._format_context [] = Client.NO_SOURCES /\
  Client.NO_SOURCES <> [] /\
  Monolith._format_context [] = [] /\
  (forall documents, documents <> [] -> Monolith._format_context documents <> []) /\
  (forall call,
     In (Generate call)
       (Monolith.for_each ltb _config retriever_invoke predict _llm
          (Monolith.stream_query_response user_query) []).2 ->
     exists reranked_docs, reranked_docs <> [] /\
       call = Monolith.generation_call _config user_query reranked_docs).
Proof.
  split_and!; [done|by vm_compute|done|apply monolith_context_nonempty|].
  intros call. unfold Monolith.stream_query_response.
  rewrite StreamFacts.for_each_start.
  destruct (evidence _ _ _ _ _) as [|d ds] eqn:He; simpl.
  - by intros [|[]].
  - intros [|[[= <-]|[]]]; [done|]. by exists (d :: ds).
Qed.

(** C7: in the single-process application the context of no documents is
    the empty string. *)
Lemma monolith_context_of_no_documents_is_empty :
  Monolith._format_context [] = [].
Proof. reflexivity. Qed.
End ContextFacts.


(** ** One bundle per query *)
Module BundleFacts.
Import Py Re Data Spec.

Section Bundle.
Context `{Unicode} {S : Type} (ltb : S -> S -> bool).
Variable _config : Monolith.AppConfig.
Variable retriever_invoke : Z -> str -> list Document.
Variable predict : list (str * str) -> list S.
Variable _llm : LlmCall -> list chunk.
Variable b : Client.Bindings.
Variable cfg : Client.AppConfig.
Variable llm : LlmCall -> result str.
Variable retrieve_documents : str -> option (list Document).

(** The verifier of the single-process application gets the bundle of the
    stream. *)
Lemma monolith_same_bundle user_query answer source_docs :
  In (Verify answer source_docs)
    (Monolith._handle_query ltb _config retriever_invoke predict _llm user_query).2 ->
  source_docs = evidence ltb _config retriever_invoke predict user_query /\
  (Monolith._handle_query ltb _config retriever_invoke predict _llm user_query).2 =
    [Retrieve user_query;
     Generate (Monolith.generation_call _config user_query source_docs);
     Verify answer source_docs].
Proof.
  rewrite StreamFacts.handle_query_eq.
  destruct (evidence _ _ _ _ _) as [|d ds] eqn:He; simpl.
  - by intros [|[]].
  - intros [|[|[[= <- <-]|[]]]]; done.
Qed.

Lemma client_handle_query_log query :
  (Client._handle_query ltb b cfg predict llm retrieve_documents query).2 =
  match retrieve_documents query with
  | None | Some [] => [Retrieve query]
  | Some retrieved_docs =>
    match Client.generate_answer ltb b cfg predict llm query retrieved_docs
            [Retrieve query] with
    | (Raise _, log) => log
    | (Ok (raw_answer, source_docs), log) =>
      (Client.verify b cfg llm raw_answer source_docs
         (log ++ [Verify raw_answer source_docs])).2
    end
  end.
Proof.
  unfold Client._handle_query.
  destruct (retrieve_documents query) as [[|d ds]|]; try done.
  destruct (Client.generate_answer _ _ _ _ _ _ _ _) as [[[raw src]|e] log]; [|done].
  by destruct (Client.verify _ _ _ _ _ _) as [[r|e] log'].
Qed.

Lemma client_generate_answer_ok query retrieved_docs log raw_answer source_docs log' :
  Client.generate_answer ltb b cfg predict llm query retrieved_docs log =
    (Ok (raw_answer, source_docs), log') ->
  source_docs = Client._rerank_documents ltb cfg predict query retrieved_docs /\
  log' = log ++ [Generate (Client.generation_call cfg query source_docs)].
Proof.
  unfold Client.generate_answer.
  destruct (Client.self_formatter b); [|done].
  destruct (llm _); [|done]. by intros [= <- <- <-].
Qed.

Lemma client_generate_answer_raise query retrieved_docs log e log' :
  Client.generate_answer ltb b cfg predict llm query retrieved_docs log =
    (Raise e, log') ->
  exists added, log' = log ++ added /\ Forall is_generate added.
Proof.
  unfold Client.generate_answer.
  destruct (Client.self_formatter b).
  - destruct (llm _); [done|]. intros [= <- <-]. eexists. split; [done|].
    by repeat constructor.
  - intros [= <- <-]. exists []. by rewrite app_nil_r.
Qed.

(** The verifier of the client gets the documents of [generate_answer]. *)
Lemma client_same_bundle query answer source_docs :
  In (Verify answer source_docs)
    (Client._handle_query ltb b cfg predict llm retrieve_documents query).2 ->
  exists retrieved_docs rest,
    retrieve_documents query = Some retrieved_docs /\
    source_docs = Client._rerank_documents ltb cfg predict query retrieved_docs /\
    Client.generate_answer ltb b cfg predict llm query retrieved_docs [Retrieve query] =
      (Ok (answer, source_docs),
       [Retrieve query; Generate (Client.generation_call cfg query source_docs)]) /\
    (Client._handle_query ltb b cfg predict llm retrieve_documents query).2 =
      [Retrieve query;
       Generate (Client.generation_call cfg query source_docs);
       Verify answer source_docs] ++ rest /\
    Forall is_generate rest.
Proof.
  rewrite client_handle_query_log.
  destruct (retrieve_documents query) as [[|d ds]|]; [by intros [|[]]| |by intros [|[]]].
  destruct (Client.generate_answer _ _ _ _ _ _ _ _) as [[[raw src]|e] log] eqn:Hg.
  - destruct (client_generate_answer_ok _ _ _ _ _ _ Hg) as [Hsrc Hlog]. subst src log.
    destruct (Client.verify _ _ _ _ _ _) as [r log'] eqn:Hv.
    apply VerifyFacts.verify_log in Hv as (rest & -> & Hrest). simpl.
    intros [|[|[[= <- <-]|Hin]]]; try done.
    + by exists (d :: ds), rest.
    + rewrite List.Forall_forall in Hrest. by destruct (Hrest _ Hin).
  - apply client_generate_answer_raise in Hg as (added & -> & Hadd). simpl.
    intros [|Hin]; [done|].
    rewrite List.Forall_forall in Hadd. by destruct (Hadd _ Hin).
Qed.

(** C8. One bundle per query. In the single-process application, when the
    verifier is handed an answer and a list of documents, that list is the
    evidence bundle the stream yielded first, the log of the query is one
    retrieval, one call of the engine and the verification, and the prompt
    of that call holds the context built from that very list. In the
    client, whatever names the file binds, when the verifier is handed a
    list it is the one [generate_answer] returned with the answer, built
    from the one retrieval of the query, and the prompt of the generation
    call holds the context built from it; what follows in the log are
    calls of the engine only. *)
Theorem same_bundle user_query answer source_docs :
  (In (Verify answer source_docs)
     (Monolith._handle_query ltb _config retriever_invoke predict _llm user_query).2 ->
   source_docs = evidence ltb _config retriever_invoke predict user_query /\
   (Monolith._handle_query ltb _config retriever_invoke predict _llm user_query).2 =
     [Retrieve user_query;
      Generate (Monolith.generation_call _config user_query source_docs);
      Verify answer source_docs] /\
   prompt (Monolith.generation_call _config user_query source_docs) =
     format (Monolith.GENERATION_PROMPT _config)
       [("context"%string, Monolith._format_context source_docs);
        ("question"%string, user_query)]) /\
  (In (Verify answer source_docs)
     (Client._handle_query ltb b cfg predict llm retrieve_documents user_query).2 ->
   exists retrieved_docs rest,
     retrieve_documents user_query = Some retrieved_docs /\
     Client.generate_answer ltb b cfg predict llm user_query retrieved_docs
       [Retrieve user_query] =
       (Ok (answer, source_docs),
        [Retrieve user_query;
         Generate (Client.generation_call cfg user_query source_docs)]) /\
     (Client._handle_query ltb b cfg predict llm retrieve_documents user_query).2 =
       [Retrieve user_query;
        Generate (Client.generation_call cfg user_query source_docs);
        Verify answer source_docs] ++ rest /\
     Forall is_generate rest /\
     prompt (Client.generation_call cfg user_query source_docs) =
       format (Client.GENERATION_PROMPT cfg)
         [("context"%string, Client._format_context source_docs);
          ("question"%string, user_query)]).
Proof.
  split.
  - intros Hin. destruct (monolith_same_bundle _ _ _ Hin) as [? ?]. done.
  - intros Hin.
    destruct (client_same_bundle _ _ _ Hin) as (retrieved & rest & ? & ? & ? & ? & ?).
    exists retrieved, rest. done.
Qed.
End Bundle.

(** C8, on the end-to-end scenario: one chunk in the store, and the answer
    that cites it. *)
Lemma same_bundle_witness :
  (Monolith._handle_query Z.ltb Monolith.APP_CONFIG Examples.store Examples.by_length
     Examples.engine_stream (u "What is the capital of X?")).2 =
    [Retrieve (u "What is the capital of X?");
     Generate (Monolith.generation_call Monolith.APP_CONFIG
                 (u "What is the capital of X?") [Examples.capital]);
     Verify (u "X's capital is Y. [Kaynak: Book1 - Author1, Sayfa: 10]")
       [Examples.capital]].
Proof.
  destruct (same_bundle Z.ltb Monolith.APP_CONFIG Examples.store Examples.by_length
    Examples.engine_stream both_bound Client.config Examples.engine Examples.server
    (u "What is the capital of X?")
    (u "X's capital is Y. [Kaynak: Book1 - Author1, Sayfa: 10]")
    [Examples.capital]) as [Hmonolith _].
  apply Hmonolith. vm_compute. right. right. left. reflexivity.
Defined.
End BundleFacts.

(** ** Strings: stripping and joining *)
Module StrFacts.
Import Py Shape.

Lemma lstrip_head s :
  match lstrip s with
  | [] => True
  | c :: _ => isspace c = false
  end.
Proof.
  induction s as [|c s IH]; simpl; [done|].
  destruct (isspace c) eqn:Hc; [done|]. simpl. done.
Qed.

Lemma lstrip_fixed c s : isspace c = false -> lstrip (c :: s) = c :: s.
Proof. intros Hc. simpl. by rewrite Hc. Qed.

Lemma lstrip_idem s : lstrip (lstrip s) = lstrip s.
Proof.
  pose proof (lstrip_head s) as Hh.
  destruct (lstrip s) as [|c t]; [done|]. by apply lstrip_fixed.
Qed.

Lemma lstrip_nil_iff s : lstrip s = [] <-> forallb isspace s = true.
Proof.
  induction s as [|c s IH]; simpl; [done|].
  destruct (isspace c); simpl; [done|]. split; discriminate.
Qed.

Lemma lstrip_length s : length (lstrip s) <= length s.
Proof.
  induction s as [|c s IH]; simpl; [done|].
  destruct (isspace c); simpl; lia.
Qed.

Lemma filter_lstrip s :
  List.filter nonspace (lstrip s) = List.filter nonspace s.
Proof.
  induction s as [|c s IH]; simpl; [done|]. unfold nonspace at 2.
  destruct (isspace c) eqn:Hc; simpl; [done|].
  unfold nonspace at 1. by rewrite Hc.
Qed.

Lemma rstrip_snoc s c :
  rstrip (s ++ [c]) = if isspace c then rstrip s else s ++ [c].
Proof.
  unfold rstrip. rewrite rev_app_distr. simpl.
  destruct (isspace c); [done|]. simpl. by rewrite rev_involutive.
Qed.

Lemma rstrip_cons c s : isspace c = false -> rstrip (c :: s) = c :: rstrip s.
Proof.
  intros Hc. induction s as [|d s IH] using rev_ind.
  - change [c] with ([] ++ [c]). rewrite rstrip_snoc, Hc. done.
  - rewrite app_comm_cons, !rstrip_snoc. destruct (isspace d); [done|]. done.
Qed.

Lemma rstrip_idem s : rstrip (rstrip s) = rstrip s.
Proof. unfold rstrip. by rewrite rev_involutive, lstrip_idem. Qed.

Lemma rstrip_length s : length (rstrip s) <= length s.
Proof.
  unfold rstrip. rewrite length_rev.
  etransitivity; [apply lstrip_length|]. by rewrite length_rev.
Qed.

Lemma filter_rstrip s :
  List.filter nonspace (rstrip s) = List.filter nonspace s.
Proof.
  induction s as [|c s IH] using rev_ind; [done|].
  rewrite rstrip_snoc. destruct (isspace c) eqn:Hc; [|done].
  rewrite IH, List.filter_app. simpl. unfold nonspace at 3. rewrite Hc. simpl.
  by rewrite app_nil_r.
Qed.

(** What [strip] returns is empty or begins with a character that is not
    whitespace; stripping it again changes nothing. *)
Lemma strip_head s :
  match strip s with
  | [] => True
  | c :: _ => isspace c = false
  end.
Proof.
  unfold strip. pose proof (lstrip_head s) as Hh.
  destruct (lstrip s) as [|c t]; [done|]. by rewrite rstrip_cons.
Qed.

Lemma strip_idem s : strip (strip s) = strip s.
Proof.
  pose proof (strip_head s) as Hh. unfold strip at 1.
  destruct (strip s) as [|c t] eqn:Hs; [done|].
  rewrite lstrip_fixed by done. rewrite <- Hs. unfold strip. apply rstrip_idem.
Qed.

Lemma strip_length s : length (strip s) <= length s.
Proof.
  unfold strip. etransitivity; [apply rstrip_length|apply lstrip_length].
Qed.

Lemma filter_strip s :
  List.filter nonspace (strip s) = List.filter nonspace s.
Proof. unfold strip. by rewrite filter_rstrip, filter_lstrip. Qed.

Lemma filter_nonspace_nil s :
  List.filter nonspace s = [] <-> forallb isspace s = true.
Proof.
  induction s as [|c s IH]; simpl; [done|]. unfold nonspace at 1.
  destruct (isspace c); simpl; [done|]. split; discriminate.
Qed.

Lemma strip_nil_iff s : strip s = [] <-> forallb isspace s = true.
Proof.
  rewrite <- filter_nonspace_nil, <- filter_strip. split; [by intros ->|].
  pose proof (strip_head s) as Hh. destruct (strip s) as [|c t]; [done|].
  simpl. unfold nonspace at 1. by rewrite Hh.
Qed.

Lemma strip_cons_space c s : isspace c = true -> strip (c :: s) = strip s.
Proof. intros Hc. unfold strip. simpl. by rewrite Hc. Qed.

Lemma strip_fixed_iff_ends s :
  strip s = s -> s = [] \/ exists c t, s = c :: t /\ isspace c = false.
Proof.
  intros Hs. pose proof (strip_head s) as Hh. rewrite Hs in Hh.
  destruct s as [|c t]; [by left|]. right. eauto.
Qed.

(** [join] *)
Lemma join_cons sep p q ps : join sep (p :: q :: ps) = p ++ sep ++ join sep (q :: ps).
Proof. done. Qed.

Lemma join_snoc sep ps p :
  ps <> [] -> join sep (ps ++ [p]) = join sep ps ++ sep ++ p.
Proof.
  induction ps as [|q ps IH]; [done|]. intros _.
  destruct ps as [|q' ps]; [done|].
  change (join sep ((q :: q' :: ps) ++ [p]))
    with (q ++ sep ++ join sep ((q' :: ps) ++ [p])).
  rewrite IH by done. rewrite join_cons. by rewrite <- !app_assoc.
Qed.

Lemma filter_join_space ps :
  List.filter nonspace (join (u " ") ps) = List.filter nonspace (concat ps).
Proof.
  induction ps as [|p ps IH]; [done|].
  destruct ps as [|q ps]; [by rewrite concat_cons, app_nil_r|].
  rewrite join_cons, concat_cons, !List.filter_app, IH. done.
Qed.
End StrFacts.

(** ** Paragraphs of sentences *)
Module ParagraphFacts.
Import Py Re Data Shape StrFacts DataProcessor.

Lemma blank_false_nonempty s : blank s = false -> s <> [].
Proof. by intros Hb ->. Qed.

Lemma blank_false_filter s : blank s = false -> List.filter nonspace s <> [].
Proof.
  unfold blank. intros Hb Hf.
  apply filter_nonspace_nil, strip_nil_iff in Hf. by rewrite Hf in Hb.
Qed.

Lemma paragraph_of_nonempty g :
  g <> [] -> Forall (fun s => blank s = false) g -> paragraph_of g <> [].
Proof.
  intros Hg Hall Hp. unfold paragraph_of in Hp.
  apply strip_nil_iff, filter_nonspace_nil in Hp.
  rewrite filter_join_space in Hp.
  destruct g as [|s g]; [done|]. apply Forall_cons in Hall as [Hs _].
  rewrite concat_cons, List.filter_app in Hp. apply app_eq_nil in Hp as [Hp _].
  by apply blank_false_filter in Hs.
Qed.

Section Facts.
Context `{Unicode}.
Variable cfg : AppConfig.
Variable sent_tokenize : str -> result (list str).

#[local] Abbreviation add_sentence := (add_sentence cfg).
#[local] Abbreviation _create_semantic_paragraphs :=
  (_create_semantic_paragraphs cfg sent_tokenize).

Lemma filling_strip cur g : filling cur g -> g <> [] -> strip cur = paragraph_of g.
Proof.
  intros [[-> _]|[_ [->| ->]]] Hg; [done|done|].
  unfold paragraph_of. by apply strip_cons_space.
Qed.

Lemma filling_nonempty cur g :
  filling cur g -> Forall (fun s => blank s = false) g -> g <> [] -> cur <> [].
Proof.
  intros Hf Hall Hg Hcur. pose proof (filling_strip _ _ Hf Hg) as Hs.
  rewrite Hcur in Hs. symmetry in Hs. by apply paragraph_of_nonempty in Hs.
Qed.

Lemma add_sentence_blank st s : blank s = true -> add_sentence st s = st.
Proof. unfold blank, DataProcessor.add_sentence. destruct st, (strip s); done. Qed.

(** The loop keeps the sentences in runs: the closed paragraphs are the
    paragraphs of the runs [groups], the open one holds the run [g]. *)
Lemma add_sentences_runs sentences groups g cur :
  Forall (fun g => g <> []) groups ->
  Forall (fun s => blank s = false) g ->
  filling cur g ->
  exists groups' g' cur',
    foldl add_sentence (map paragraph_of groups, cur) sentences =
      (map paragraph_of groups', cur') /\
    concat groups' ++ g' =
      concat groups ++ g ++ List.filter (fun s => negb (blank s)) sentences /\
    Forall (fun g => g <> []) groups' /\
    Forall (fun s => blank s = false) g' /\
    filling cur' g'.
Proof.
  revert groups g cur.
  induction sentences as [|s sentences IH]; intros groups g cur Hgroups Hg Hfill;
    cbn [foldl List.filter].
  - exists groups, g, cur. by rewrite !app_nil_r.
  - destruct (blank s) eqn:Hb; cbn [negb].
    + rewrite add_sentence_blank by done. by apply IH.
    + assert (Hstep : exists groups1 g1 cur1,
        add_sentence (map paragraph_of groups, cur) s = (map paragraph_of groups1, cur1) /\
        concat groups1 ++ g1 = concat groups ++ g ++ [s] /\
        Forall (fun g => g <> []) groups1 /\
        Forall (fun s => blank s = false) g1 /\
        filling cur1 g1).
      { unfold DataProcessor.add_sentence. unfold blank in Hb.
        destruct (strip s) as [|c0 t0] eqn:Hs; [done|].
        destruct (_ <? _)%Z.
        - destruct cur as [|c cur].
          + exists groups, [s], s.
            destruct Hfill as [[-> _]|[Hne Hcur]].
            * split_and!; [done|done|done| |].
              -- constructor; [|done]. unfold blank. by rewrite Hs.
              -- right. split; [done|]. by left.
            * exfalso. apply (filling_nonempty [] g); [|done|done|done].
              right. done.
          + assert (Hne : g <> []).
            { destruct Hfill as [[_ ?]|[? _]]; done. }
            exists (groups ++ [g]), [s], s.
            split_and!.
            * rewrite map_app. simpl.
              by rewrite (filling_strip _ _ Hfill Hne).
            * rewrite concat_app. simpl. by rewrite app_nil_r, <- app_assoc.
            * apply Forall_app. split; [done|]. by constructor.
            * constructor; [|done]. unfold blank. by rewrite Hs.
            * right. split; [done|]. by left.
        - exists groups, (g ++ [s]), (cur ++ u " " ++ s).
          split_and!; [done|done|done| |].
          + apply Forall_app. split; [done|]. constructor; [|done].
            unfold blank. by rewrite Hs.
          + right. split; [by destruct g|].
            destruct Hfill as [[-> ->]|[Hne [->| ->]]].
            * by right.
            * left. by rewrite join_snoc.
            * right. rewrite join_snoc by done. by rewrite <- !app_assoc. }
      destruct Hstep as (groups1 & g1 & cur1 & -> & Hcat & Hgroups1 & Hg1 & Hfill1).
      destruct (IH groups1 g1 cur1 Hgroups1 Hg1 Hfill1)
        as (groups' & g' & cur' & -> & Hcat' & ? & ? & ?).
      exists groups', g', cur'. split_and!; try done.
      rewrite Hcat', app_assoc, Hcat, <- !app_assoc. done.
Qed.

Lemma paragraphs_runs text sentences :
  sent_tokenize text = Ok sentences ->
  exists groups,
    _create_semantic_paragraphs text = map paragraph_of groups /\
    concat groups = List.filter (fun s => negb (blank s)) sentences /\
    Forall (fun g => g <> []) groups.
Proof.
  intros Htok. unfold DataProcessor._create_semantic_paragraphs. rewrite Htok.
  destruct (add_sentences_runs sentences [] [] [])
    as (groups & g & cur & Hfold & Hcat & Hgroups & Hg & Hfill);
    [done|done|by left|].
  change (map paragraph_of []) with (@nil str) in Hfold.
  simpl in Hcat.
  match goal with
  | |- context [foldl ?f ?a ?l] =>
    replace (foldl f a l) with (map paragraph_of groups, cur)
      by (symmetry; exact Hfold)
  end.
  destruct g as [|s g].
  - destruct Hfill as [[_ ->]|[? _]]; [|done].
    exists groups. rewrite app_nil_r in Hcat. done.
  - assert (Hcur : cur <> []) by by apply (filling_nonempty _ (s :: g)).
    destruct cur as [|c cur]; [done|].
    exists (groups ++ [s :: g]). split_and!.
    + rewrite map_app. simpl. by rewrite (filling_strip _ _ Hfill).
    + rewrite concat_app. simpl. by rewrite app_nil_r.
    + apply Forall_app. split; [done|]. by constructor.
Qed.

(** The loop keeps the paragraphs within the chunk size: the open paragraph
    grows only while it fits, and a sentence that alone exceeds the size
    stays on its own. *)
Lemma add_sentences_size all sentences ps cur :
  incl sentences all ->
  Forall (fits (CHUNK_SIZE cfg) all) ps ->
  cur = [] \/ fits (CHUNK_SIZE cfg) all (strip cur) ->
  exists ps' cur',
    foldl add_sentence (ps, cur) sentences = (ps', cur') /\
    Forall (fits (CHUNK_SIZE cfg) all) ps' /\
    (cur' = [] \/ fits (CHUNK_SIZE cfg) all (strip cur')).
Proof.
  revert ps cur. induction sentences as [|s sentences IH]; intros ps cur Hincl Hps Hcur;
    cbn [foldl].
  - by exists ps, cur.
  - assert (Hs : In s all) by (apply Hincl; by left).
    assert (Hincl' : incl sentences all) by (intros x Hx; apply Hincl; by right).
    unfold DataProcessor.add_sentence at 2.
    destruct (strip s) as [|c0 t0] eqn:Hstrip; [by apply IH|].
    destruct (_ <? _)%Z eqn:Hlt.
    + apply IH; [done| |right; right; by exists s].
      destruct cur; [done|]. apply Forall_app. split; [done|].
      constructor; [|done]. by destruct Hcur.
    + apply IH; [done|done|]. right. left.
      apply Z.ltb_ge in Hlt.
      pose proof (strip_length (cur ++ u " " ++ s)) as Hlen.
      rewrite !length_app in Hlen. change (length (u " ")) with 1 in Hlen. lia.
Qed.

Lemma paragraphs_fit text sentences :
  sent_tokenize text = Ok sentences ->
  Forall (fits (CHUNK_SIZE cfg) sentences) (_create_semantic_paragraphs text).
Proof.
  intros Htok. unfold DataProcessor._create_semantic_paragraphs. rewrite Htok.
  destruct (add_sentences_size sentences sentences [] [])
    as (ps & cur & Hfold & Hps & Hcur); [apply incl_refl|done|by left|].
  match goal with
  | |- context [foldl ?f ?a ?l] =>
    replace (foldl f a l) with (ps, cur) by (symmetry; exact Hfold)
  end.
  destruct cur as [|c cur]; [done|].
  apply Forall_app. split; [done|]. constructor; [|done]. by destruct Hcur.
Qed.

(** X1. Paragraphs are runs of sentences. When the tokenizer returns, the
    paragraphs are made of the sentences that are not blank, each sentence
    in exactly one paragraph and in the order of the text: the sentences
    split into consecutive non-empty runs, and each paragraph is the
    sentences of its run joined by single spaces and stripped. No sentence
    is cut, dropped, repeated or moved. *)
Theorem paragraphs_are_runs_of_sentences text sentences :
  sent_tokenize text = Ok sentences ->
  exists runs : list (list str),
    _create_semantic_paragraphs text =
      map (fun run => strip (join (u " ") run)) runs /\
    concat runs = List.filter (fun s => negb (blank s)) sentences /\
    Forall (fun run => run <> []) runs.
Proof. apply paragraphs_runs. Qed.

Lemma paragraphs_trimmed text sentences p :
  sent_tokenize text = Ok sentences ->
  In p (_create_semantic_paragraphs text) ->
  0 < length p /\ strip p = p.
Proof.
  intros Htok Hp. destruct (paragraphs_runs text sentences Htok) as (runs & Heq & Hcat & Hne).
  rewrite Heq in Hp. apply in_map_iff in Hp as (g & <- & Hg).
  split; [|apply strip_idem].
  assert (Hpar : paragraph_of g <> []).
  { apply paragraph_of_nonempty.
    - rewrite List.Forall_forall in Hne. by apply Hne.
    - apply List.Forall_forall. intros s Hs.
      assert (Hin : In s (concat runs)) by (apply List.in_concat; by exists g).
      rewrite Hcat in Hin. apply List.filter_In in Hin as [_ Hb].
      by apply negb_true_iff in Hb. }
  unfold paragraph_of in *. destruct (strip _); [done|simpl; lia].
Qed.

(** X2. No empty paragraph. When the tokenizer returns, every paragraph
    holds at least one character and neither begins nor ends with
    whitespace, whatever whitespace surrounds the sentences. *)
Theorem paragraphs_are_trimmed text sentences p :
  sent_tokenize text = Ok sentences ->
  In p (_create_semantic_paragraphs text) ->
  0 < length p /\ strip p = p.
Proof. apply paragraphs_trimmed. Qed.

(** X3. The chunk size. When the tokenizer returns, every paragraph has at
    most [CHUNK_SIZE] characters or is one of the sentences, stripped: a
    paragraph is longer than the size only when it is a sentence that is
    too long on its own. *)
Theorem paragraph_fits_or_is_one_sentence text sentences p :
  sent_tokenize text = Ok sentences ->
  In p (_create_semantic_paragraphs text) ->
  (Z.of_nat (length p) <= CHUNK_SIZE cfg)%Z \/
  exists s, In s sentences /\ p = strip s.
Proof.
  intros Htok Hp. pose proof (paragraphs_fit text sentences Htok) as Hfit.
  rewrite List.Forall_forall in Hfit. by apply Hfit.
Qed.
End Facts.

Lemma paragraphs_are_runs_of_sentences_witness :
  exists runs : list (list str),
    _create_semantic_paragraphs IngestExamples.small IngestExamples.tokenizer [] =
      map (fun run => strip (join (u " ") run)) runs /\
    concat runs =
      List.filter (fun s => negb (blank s)) IngestExamples.sentences /\
    Forall (fun run => run <> []) runs.
Proof.
  apply (paragraphs_are_runs_of_sentences IngestExamples.small IngestExamples.tokenizer
           [] IngestExamples.sentences).
  reflexivity.
Defined.

Lemma paragraphs_are_trimmed_witness :
  0 < length (u "One.  Two two.") /\ strip (u "One.  Two two.") = u "One.  Two two.".
Proof.
  apply (paragraphs_are_trimmed IngestExamples.small IngestExamples.tokenizer
           [] IngestExamples.sentences (u "One.  Two two.")).
  - reflexivity.
  - vm_compute. left. reflexivity.
Defined.

Lemma paragraph_fits_or_is_one_sentence_witness :
  (Z.of_nat (length (u "A sentence longer than sixteen.")) <= 16)%Z \/
  exists s, In s IngestExamples.sentences /\
    u "A sentence longer than sixteen." = strip s.
Proof.
  apply (paragraph_fits_or_is_one_sentence IngestExamples.small IngestExamples.tokenizer
           [] IngestExamples.sentences (u "A sentence longer than sixteen.")).
  - reflexivity.
  - vm_compute. right. left. reflexivity.
Defined.
End ParagraphFacts.

(** ** Cleaning the text of a page *)
Module CleanFacts.
Import Py Re Data Shape StrFacts DataProcessor.

Section Squeeze.
Context `{Unicode}.

(** [re.sub(r'\s+', ' ', s)] *)
#[local] Abbreviation squeeze := (sub (Plus Space) (u " ")).

Lemma star_space_total (caps : captures) t :
  star true Space t (fun s' => Some (caps, s')) = Some (caps, lstrip t).
Proof.
  induction t as [|c t IH]; simpl; [done|].
  destruct (isspace c); [by rewrite IH|done].
Qed.

Lemma scan_skip r s n : n <= length s -> scan r s n = scan r (drop n s) 0.
Proof.
  revert s. induction n as [|n IH]; intros s Hn; [done|].
  destruct s as [|c s]; simpl in Hn; [lia|]. simpl. apply IH. lia.
Qed.

Lemma drop_lstrip t : drop (length t - length (lstrip t)) t = lstrip t.
Proof.
  induction t as [|c t IH]; simpl; [done|].
  destruct (isspace c); simpl.
  - pose proof (lstrip_length t).
    replace (S (length t) - length (lstrip t)) with (S (length t - length (lstrip t))) by lia.
    done.
  - by rewrite Nat.sub_diag.
Qed.

Lemma squeeze_nil : squeeze [] = [].
Proof. done. Qed.

Lemma squeeze_space c t : isspace c = true -> squeeze (c :: t) = 32%N :: squeeze (lstrip t).
Proof.
  intros Hc. unfold sub. cbn [scan]. unfold match_here. cbn [rmatch ngroups cmatch].
  rewrite Hc, star_space_total.
  pose proof (lstrip_length t).
  replace (length (c :: t) - length (lstrip t))
    with (S (length t - length (lstrip t))) by (simpl; lia).
  rewrite scan_skip by lia. rewrite drop_lstrip. done.
Qed.

Lemma squeeze_char c t : isspace c = false -> squeeze (c :: t) = c :: squeeze t.
Proof.
  intros Hc. unfold sub. cbn [scan]. unfold match_here. cbn [rmatch ngroups cmatch].
  rewrite Hc. done.
Qed.

(** Squeezing keeps every character that is not whitespace, in order. *)
Lemma filter_squeeze t : List.filter nonspace (squeeze t) = List.filter nonspace t.
Proof.
  assert (Hgen : forall n t, length t <= n ->
    List.filter nonspace (squeeze t) = List.filter nonspace t).
  { clear t. induction n as [|n IH]; intros t Hn.
    - destruct t; [done|simpl in Hn; lia].
    - destruct t as [|c t]; [done|]. simpl in Hn.
      destruct (isspace c) eqn:Hc.
      + rewrite squeeze_space by done.
        assert (Hns : nonspace c = false) by (unfold nonspace; by rewrite Hc).
        cbn [List.filter]. rewrite Hns. change (nonspace 32%N) with false. cbn iota.
        rewrite IH by (pose proof (lstrip_length t); lia).
        apply filter_lstrip.
      + rewrite squeeze_char by done.
        assert (Hns : nonspace c = true) by (unfold nonspace; by rewrite Hc).
        cbn [List.filter]. rewrite Hns. f_equal. apply IH. lia. }
  by apply (Hgen (length t)).
Qed.

(** The squeezed text is made of words joined by single spaces; a space
    leads when the text began with whitespace and may trail. *)
Lemma squeeze_shape t :
  exists (ws : list str) (trail : bool),
    Forall word ws /\
    squeeze t =
      (match t with
       | c :: _ => if isspace c then [32%N] else []
       | [] => []
       end) ++ join (u " ") ws ++ (if trail then [32%N] else []) /\
    (ws = [] -> trail = false).
Proof.
  assert (Hgen : forall n t, length t <= n ->
    exists (ws : list str) (trail : bool),
      Forall word ws /\
      squeeze t =
        (match t with
         | c :: _ => if isspace c then [32%N] else []
         | [] => []
         end) ++ join (u " ") ws ++ (if trail then [32%N] else []) /\
      (ws = [] -> trail = false)).
  { clear t. induction n as [|n IH]; intros t Hn.
    - destruct t; [|simpl in Hn; lia]. by exists [], false.
    - destruct t as [|c t]; [by exists [], false|]. simpl in Hn.
      destruct (isspace c) eqn:Hc.
      + rewrite squeeze_space by done.
        destruct (IH (lstrip t)) as (ws & trail & Hws & Heq & Htrail).
        { pose proof (lstrip_length t). lia. }
        pose proof (lstrip_head t) as Hh.
        exists ws, trail. split_and!; [done| |done].
        rewrite Heq. destruct (lstrip t) as [|d t']; [done|]. by rewrite Hh.
      + rewrite squeeze_char by done.
        destruct (IH t) as (ws & trail & Hws & Heq & Htrail); [lia|].
        rewrite Heq. clear Heq IH.
        assert (Hword : forall w, word w -> word (c :: w)).
        { intros w [_ Hw]. split; [done|]. by constructor. }
        assert (Hone : word [c]).
        { split; [done|]. by repeat constructor. }
        destruct t as [|d t].
        * (* the text ends here *)
          destruct ws as [|w ws].
          -- rewrite (Htrail eq_refl). exists [[c]], false. by repeat constructor.
          -- exists ((c :: w) :: ws), trail.
             apply Forall_cons in Hws as [Hw Hws].
             split_and!; [constructor; auto| |done].
             destruct ws; done.
        * destruct (isspace d) eqn:Hd.
          -- (* a space follows: [c] closes a word *)
             destruct ws as [|w ws].
             ++ rewrite (Htrail eq_refl). exists [[c]], true.
                split_and!; [by repeat constructor|done|done].
             ++ exists ([c] :: w :: ws), trail.
                split_and!; [by constructor|done|done].
          -- destruct ws as [|w ws].
             ++ rewrite (Htrail eq_refl). exists [[c]], false. by repeat constructor.
             ++ exists ((c :: w) :: ws), trail.
                apply Forall_cons in Hws as [Hw Hws].
                split_and!; [constructor; auto| |done].
                destruct ws; done. }
  by apply (Hgen (length t)).
Qed.

Lemma word_head w : word w -> exists c t, w = c :: t /\ isspace c = false.
Proof.
  intros [Hne Hall]. destruct w as [|c t]; [done|].
  apply Forall_cons in Hall as [Hc _]. eauto.
Qed.

Lemma word_last w : word w -> exists t c, w = t ++ [c] /\ isspace c = false.
Proof.
  intros [Hne Hall]. destruct w as [|c t] using rev_ind; [done|].
  apply Forall_app in Hall as [_ Hc]. apply Forall_cons in Hc as [Hc _]. eauto.
Qed.

Lemma join_words_head ws :
  Forall word ws -> ws <> [] ->
  exists c t, join (u " ") ws = c :: t /\ isspace c = false.
Proof.
  intros Hws Hne. destruct ws as [|w ws]; [done|].
  apply Forall_cons in Hws as [Hw _].
  destruct (word_head _ Hw) as (c & t & -> & Hc).
  destruct ws; simpl; eauto.
Qed.

Lemma join_words_last ws :
  Forall word ws -> ws <> [] ->
  exists t c, join (u " ") ws = t ++ [c] /\ isspace c = false.
Proof.
  intros Hws Hne. destruct ws as [|w ws] using rev_ind; [done|]. clear IHws.
  apply Forall_app in Hws as [_ Hw]. apply Forall_cons in Hw as [Hw _].
  destruct (word_last _ Hw) as (t & c & -> & Hc).
  destruct ws as [|w' ws].
  - simpl. eauto.
  - rewrite join_snoc by done. exists (join (u " ") (w' :: ws) ++ u " " ++ t), c.
    by rewrite <- !app_assoc.
Qed.

(** Words joined by single spaces are left alone by [strip]. *)
Lemma strip_join_words ws : Forall word ws -> strip (join (u " ") ws) = join (u " ") ws.
Proof.
  intros Hws. destruct ws as [|w ws]; [done|].
  destruct (join_words_head (w :: ws)) as (c & t & Hj & Hc); [done|done|].
  destruct (join_words_last (w :: ws)) as (t' & c' & Hj' & Hc'); [done|done|].
  unfold strip. rewrite Hj, lstrip_fixed by done. rewrite <- Hj, Hj'.
  by rewrite rstrip_snoc, Hc'.
Qed.

Lemma strip_squeeze_words t :
  exists ws, Forall word ws /\ strip (squeeze t) = join (u " ") ws.
Proof.
  destruct (squeeze_shape t) as (ws & trail & Hws & -> & Htrail).
  exists ws. split; [done|].
  set (lead := match t with c :: _ => if isspace c then [32%N] else [] | [] => [] end).
  assert (Hlead : strip (lead ++ join (u " ") ws ++ (if trail then [32%N] else []))
                  = strip (join (u " ") ws ++ (if trail then [32%N] else []))).
  { subst lead. destruct t as [|c t]; [done|]. destruct (isspace c); [|done].
    by apply strip_cons_space. }
  rewrite Hlead. clear Hlead lead.
  destruct ws as [|w ws].
  { by rewrite (Htrail eq_refl). }
  rewrite <- (strip_join_words (w :: ws)) at 2 by done.
  destruct trail; [|by rewrite app_nil_r].
  destruct (join_words_head (w :: ws)) as (c & t0 & Hj & Hc); [done|done|].
  unfold strip. rewrite Hj. rewrite <- app_comm_cons. rewrite !lstrip_fixed by done.
  rewrite app_comm_cons. by rewrite rstrip_snoc.
Qed.

Lemma squeeze_word_app w rest :
  Forall (fun c => isspace c = false) w -> squeeze (w ++ rest) = w ++ squeeze rest.
Proof.
  induction 1 as [|c w Hc Hw IH]; [done|].
  rewrite <- app_comm_cons, squeeze_char by done. by rewrite IH.
Qed.

(** Words joined by single spaces are left alone by the squeeze. *)
Lemma squeeze_join_words ws : Forall word ws -> squeeze (join (u " ") ws) = join (u " ") ws.
Proof.
  induction ws as [|w ws IH]; intros Hws; [done|].
  apply Forall_cons in Hws as [Hw Hws]. destruct ws as [|w' ws].
  - simpl. rewrite <- (app_nil_r w) at 1. rewrite squeeze_word_app by apply Hw.
    by rewrite app_nil_r.
  - rewrite join_cons, squeeze_word_app by apply Hw. f_equal.
    change (u " " ++ ?x) with (32%N :: x).
    rewrite squeeze_space by done. f_equal.
    destruct (join_words_head (w' :: ws)) as (c & t & Hj & Hc); [done|done|].
    rewrite Hj, lstrip_fixed by done. rewrite <- Hj. by apply IH.
Qed.

Lemma strip_squeeze_chars t :
  List.filter nonspace (strip (squeeze t)) = List.filter nonspace t.
Proof. by rewrite filter_strip, filter_squeeze. Qed.

Lemma strip_squeeze_blank t : forallb isspace t = true -> strip (squeeze t) = [].
Proof.
  intros Ht. rewrite <- strip_idem. apply strip_nil_iff, filter_nonspace_nil.
  rewrite strip_squeeze_chars. by apply filter_nonspace_nil.
Qed.

(** *** The steps before the squeeze *)

Lemma sub_from_chars (P : char -> Prop) r count s skip :
  Forall P s -> Forall P (sub_from r [] count s skip).
Proof.
  revert count skip. induction s as [|c s IH]; intros count skip Hs.
  - destruct skip, count; simpl; try done. by destruct (match_here r []) as [[? ?]|].
  - apply Forall_cons in Hs as [Hc Hs].
    destruct skip as [|n]; [|by apply IH].
    destruct count as [|count]; [by constructor|].
    cbn [sub_from]. destruct (match_here r (c :: s)) as [[caps rest]|].
    + cbn [app]. destruct (length (c :: s) - length rest); [constructor|]; auto.
    + constructor; auto.
Qed.

Lemma split_chars (P : char -> Prop) sep s :
  Forall P s -> Forall (Forall P) (split sep s).
Proof.
  induction 1 as [|c s Hc Hs IH]; simpl; [by repeat constructor|].
  destruct (c =? sep)%N; [by constructor|].
  destruct (split sep s) as [|line lines]; [by repeat constructor|].
  apply Forall_cons in IH as [Hline Hlines]. by repeat constructor.
Qed.

Lemma lstrip_chars (P : char -> Prop) s : Forall P s -> Forall P (lstrip s).
Proof.
  induction 1 as [|c s Hc Hs IH]; simpl; [done|].
  destruct (isspace c); [done|by constructor].
Qed.

Lemma strip_chars (P : char -> Prop) s : Forall P s -> Forall P (strip s).
Proof.
  intros Hs. unfold strip, rstrip.
  apply Forall_rev, lstrip_chars, Forall_rev, lstrip_chars, Hs.
Qed.

Lemma join_blank ls :
  Forall (fun l => forallb isspace l = true) ls -> forallb isspace (join (u " ") ls) = true.
Proof.
  induction 1 as [|l ls Hl Hls IH]; [done|].
  destruct ls as [|l' ls]; [done|].
  rewrite join_cons. rewrite forallb_app, Hl. cbn [andb].
  rewrite forallb_app. apply andb_true_iff. split; [done|exact IH].
Qed.

Lemma fullmatch_noise_all s :
  Forall (fun c => noise_char c = true) s -> fullmatch_noise s = false -> s = [].
Proof.
  intros Hs Hf. destruct s as [|c s]; [done|].
  unfold fullmatch_noise in Hf.
  rewrite (proj2 (forallb_forall _ _)) in Hf; [done|].
  intros x Hx. rewrite List.Forall_forall in Hs. by apply Hs.
Qed.

Lemma forallb_false {X} (P : X -> bool) s :
  forallb P s = false -> exists c, In c s /\ P c = false.
Proof.
  induction s as [|c s IH]; [done|]. simpl.
  destruct (P c) eqn:Hc.
  - intros (x & Hx & Hn)%IH. exists x. split; [by right|done].
  - intros _. exists c. split; [by left|done].
Qed.

Lemma fullmatch_noise_witness s :
  s <> [] -> fullmatch_noise s = false -> exists c, In c s /\ noise_char c = false.
Proof.
  intros Hne Hf. apply forallb_false. by destruct s.
Qed.
End Squeeze.

Section Clean.
Context `{Unicode}.
#[local] Abbreviation squeeze := (sub (Plus Space) (u " ")).

(** The lines [_clean_text] keeps, and the text it squeezes. *)
Lemma clean_text_eq text :
  text <> [] ->
  _clean_text text =
    strip (squeeze (join (u " ")
      (List.filter (fun line => negb (fullmatch_noise (strip line)))
         (split 10%N (sub_count hyphen_break [] text MULTILINE))))).
Proof. by destruct text. Qed.

Lemma clean_text_shape text :
  exists ws, Forall word ws /\ _clean_text text = join (u " ") ws.
Proof.
  destruct text as [|c text]; [by exists []|].
  rewrite clean_text_eq by done. apply strip_squeeze_words.
Qed.

Lemma clean_text_trimmed text : strip (_clean_text text) = _clean_text text.
Proof.
  destruct (clean_text_shape text) as (ws & Hws & ->). by apply strip_join_words.
Qed.

Lemma hyphen_break_needs_newline s :
  Forall (fun c => c <> 10%N) s -> match_here hyphen_break s = None.
Proof.
  intros Hs. unfold match_here, hyphen_break. cbn [rmatch cmatch].
  destruct s as [|c s]; [done|]. destruct (45 =? c)%N; [|done].
  destruct s as [|d s]; [done|].
  apply Forall_cons in Hs as [_ Hs]. apply Forall_cons in Hs as [Hd _].
  destruct (10 =? d)%N eqn:Heq; [|done]. apply N.eqb_eq in Heq. congruence.
Qed.

Lemma sub_from_no_newline repl count s :
  Forall (fun c => c <> 10%N) s -> sub_from hyphen_break repl count s 0 = s.
Proof.
  induction 1 as [|c s Hc Hs IH]; destruct count as [|count]; try done.
  cbn [sub_from]. rewrite hyphen_break_needs_newline by by constructor.
  by rewrite IH.
Qed.

Lemma split_no_sep sep s : Forall (fun c => c <> sep) s -> split sep s = [s].
Proof.
  induction 1 as [|c s Hc Hs IH]; simpl; [done|].
  destruct (c =? sep)%N eqn:Heq; [by apply N.eqb_eq in Heq|]. by rewrite IH.
Qed.

Lemma join_words_no_newline ws :
  Forall word ws -> Forall (fun c => c <> 10%N) (join (u " ") ws).
Proof.
  assert (Hw : forall w, word w -> Forall (fun c => c <> 10%N) w).
  { intros w [_ Hall]. eapply Forall_impl; [exact Hall|].
    intros c Hc ->. done. }
  induction 1 as [|w ws Hword Hws IH]; [done|].
  destruct ws as [|w' ws]; [by apply Hw|].
  rewrite join_cons. apply Forall_app. split; [by apply Hw|].
  apply Forall_app. split; [|done]. by repeat constructor.
Qed.

Lemma some_line_or_blank (lines : list str) :
  (exists line, In line lines /\ strip line <> []) \/
  Forall (fun line => forallb isspace line = true) lines.
Proof.
  induction lines as [|line lines [(l & Hl & Hs)|IH]].
  - by right.
  - left. exists l. split; [by right|done].
  - destruct (strip line) as [|c t] eqn:Hs.
    + right. constructor; [|done]. by apply strip_nil_iff.
    + left. exists line. split; [by left|]. by rewrite Hs.
Qed.

(** A cleaned text that is not empty holds a character outside the set of
    the noise lines: it comes from a line that was kept. *)
Lemma clean_text_not_noise text :
  _clean_text text <> [] -> exists c, In c (_clean_text text) /\ noise_char c = false.
Proof.
  destruct text as [|c0 text0]; [done|]. rewrite clean_text_eq by done.
  set (kept := List.filter _ _). intros Hne.
  assert (Hchars : List.filter nonspace (strip (squeeze (join (u " ") kept)))
                   = List.filter nonspace (concat kept)).
  { by rewrite strip_squeeze_chars, filter_join_space. }
  assert (Hsome : exists line, In line kept /\ strip line <> []).
  { destruct (some_line_or_blank kept) as [Hex|Hall]; [done|].
    exfalso. by apply Hne, strip_squeeze_blank, join_blank. }
  destruct Hsome as (line & Hline & Hstrip).
  pose proof Hline as Hkept. apply List.filter_In in Hkept as [_ Hkept].
  apply negb_true_iff in Hkept.
  destruct (fullmatch_noise_witness _ Hstrip Hkept) as (c & Hc & Hnoise).
  exists c. split; [|done].
  assert (Hns : nonspace c = true).
  { unfold noise_char in Hnoise. unfold nonspace. by destruct (isspace c). }
  assert (Hin : In c (List.filter nonspace (concat kept))).
  { apply List.filter_In. split; [|done]. apply in_concat. exists line. split; [done|].
    assert (Hc' : In c (List.filter nonspace (strip line))) by by apply List.filter_In.
    rewrite filter_strip in Hc'. by apply List.filter_In in Hc' as [? _]. }
  rewrite <- Hchars in Hin. by apply List.filter_In in Hin as [? _].
Qed.

Lemma clean_text_fixed text : _clean_text (_clean_text text) = _clean_text text.
Proof.
  destruct (_clean_text text) as [|c0 t0] eqn:Hclean; [done|].
  rewrite <- Hclean.
  destruct (clean_text_shape text) as (ws & Hws & Hj).
  destruct (clean_text_not_noise text) as (c & Hc & Hnoise); [by rewrite Hclean|].
  rewrite clean_text_eq by by rewrite Hclean.
  unfold sub_count.
  rewrite sub_from_no_newline by (rewrite Hj; by apply join_words_no_newline).
  rewrite split_no_sep by (rewrite Hj; by apply join_words_no_newline).
  cbn [List.filter]. rewrite clean_text_trimmed.
  assert (Hfull : fullmatch_noise (_clean_text text) = false).
  { rewrite Hclean. unfold fullmatch_noise. rewrite <- Hclean.
    destruct (forallb noise_char (_clean_text text)) eqn:Hall; [|done].
    rewrite forallb_forall in Hall. rewrite (Hall c Hc) in Hnoise. done. }
  rewrite Hfull. cbn [negb join].
  rewrite Hj, squeeze_join_words by done. by apply strip_join_words.
Qed.

Lemma clean_text_noise text :
  Forall (fun c => noise_char c = true) text -> _clean_text text = [].
Proof.
  intros Hs. destruct text as [|c0 text0] eqn:Ht; [done|]. rewrite <- Ht in *.
  rewrite clean_text_eq by by rewrite Ht.
  apply strip_squeeze_blank, join_blank.
  apply List.Forall_forall. intros line [Hline Hkept]%List.filter_In.
  apply negb_true_iff in Hkept. apply strip_nil_iff.
  apply fullmatch_noise_all; [|done]. apply strip_chars.
  assert (Hsplit : Forall (Forall (fun c => noise_char c = true))
    (split 10%N (sub_count hyphen_break [] text MULTILINE))).
  { apply split_chars. by apply sub_from_chars. }
  rewrite List.Forall_forall in Hsplit. by apply Hsplit.
Qed.

(** X4. The cleaned text of a page is single-spaced: it is a sequence of
    words, each of one character or more and none of them whitespace,
    joined by single spaces. It holds no newline, tab or other whitespace
    than the space, no two spaces in a row, and no space at either end; the
    cleaned text of an empty page is empty. *)
Theorem clean_text_is_single_spaced (text : str) :
  exists words : list str,
    _clean_text text = join (u " ") words /\
    Forall (fun w => w <> [] /\ Forall (fun c => isspace c = false) w) words.
Proof.
  destruct (clean_text_shape text) as (ws & Hws & Heq). by exists ws.
Qed.

(** X5. Cleaning is idempotent: a text that was cleaned is left as it is
    when cleaned again. No line of it is taken for noise, since the kept
    lines hold a character outside the noise set, and no hyphen is joined,
    since it holds no newline. *)
Theorem clean_text_is_idempotent (text : str) :
  _clean_text (_clean_text text) = _clean_text text.
Proof. apply clean_text_fixed. Qed.
End Clean.
End CleanFacts.

(** ** The documents of a book *)
Module ProcessFacts.
Import Py Re Data Shape StrFacts DataProcessor ParagraphFacts CleanFacts.

Section Facts.
Context `{Unicode}.
Variable cfg : AppConfig.
Variable sent_tokenize : str -> result (list str).
Variable load : str -> result (list Document).

#[local] Abbreviation _create_semantic_paragraphs :=
  (_create_semantic_paragraphs cfg sent_tokenize).
#[local] Abbreviation page_documents := (page_documents cfg sent_tokenize).
#[local] Abbreviation process_pdf := (process_pdf cfg sent_tokenize load).

Lemma process_pdf_in pdf_path md doc :
  In doc (process_pdf pdf_path md) ->
  exists pages page_doc,
    load pdf_path = Ok pages /\ In page_doc pages /\ In doc (page_documents md page_doc).
Proof.
  unfold DataProcessor.process_pdf.
  destruct (load pdf_path) as [pages|e]; [|done].
  destruct pages as [|p pages]; [done|].
  intros (page_doc & Hpage & Hdoc)%in_flat_map. by exists (p :: pages), page_doc.
Qed.

(** The paragraphs of a cleaned page are not empty and are stripped, also
    when the tokenizer fails and the page is taken whole. *)
Lemma clean_paragraphs text p :
  In p (_create_semantic_paragraphs (_clean_text text)) ->
  0 < length p /\ strip p = p.
Proof.
  destruct (sent_tokenize (_clean_text text)) as [sentences|e] eqn:Htok.
  - intros Hp.
    exact (paragraphs_trimmed cfg sent_tokenize _ _ _ Htok Hp).
  - unfold DataProcessor._create_semantic_paragraphs. rewrite Htok.
    destruct (_clean_text text) as [|c t] eqn:Hclean; [done|].
    intros [<-|[]]. split; [simpl; lia|].
    rewrite <- Hclean. apply clean_text_trimmed.
Qed.

(** X6. The documents of a book. Every document [process_pdf] returns has
    a content of at least one character that neither begins nor ends with
    whitespace, whether or not the tokenizer failed; it carries the source
    file, the title and the author of the book and no [book_title]; and its
    page is one more than the page index the loader gave one of the pages
    (1 when the loader gave none). *)
Theorem process_pdf_documents pdf_path (md : DocumentMetadata) doc :
  In doc (process_pdf pdf_path md) ->
  0 < length (page_content doc) /\
  strip (page_content doc) = page_content doc /\
  Data.source_file (metadata doc) = Some (source_file md) /\
  Data.title (metadata doc) = Some (title md) /\
  Data.author (metadata doc) = Some (author md) /\
  Data.book_title (metadata doc) = None /\
  exists pages page_doc,
    load pdf_path = Ok pages /\ In page_doc pages /\
    Data.page (metadata doc) = Some (get (Data.page (metadata page_doc)) 0 + 1)%Z.
Proof.
  intros (pages & page_doc & Hload & Hpage & Hdoc)%process_pdf_in.
  unfold DataProcessor.page_documents in Hdoc.
  destruct (_clean_text (page_content page_doc)) as [|c t] eqn:Hclean; [done|].
  rewrite <- Hclean in Hdoc.
  apply in_map_iff in Hdoc as (p & <- & Hp). cbn [page_content metadata
    Data.source_file Data.title Data.author Data.book_title Data.page].
  destruct (clean_paragraphs _ _ Hp) as [Hlen Hstrip].
  split_and!; try done. by exists pages, page_doc.
Qed.

(** X7. Pages of noise. A page whose characters are all whitespace,
    digits, hyphens and dots (a page number, a rule, a blank page) cleans
    to the empty text, and a book whose pages are all of that kind gives no
    document at all. *)
Theorem noise_only_pages_are_dropped pdf_path (md : DocumentMetadata) pages :
  load pdf_path = Ok pages ->
  Forall (fun page_doc => Forall (fun c => noise_char c = true) (page_content page_doc))
    pages ->
  Forall (fun page_doc => _clean_text (page_content page_doc) = []) pages /\
  process_pdf pdf_path md = [].
Proof.
  intros Hload Hnoise.
  assert (Hclean : Forall (fun page_doc => _clean_text (page_content page_doc) = []) pages).
  { eapply Forall_impl; [exact Hnoise|]. intros page_doc. apply clean_text_noise. }
  split; [done|].
  unfold DataProcessor.process_pdf. rewrite Hload.
  destruct pages as [|p pages]; [done|].
  generalize (p :: pages) Hclean. clear.
  induction 1 as [|page_doc rest Hp Hrest IH]; [done|].
  cbn [flat_map]. rewrite IH. unfold DataProcessor.page_documents. by rewrite Hp.
Qed.
End Facts.

Lemma process_pdf_documents_witness :
  let doc := IngestExamples.first_document in
  let md := IngestExamples.the_book in
  0 < length (page_content doc) /\
  strip (page_content doc) = page_content doc /\
  Data.source_file (metadata doc) = Some (source_file md) /\
  Data.title (metadata doc) = Some (title md) /\
  Data.author (metadata doc) = Some (author md) /\
  Data.book_title (metadata doc) = None /\
  exists pages page_doc,
    IngestExamples.loader (u "book.pdf") = Ok pages /\ In page_doc pages /\
    Data.page (metadata doc) = Some (get (Data.page (metadata page_doc)) 0 + 1)%Z.
Proof.
  apply (process_pdf_documents IngestExamples.small IngestExamples.failing_tokenizer
           IngestExamples.loader (u "book.pdf") IngestExamples.the_book
           IngestExamples.first_document).
  vm_compute. left. reflexivity.
Defined.

Lemma noise_only_pages_are_dropped_witness :
  Forall (fun page_doc => _clean_text (page_content page_doc) = [])
    [IngestExamples.number_page] /\
  process_pdf IngestExamples.small IngestExamples.tokenizer
    (fun _ => Ok [IngestExamples.number_page]) (u "book.pdf") IngestExamples.the_book = [].
Proof.
  apply (noise_only_pages_are_dropped IngestExamples.small IngestExamples.tokenizer
           (fun _ => Ok [IngestExamples.number_page]) (u "book.pdf")
           IngestExamples.the_book [IngestExamples.number_page]).
  - reflexivity.
  - repeat constructor.
Defined.
End ProcessFacts.

(** ** Line-end hyphens *)
Module HyphenFacts.
Import Py Re Data Shape StrFacts DataProcessor CleanFacts.

Section Facts.
Context `{Unicode}.

#[local] Abbreviation BREAK := ([45; 10]%N : str).

Lemma sub_from_skip r repl count s n :
  n <= length s -> sub_from r repl count s n = sub_from r repl count (drop n s) 0.
Proof.
  revert s. induction n as [|n IH]; intros s Hn; [done|].
  destruct s as [|c s]; simpl in Hn; [lia|]. simpl. apply IH. lia.
Qed.

Lemma sub_from_eq r repl count c s :
  sub_from r repl (S count) (c :: s) 0 =
  match match_here r (c :: s) with
  | Some (_, rest) =>
    repl ++
    match length (c :: s) - length rest with
    | O => c :: sub_from r repl count s 0
    | S m => sub_from r repl count s m
    end
  | None => c :: sub_from r repl (S count) s 0
  end.
Proof. done. Qed.

Lemma hyphen_break_other c s : c <> 45%N -> match_here hyphen_break (c :: s) = None.
Proof.
  intros Hc. unfold match_here, hyphen_break. cbn [rmatch cmatch].
  destruct (45 =? c)%N eqn:Heq; [|done]. apply N.eqb_eq in Heq. congruence.
Qed.

Lemma letter_facts c :
  noise_char c = false -> c <> 45%N /\ c <> 10%N /\ isspace c = false.
Proof.
  unfold noise_char. intros Hc.
  destruct (isspace c) eqn:Hs; [done|].
  split_and!; [| |done]; intros ->; done.
Qed.

Lemma letter_nonspace c : noise_char c = false -> isspace c = false.
Proof. by intros (_ & _ & ?)%letter_facts. Qed.

Lemma letter_not_newline c : noise_char c = false -> c <> 10%N.
Proof. by intros (_ & ? & _)%letter_facts. Qed.

Lemma sub_from_letters repl count w rest :
  Forall (fun c => noise_char c = false) w ->
  sub_from hyphen_break repl count (w ++ rest) 0 = w ++ sub_from hyphen_break repl count rest 0.
Proof.
  induction 1 as [|c w Hc Hw IH]; [done|].
  destruct count as [|count]; [by destruct rest|].
  rewrite <- app_comm_cons, sub_from_eq.
  rewrite hyphen_break_other by by apply letter_facts.
  by rewrite IH.
Qed.

Lemma hyphen_break_here rest :
  match_here hyphen_break (45%N :: 10%N :: rest) = Some ([], lstrip rest).
Proof.
  unfold match_here, hyphen_break. cbn [app rmatch cmatch ngroups].
  change (45 =? 45)%N with true. change (10 =? 10)%N with true. cbn iota.
  by rewrite star_space_total.
Qed.

Lemma sub_from_break count rest :
  sub_from hyphen_break [] (S count) (BREAK ++ rest) 0 =
  sub_from hyphen_break [] count (lstrip rest) 0.
Proof.
  change (BREAK ++ rest) with (45%N :: 10%N :: rest).
  rewrite sub_from_eq, hyphen_break_here.
  pose proof (lstrip_length rest) as Hlen.
  match goal with
  | |- context [?a - ?b] =>
    replace (a - b) with (S (S (length rest - length (lstrip rest))))
      by (cbn [length]; unfold str, char in *; lia)
  end.
  cbn [app].
  rewrite sub_from_skip by (cbn [length]; unfold str, char in *; lia).
  cbn [drop]. by rewrite drop_lstrip.
Qed.

(** The first [count] breaks are joined, when each comes after letters. *)
Lemma sub_from_breaks count (ws : list str) tail :
  length ws = count ->
  Forall (Forall (fun c => noise_char c = false)) ws ->
  lstrip tail = tail ->
  sub_from hyphen_break [] count (concat (map (fun w => w ++ BREAK) ws) ++ tail) 0 =
  concat ws ++ tail.
Proof.
  revert count. induction ws as [|w ws IH]; intros count Hlen Hws Htail.
  - simpl in Hlen. subst count. by destruct tail.
  - destruct count as [|count]; [done|]. simpl in Hlen.
    apply Forall_cons in Hws as [Hw Hws].
    cbn [map concat]. rewrite <- !app_assoc.
    rewrite sub_from_letters by done. f_equal.
    rewrite sub_from_break.
    assert (Hfix : lstrip (concat (map (fun w => w ++ BREAK) ws) ++ tail)
                   = concat (map (fun w => w ++ BREAK) ws) ++ tail).
    { destruct ws as [|w' ws']; [done|]. cbn [map concat].
      destruct w' as [|c w']; [done|].
      apply Forall_cons in Hws as [Hw' _]. apply Forall_cons in Hw' as [Hc _].
      apply letter_facts in Hc as (_ & _ & Hc). simpl. by rewrite Hc. }
    rewrite Hfix. apply IH; [lia|done|done].
Qed.

Lemma split_app_sep sep a b :
  Forall (fun c => c <> sep) a -> split sep (a ++ sep :: b) = a :: split sep b.
Proof.
  induction 1 as [|c a Hc Ha IH]; simpl.
  - by rewrite N.eqb_refl.
  - destruct (c =? sep)%N eqn:Heq; [by apply N.eqb_eq in Heq|]. by rewrite IH.
Qed.

Lemma letters_word w :
  w <> [] -> Forall (fun c => noise_char c = false) w -> word w.
Proof.
  intros Hne Hw. split; [done|]. eapply Forall_impl; [exact Hw|].
  apply letter_nonspace.
Qed.

Lemma letters_not_noise w :
  w <> [] -> Forall (fun c => noise_char c = false) w -> forall rest,
  fullmatch_noise (w ++ rest) = false.
Proof.
  intros Hne Hw rest. destruct w as [|c w]; [done|].
  apply Forall_cons in Hw as [Hc _]. simpl. by rewrite Hc.
Qed.

(** X8. Eight hyphens a page. [re.MULTILINE] stands where [re.sub] takes
    its [count], so at most eight line-end hyphens of a page are removed:
    in a page of words broken at nine line ends, the first eight breaks are
    joined and the ninth word keeps its hyphen, followed by a space. *)
Theorem ninth_hyphen_break_is_kept (ws : list str) (w9 last : str) :
  length ws = 8 ->
  Forall (Forall (fun c => noise_char c = false)) ws ->
  Forall (fun c => noise_char c = false) w9 ->
  Forall (fun c => noise_char c = false) last ->
  w9 <> [] ->
  last <> [] ->
  _clean_text
    (concat (map (fun w => w ++ u "-" ++ NEWLINE) ws) ++ w9 ++ u "-" ++ NEWLINE ++ last) =
  concat ws ++ w9 ++ u "- " ++ last.
Proof.
  intros Hlen Hws Hw9 Hlast Hne9 Hnel.
  change (u "-" ++ NEWLINE ++ last) with (BREAK ++ last).
  change (fun w : str => w ++ u "-" ++ NEWLINE) with (fun w : str => w ++ BREAK).
  set (tail := w9 ++ BREAK ++ last).
  assert (Htail : lstrip tail = tail).
  { subst tail. destruct w9 as [|c w9]; [done|].
    apply Forall_cons in Hw9 as [Hc _]. apply letter_facts in Hc as (_ & _ & Hc).
    simpl. by rewrite Hc. }
  rewrite clean_text_eq.
  2:{ subst tail. intros Heq. apply app_eq_nil in Heq as [_ Heq].
      by apply app_eq_nil in Heq as [_ Heq]. }
  unfold sub_count, MULTILINE. rewrite sub_from_breaks by done.
  subst tail.
  assert (Hletters : Forall (fun c => noise_char c = false) (concat ws ++ w9)).
  { apply Forall_app. split; [|done]. by apply Forall_concat. }
  assert (Hline : Forall (fun c => c <> 10%N) ((concat ws ++ w9) ++ [45%N])).
  { apply Forall_app. split; [|by repeat constructor].
    eapply Forall_impl; [exact Hletters|]. apply letter_not_newline. }
  assert (Hword1 : word ((concat ws ++ w9) ++ [45%N])).
  { split; [by intros [_ ?]%app_eq_nil|].
    apply Forall_app. split; [|by repeat constructor].
    eapply Forall_impl; [exact Hletters|]. apply letter_nonspace. }
  assert (Hword2 : word last) by by apply letters_word.
  assert (Hne : concat ws ++ w9 <> []) by (by intros [_ ?]%app_eq_nil).
  replace (concat ws ++ w9 ++ BREAK ++ last)
    with (((concat ws ++ w9) ++ [45%N]) ++ 10%N :: last)
    by (by rewrite <- !app_assoc).
  rewrite split_app_sep by done.
  rewrite split_no_sep
    by (eapply Forall_impl; [exact Hlast|]; apply letter_not_newline).
  cbn [List.filter].
  assert (Hs1 : strip ((concat ws ++ w9) ++ [45%N]) = (concat ws ++ w9) ++ [45%N])
    by (apply (strip_join_words [_]); by constructor).
  assert (Hs2 : strip last = last)
    by (apply (strip_join_words [_]); by constructor).
  rewrite Hs1, Hs2.
  assert (Hn2 : fullmatch_noise last = false)
    by (rewrite <- (app_nil_r last); by apply letters_not_noise).
  rewrite (letters_not_noise (concat ws ++ w9) Hne Hletters), Hn2. cbn [negb].
  assert (Hwords : Forall word [(concat ws ++ w9) ++ [45%N]; last])
    by (constructor; [done|by constructor]).
  rewrite squeeze_join_words, strip_join_words by done.
  cbn [join]. by rewrite <- !app_assoc.
Qed.
End Facts.

Lemma ninth_hyphen_break_is_kept_witness :
  _clean_text
    (concat (map (fun w => w ++ u "-" ++ NEWLINE) (replicate 8 (u "ab")))
       ++ u "cd" ++ u "-" ++ NEWLINE ++ u "ef") =
  concat (replicate 8 (u "ab")) ++ u "cd" ++ u "- " ++ u "ef".
Proof.
  apply (ninth_hyphen_break_is_kept (replicate 8 (u "ab")) (u "cd") (u "ef")).
  - reflexivity.
  - by repeat constructor.
  - by repeat constructor.
  - by repeat constructor.
  - discriminate.
  - discriminate.
Defined.
End HyphenFacts.

(** ** The metadata typed for a book *)
Module MetadataFacts.
Import Py Data DataProcessor MetadataManager.

Lemma ask_author_blanks blanks author_input lines messages :
  Forall (fun line => strip line = []) blanks ->
  strip author_input <> [] ->
  ask_author (blanks ++ author_input :: lines) messages =
    Some (strip author_input, lines, messages + length blanks).
Proof.
  intros Hblanks Hauthor. revert messages.
  induction Hblanks as [|line blanks Hline Hblanks IH]; intros messages; simpl.
  - destruct (strip author_input); [done|]. by rewrite Nat.add_0_r.
  - rewrite Hline, IH. by rewrite Nat.add_succ_r.
Qed.

Lemma ask_author_eof lines messages :
  Forall (fun line => strip line = []) lines -> ask_author lines messages = None.
Proof.
  intros Hlines. revert messages.
  induction Hlines as [|line lines Hline Hlines IH]; intros messages; simpl; [done|].
  by rewrite Hline, IH.
Qed.

(** X9. The metadata typed for a new book. The first line typed is the
    title, stripped, or the default title made from the file's stem when
    nothing is left of the line; the author is the first line after it that
    is not blank, stripped, and every blank line before it is answered with
    the message that the author cannot be left empty. The lines after the
    author are left unread. When every line after the title is blank the
    input runs out and no metadata is saved. *)
Theorem author_is_asked_until_given (title_case : str -> str)
    (pdf_name stem title_input : str) (blanks : list str) (author_input : str)
    (lines : list str) :
  Forall (fun line => strip line = []) blanks ->
  strip author_input <> [] ->
  _create_metadata_interactively title_case pdf_name stem
    (title_input :: blanks ++ author_input :: lines) =
    Some ({| source_file := pdf_name;
             title := match strip title_input with
                      | [] => title_case (replace 45%N 32%N (replace 95%N 32%N stem))
                      | stripped => stripped
                      end;
             author := strip author_input |},
          lines, length blanks) /\
  _create_metadata_interactively title_case pdf_name stem (title_input :: blanks) = None /\
  _create_metadata_interactively title_case pdf_name stem [] = None.
Proof.
  intros Hblanks Hauthor. unfold _create_metadata_interactively. split_and!.
  - by rewrite ask_author_blanks.
  - by rewrite ask_author_eof.
  - done.
Qed.

Lemma author_is_asked_until_given_witness :
  _create_metadata_interactively (fun s => s) (u "my_book.pdf") (u "my_book")
    (u "  " :: [[]; u "   "] ++ u " Ada " :: [u "next"]) =
    Some ({| source_file := u "my_book.pdf";
             title := match strip (u "  ") with
                      | [] => (fun s => s) (replace 45%N 32%N (replace 95%N 32%N (u "my_book")))
                      | stripped => stripped
                      end;
             author := strip (u " Ada ") |},
          [u "next"], length [[]; u "   "]) /\
  _create_metadata_interactively (fun s => s) (u "my_book.pdf") (u "my_book")
    (u "  " :: [[]; u "   "]) = None /\
  _create_metadata_interactively (fun s => s) (u "my_book.pdf") (u "my_book") [] = None.
Proof.
  apply (author_is_asked_until_given (fun s => s) (u "my_book.pdf") (u "my_book")
           (u "  ") [[]; u "   "] (u " Ada ") [u "next"]).
  - by repeat constructor.
  - by vm_compute.
Defined.
End MetadataFacts.

(** ** Synchronising the library of the single-process application *)
Module LibraryFacts.
Import Py Data DataProcessor Library.

Section Facts.
Variable glob : list str.
Variable get_metadata_for_pdf : str -> option DocumentMetadata.
Variable process_pdf : str -> DocumentMetadata -> list Document.
Variable add_documents : list Document -> result unit.

#[local] Abbreviation sync_pdf := (sync_pdf get_metadata_for_pdf process_pdf add_documents).
#[local] Abbreviation _sync_library :=
  (_sync_library glob get_metadata_for_pdf process_pdf add_documents).

(** What one file adds to the log. *)
Lemma sync_pdf_eq _state pdf_path :
  sync_pdf _state pdf_path =
  (_state,
   match get_metadata_for_pdf pdf_path with
   | None => [NoMetadata pdf_path]
   | Some metadata =>
     match process_pdf pdf_path metadata with
     | [] => [NoContent pdf_path]
     | enriched_docs =>
       [AddDocuments pdf_path enriched_docs;
        Critical pdf_path
          match add_documents enriched_docs with
          | Raise e => e
          | Ok _ => AttributeError "now"
          end]
     end
   end).
Proof.
  unfold Library.sync_pdf.
  destruct (get_metadata_for_pdf pdf_path) as [metadata|]; [|done].
  destruct (process_pdf pdf_path metadata) as [|doc docs]; [done|].
  by destruct (add_documents (doc :: docs)).
Qed.

Lemma sync_loop_eq _state steps pdfs :
  foldl (fun acc pdf_path =>
           let '(_state, steps) := sync_pdf acc.1 pdf_path in
           (_state, acc.2 ++ steps))
        (_state, steps) pdfs =
  (_state, steps ++ flat_map (fun pdf_path => (sync_pdf _state pdf_path).2) pdfs).
Proof.
  revert steps. induction pdfs as [|pdf_path pdfs IH]; intros steps;
    cbn [foldl flat_map fst snd].
  - by rewrite app_nil_r.
  - rewrite !sync_pdf_eq. cbn [fst snd]. rewrite IH. by rewrite <- app_assoc.
Qed.

Lemma sync_library_eq _state :
  _sync_library _state =
  (_state,
   flat_map (fun pdf_path => (sync_pdf _state pdf_path).2)
     (List.filter (fun p => negb (is_pdf_processed p _state)) glob)).
Proof. unfold Library._sync_library. by rewrite sync_loop_eq. Qed.

(** X10. The single-process application never records a file as processed.
    [mark_pdf_as_processed] calls [datetime.now] on the module [datetime]
    and raises [AttributeError], inside the [try] of the loop. So for every
    state a synchronisation leaves the state as it was and never reports a
    file as processed; every call of [add_documents] is followed by a
    critical error for the same file, the error of the database when it
    raised and the [AttributeError] when it did not; and a second
    synchronisation does all of the first again, the calls of
    [add_documents] included. *)
Theorem sync_never_marks_a_file (_state : gmap str str) :
  (_sync_library _state).1 = _state /\
  Forall (fun step => forall pdf_path, step <> Marked pdf_path) (_sync_library _state).2 /\
  (forall pdf_path enriched_docs,
     In (AddDocuments pdf_path enriched_docs) (_sync_library _state).2 ->
     In (Critical pdf_path
           match add_documents enriched_docs with
           | Raise e => e
           | Ok _ => AttributeError "now"
           end) (_sync_library _state).2) /\
  _sync_library (_sync_library _state).1 = _sync_library _state.
Proof.
  rewrite sync_library_eq. cbn [fst snd]. split_and!.
  - done.
  - apply List.Forall_forall. intros step (pdf_path & _ & Hstep)%in_flat_map.
    rewrite sync_pdf_eq in Hstep. cbn [snd] in Hstep. intros p ->.
    destruct (get_metadata_for_pdf pdf_path) as [metadata|].
    + destruct (process_pdf pdf_path metadata) as [|doc docs];
        [by destruct Hstep as [?|[]]|].
      by destruct Hstep as [?|[?|[]]].
    + by destruct Hstep as [?|[]].
  - intros p docs (pdf_path & Hpdf & Hstep)%in_flat_map.
    apply in_flat_map. exists pdf_path. split; [done|]. cbn beta.
    rewrite sync_pdf_eq in Hstep |- *. cbn [snd] in Hstep |- *.
    destruct (get_metadata_for_pdf pdf_path) as [metadata|].
    + destruct (process_pdf pdf_path metadata) as [|doc docs'];
        [by destruct Hstep as [?|[]]|].
      destruct Hstep as [[= <- <-]|[?|[]]]; [|done]. right. by left.
    + by destruct Hstep as [?|[]].
  - by rewrite sync_library_eq.
Qed.
End Facts.
End LibraryFacts.

(** ** Loading the models *)
Module RegistryFacts.
Import Py Registry.

Section Facts.
Context {Model : Type}.
Variable describe : exn -> str.
Variable load_embedding load_cross_encoder _load_llama_model : result Model.

#[local] Abbreviation registry := (@registry Model).
#[local] Abbreviation _load_model := (_load_model describe).
#[local] Abbreviation get_embedding_model := (get_embedding_model describe load_embedding).
#[local] Abbreviation get_cross_encoder_model :=
  (get_cross_encoder_model describe load_cross_encoder).
#[local] Abbreviation get_llm := (get_llm describe _load_llama_model).
#[local] Abbreviation load_all_models_proactively :=
  (load_all_models_proactively describe load_embedding load_cross_encoder
     _load_llama_model).

Lemma load_model_hit model_key loader_func (r : registry) model :
  _models r !! model_key = Some model ->
  _load_model model_key loader_func r = (inl model, r).
Proof. intros Hm. unfold Registry._load_model. by rewrite Hm. Qed.

(** A model that was returned is in the dictionary afterwards, and the
    dictionary keeps what it held. *)
Lemma load_model_ok model_key loader_func (r r' : registry) model :
  _load_model model_key loader_func r = (inl model, r') ->
  _models r' !! model_key = Some model /\
  (forall key m, _models r !! key = Some m -> _models r' !! key = Some m).
Proof.
  unfold Registry._load_model.
  destruct (_models r !! model_key) as [m0|] eqn:Hm.
  - intros [= <- <-]. done.
  - destruct loader_func as [m1|e]; [|done]. intros [= <- <-]. cbn [Registry._models].
    split; [apply lookup_insert_eq|].
    intros key m Hkey. rewrite lookup_insert_ne; [done|]. intros <-. congruence.
Qed.

(** X11. A model is loaded once. When [_load_model] has returned a model
    for a key, every later call for that key returns the same model, calls
    no loader and leaves the registry as it is, whatever was loaded for
    other keys in between; so after [load_all_models_proactively] has
    returned, the three getters answer from the dictionary. *)
Theorem models_are_loaded_once (model_key : str) loader_func (r r' : registry)
    (model : Model) :
  _load_model model_key loader_func r = (inl model, r') ->
  (forall other_key other_loader other r'' loader_func',
     _load_model other_key other_loader r' = (inl other, r'') ->
     _load_model model_key loader_func' r'' = (inl model, r'')) /\
  (forall r0 r1,
     load_all_models_proactively r0 = (None, r1) ->
     exists embedding cross_encoder llm,
       get_embedding_model r1 = (inl embedding, r1) /\
       get_cross_encoder_model r1 = (inl cross_encoder, r1) /\
       get_llm r1 = (inl llm, r1)).
Proof.
  intros Hload. split.
  - intros other_key other_loader other r'' loader_func' Hother.
    apply load_model_hit.
    apply load_model_ok in Hload as [Hm _]. apply load_model_ok in Hother as [_ Hkeep].
    by apply Hkeep.
  - intros r0 r1. unfold Registry.load_all_models_proactively.
    destruct (get_embedding_model r0) as [[embedding|e] ra] eqn:Ha; [|done].
    destruct (get_cross_encoder_model ra) as [[cross_encoder|e] rb] eqn:Hb; [|done].
    destruct (get_llm rb) as [[llm|e] rc] eqn:Hc; [|done].
    intros [= <-].
    apply load_model_ok in Ha as [Ha _].
    apply load_model_ok in Hb as [Hb Hkeepb].
    apply load_model_ok in Hc as [Hc Hkeepc].
    exists embedding, cross_encoder, llm. split_and!; apply load_model_hit; auto.
Qed.

(** X12. A loader that fails. When the model is not in the dictionary and
    its loader raises, [_load_model] raises [TypeError] and no
    [ModelError], because [ModelError] is constructed with the keyword
    [exc_info] that its constructor does not take; nothing is stored, so the
    next call for the key calls the loader again. *)
Theorem failed_load_raises_type_error (model_key : str) (e : exn) (r : registry) :
  _models r !! model_key = None ->
  exists r',
    _load_model model_key (Raise e) r =
      (inr (TypeError "SystemError.__init__" "exc_info"), r') /\
    _models r' = _models r /\
    loader_calls r' = loader_calls r ++ [model_key] /\
    forall model,
      (_load_model model_key (Ok model) r').2 =
        {| _models := <[model_key := model]> (_models r);
           loader_calls := loader_calls r ++ [model_key; model_key] |}.
Proof.
  intros Hm. unfold Registry._load_model. rewrite Hm. cbn [new_ModelError].
  eexists. split; [done|]. cbn [Registry._models Registry.loader_calls].
  split_and!; [done|done|]. intros model. rewrite Hm. cbn [snd]. by rewrite <- app_assoc.
Qed.
End Facts.

Lemma models_are_loaded_once_witness :
  (forall other_key other_loader other r'' loader_func',
     _load_model (Model := nat) (fun _ => []) other_key other_loader
       {| _models := {[ u "llm" := 7 ]}; loader_calls := [u "llm"] |} = (inl other, r'') ->
     _load_model (fun _ => []) (u "llm") loader_func' r'' = (inl 7, r'')) /\
  (forall r0 r1,
     load_all_models_proactively (Model := nat) (fun _ => []) (Ok 1) (Ok 2) (Ok 7) r0
       = (None, r1) ->
     exists embedding cross_encoder llm,
       get_embedding_model (fun _ => []) (Ok 1) r1 = (inl embedding, r1) /\
       get_cross_encoder_model (fun _ => []) (Ok 2) r1 = (inl cross_encoder, r1) /\
       get_llm (fun _ => []) (Ok 7) r1 = (inl llm, r1)).
Proof.
  apply (models_are_loaded_once (fun _ => []) (Ok 1) (Ok 2) (Ok 7) (u "llm") (Ok 7)
           {| _models := ∅; loader_calls := [] |}
           {| _models := {[ u "llm" := 7 ]}; loader_calls := [u "llm"] |} 7).
  reflexivity.
Defined.

Lemma failed_load_raises_type_error_witness :
  exists r',
    _load_model (Model := nat) (fun _ => []) (u "llm") (Raise (RuntimeError "gpu"))
      {| _models := ∅; loader_calls := [] |} =
      (inr (TypeError "SystemError.__init__" "exc_info"), r') /\
    _models r' = ∅ /\
    loader_calls r' = [] ++ [u "llm"] /\
    forall model,
      (_load_model (fun _ => []) (u "llm") (Ok model) r').2 =
        {| _models := <[u "llm" := model]> ∅;
           loader_calls := [] ++ [u "llm"; u "llm"] |}.
Proof.
  apply (failed_load_raises_type_error (fun _ => []) (u "llm") (RuntimeError "gpu")
           {| _models := ∅; loader_calls := [] |}).
  reflexivity.
Defined.
End RegistryFacts.

(** ** The server: converting and synchronising *)
Module ServerFacts.
Import Py Data Server.

(** The page of a document, 0 when it has none. *)
#[local] Abbreviation page_of doc := (get (page (metadata doc)) 0%Z).

Section Converter.
Variable advanced_text_cleanup : str -> str.
Variable load : str -> result (list str).

#[local] Abbreviation convert_pages := (convert_pages advanced_text_cleanup).
#[local] Abbreviation convert_pdf_to_documents :=
  (convert_pdf_to_documents advanced_text_cleanup load).

Lemma convert_pages_spec pdf_name book_title author i raw_pages :
  Forall (fun doc =>
            50 <= length (page_content doc) /\
            metadata doc =
              {| source_file := Some pdf_name; title := None;
                 book_title := Some book_title; author := Some author;
                 page := Some (page_of doc) |} /\
            (i < page_of doc <= i + Z.of_nat (length raw_pages))%Z)
    (convert_pages pdf_name book_title author i raw_pages) /\
  StronglySorted (fun d d' => (page_of d < page_of d')%Z)
    (convert_pages pdf_name book_title author i raw_pages).
Proof.
  revert i. induction raw_pages as [|raw_content raw_pages IH]; intros i.
  - split; constructor.
  - destruct (IH (i + 1)%Z) as [Hall Hsorted].
    assert (Hrest : Forall (fun doc =>
              50 <= length (page_content doc) /\
              metadata doc =
                {| source_file := Some pdf_name; title := None;
                   book_title := Some book_title; author := Some author;
                   page := Some (page_of doc) |} /\
              (i < page_of doc <= i + Z.of_nat (length (raw_content :: raw_pages)))%Z)
            (convert_pages pdf_name book_title author (i + 1) raw_pages)).
    { eapply Forall_impl; [exact Hall|]. intros doc (? & ? & ?).
      split_and!; [done|done| |]; cbn [length]; lia. }
    cbn [Server.convert_pages].
    destruct (advanced_text_cleanup raw_content) as [|c t] eqn:Hclean; [done|].
    destruct (length (c :: t) <? 50) eqn:Hlen; [done|].
    apply Nat.ltb_ge in Hlen. split.
    + constructor; [|done]. cbn [page_content metadata page get].
      split_and!; [done|done| |]; cbn [length]; lia.
    + constructor; [done|]. eapply Forall_impl; [exact Hall|].
      intros doc (_ & _ & ?). cbn [metadata page get]. lia.
Qed.

(** X13. The pages a PDF is converted to. When [convert_pdf_to_documents]
    returns documents there is at least one; each holds a clean content of
    50 characters or more and the file name, book title and author it was
    called with; each page number lies between 1 and the number of pages of
    the PDF; and the documents are in page order with no page twice. A PDF
    that cannot be loaded, or with no page of 50 clean characters, gives
    [None], never an empty list. *)
Theorem converted_pages_are_numbered pdf_path pdf_name book_title author docs :
  convert_pdf_to_documents pdf_path pdf_name book_title author = Some docs ->
  0 < length docs /\
  exists raw_pages,
    load pdf_path = Ok raw_pages /\
    Forall (fun doc =>
              50 <= length (page_content doc) /\
              metadata doc =
                {| source_file := Some pdf_name; title := None;
                   book_title := Some book_title; author := Some author;
                   page := Some (page_of doc) |} /\
              (1 <= page_of doc <= Z.of_nat (length raw_pages))%Z) docs /\
    StronglySorted (fun d d' => (page_of d < page_of d')%Z) docs.
Proof.
  unfold Server.convert_pdf_to_documents.
  destruct (load pdf_path) as [raw_pages|e]; [|done].
  destruct (convert_pages_spec pdf_name book_title author 0 raw_pages) as [Hall Hsorted].
  destruct (convert_pages pdf_name book_title author 0 raw_pages) as [|doc rest]; [done|].
  intros [= <-]. split; [simpl; lia|]. exists raw_pages. split_and!; [done| |done].
  eapply Forall_impl; [exact Hall|]. intros d (? & ? & ?). split_and!; [done|done|lia|lia].
Qed.
End Converter.

Section Handler.
Variable name : str -> str.
Variable convert : str -> str -> str -> str -> option (list Document).
Variable add_documents : list Document -> result unit.
Variable now : str -> str.

#[local] Abbreviation sync_files := (sync_files name convert add_documents now).
#[local] Abbreviation handle_sync := (handle_sync name convert add_documents now).

(** The loop hands a batch to the database for each file it marks, and
    marks only files that were not marked. A batch is handed and its file
    not marked only when [add_documents] raises on it, which ends the
    loop. *)
Lemma sync_files_spec all_pdfs s lines n r s' lines' :
  sync_files all_pdfs s lines n = (r, s', lines') ->
  exists batches,
    added s' = added s ++ batches /\
    match r with
    | Some m =>
      m = n + length batches /\ size (_state s') = size (_state s) + length batches
    | None =>
      size (_state s') = size (_state s) + length batches \/
      exists accepted refused e,
        batches = accepted ++ [refused] /\
        add_documents refused = Raise e /\
        size (_state s') = size (_state s) + length accepted
    end /\
    _state s ⊆ _state s' /\
    (forall p, is_file_processed p (_state s') = true ->
       is_file_processed p (_state s) = true \/ In p all_pdfs) /\
    (exists read, lines = read ++ lines').
Proof.
  revert s lines n. induction all_pdfs as [|pdf_path all_pdfs IH]; intros s lines n.
  - intros [= <- <- <-]. exists []. rewrite app_nil_r, !Nat.add_0_r.
    split_and!; [done|done|done|done|by left|by exists []].
  - cbn [Server.sync_files].
    assert (Hskip : forall lines0 read0,
      lines = read0 ++ lines0 ->
      sync_files all_pdfs s lines0 n = (r, s', lines') ->
      exists batches,
        added s' = added s ++ batches /\
        match r with
        | Some m =>
          m = n + length batches /\ size (_state s') = size (_state s) + length batches
        | None =>
          size (_state s') = size (_state s) + length batches \/
          exists accepted refused e,
            batches = accepted ++ [refused] /\
            add_documents refused = Raise e /\
            size (_state s') = size (_state s) + length accepted
        end /\
        _state s ⊆ _state s' /\
        (forall p, is_file_processed p (_state s') = true ->
           is_file_processed p (_state s) = true \/ In p (pdf_path :: all_pdfs)) /\
        (exists read, lines = read ++ lines')).
    { intros lines0 read0 -> (batches & ? & ? & ? & Hp & (read & ->))%IH.
      exists batches. split_and!; try done.
      - intros p [?|?]%Hp; [by left|right; by right].
      - exists (read0 ++ read). by rewrite <- app_assoc. }
    destruct (is_file_processed pdf_path (_state s)) eqn:Hproc.
    { apply (Hskip lines []). done. }
    destruct lines as [|title_line [|author_line lines0]].
    { intros [= <- <- <-]. exists []. rewrite app_nil_r, Nat.add_0_r.
      split_and!; [done|by left|done|by left|by exists []]. }
    { intros [= <- <- <-]. exists []. rewrite app_nil_r, Nat.add_0_r.
      split_and!; [done|by left|done|by left|by exists [title_line]]. }
    destruct (strip title_line) as [|c1 t1] eqn:Htitle.
    { apply (Hskip lines0 [title_line; author_line]). done. }
    destruct (strip author_line) as [|c2 t2] eqn:Hauthor.
    { apply (Hskip lines0 [title_line; author_line]). done. }
    destruct (convert _ _ _ _) as [[|doc docs]|].
    { apply (Hskip lines0 [title_line; author_line]). done. }
    2:{ apply (Hskip lines0 [title_line; author_line]). done. }
    destruct (add_documents (doc :: docs)) as [[]|e] eqn:Hadd.
    2:{ intros [= <- <- <-]. exists [doc :: docs]. cbn [Server.added Server._state].
        split_and!; [done| |done|by left|by exists [title_line; author_line]].
        right. exists [], (doc :: docs), e. split_and!; [done|done|]. simpl. lia. }
    intros (batches & Hadded & Hr & Hsub & Hp & (read & ->))%IH.
    cbn [Server.added Server._state] in *.
    assert (Hnone : _state s !! pdf_path = None).
    { unfold is_file_processed in Hproc. apply bool_decide_eq_false in Hproc.
      by apply eq_None_not_Some. }
    assert (Hsize : size (mark_file_as_processed pdf_path (name pdf_path) (c1 :: t1)
                            (c2 :: t2) (now pdf_path) (_state s)) = S (size (_state s))).
    { unfold mark_file_as_processed. by rewrite map_size_insert_None. }
    exists ((doc :: docs) :: batches). split_and!.
    + by rewrite Hadded, <- app_assoc.
    + destruct r as [m|].
      * destruct Hr as [-> Hr]. rewrite Hr, Hsize. cbn [length]. lia.
      * destruct Hr as [Hr|(accepted & refused & e & -> & Hraise & Hr)].
        -- left. rewrite Hr, Hsize. cbn [length]. lia.
        -- right. exists ((doc :: docs) :: accepted), refused, e.
           split_and!; [done|done|]. rewrite Hr, Hsize. cbn [length]. lia.
    + etransitivity; [|exact Hsub]. unfold mark_file_as_processed.
      by apply insert_subseteq.
    + intros p [Hproc'|?]%Hp; [|right; by right].
      unfold is_file_processed, mark_file_as_processed in *.
      apply bool_decide_eq_true in Hproc'.
      destruct (decide (pdf_path = p)) as [->|Hne]; [right; by left|left].
      apply bool_decide_eq_true. by rewrite lookup_insert_ne in Hproc'.
    + by exists ([title_line; author_line] ++ read).
Qed.

(** X14. What a synchronisation of the server records. When the request is
    answered with status 200, the batches handed to the database during
    it are as many as the files newly marked as processed. When an
    exception ends it with status 500, either that still holds (the input
    ran out) or [add_documents] raised on the last batch handed, whose file
    is not marked, and the batches before it are as many as the files newly
    marked. In every case no file loses its mark; every file marked after
    the request was marked before it or is a PDF of the listing; and the
    lines left are a tail of the lines the operator had to give. When the
    answer is the message that the library is up to date, nothing was
    handed to the database and nothing marked. *)
Theorem sync_marks_what_it_adds all_pdfs s lines answer s' lines' :
  handle_sync all_pdfs s lines = (answer, s', lines') ->
  (exists batches read,
     added s' = added s ++ batches /\
     lines = read ++ lines' /\
     match answer with
     | Success _ => size (_state s') = size (_state s) + length batches
     | InternalServerError =>
       size (_state s') = size (_state s) + length batches \/
       exists accepted refused e,
         batches = accepted ++ [refused] /\
         add_documents refused = Raise e /\
         size (_state s') = size (_state s) + length accepted
     end) /\
  _state s ⊆ _state s' /\
  (forall p, is_file_processed p (_state s') = true ->
     is_file_processed p (_state s) = true \/ In p all_pdfs) /\
  (answer = Success (u "Kütüphane güncel. Yeni dosya bulunamadı.") ->
     added s' = added s /\ size (_state s') = size (_state s)).
Proof.
  unfold Server.handle_sync.
  destruct (sync_files all_pdfs s lines 0) as [[r s0] lines0] eqn:Hsync.
  destruct (sync_files_spec _ _ _ _ _ _ _ Hsync)
    as (batches & Hadded & Hr & Hsub & Hp & (read & Hread)).
  intros Heq.
  assert (Hs : s0 = s' /\ lines0 = lines').
  { destruct r as [[|m]|]; by injection Heq as _ <- <-. }
  destruct Hs as [<- <-]. split_and!; [|done|done|].
  - exists batches, read. split_and!; [done|done|].
    destruct r as [[|m]|]; injection Heq as <-; [by destruct Hr|by destruct Hr|done].
  - intros ->. destruct r as [[|m]|].
    + destruct Hr as [Hm Hsize]. destruct batches; [|simpl in Hm; lia].
      rewrite app_nil_r in Hadded. simpl in Hsize. split; [done|lia].
    + exfalso. inversion Heq as [Hmsg]. clear Heq. revert Hmsg.
      generalize (str_of_int (Z.of_nat (S m))). intros digits Heq.
      apply (f_equal (@rev char)) in Heq. rewrite rev_app_distr in Heq.
      vm_compute in Heq. discriminate Heq.
    + done.
Qed.

(** X15. Files that are processed are not asked about again. When every
    PDF of the listing is marked as processed, a synchronisation reads no
    line, converts nothing, hands nothing to the database and answers that
    the library is up to date. *)
Theorem processed_files_are_skipped all_pdfs s lines :
  Forall (fun p => is_file_processed p (_state s) = true) all_pdfs ->
  handle_sync all_pdfs s lines =
    (Success (u "Kütüphane güncel. Yeni dosya bulunamadı."), s, lines).
Proof.
  intros Hall. unfold Server.handle_sync.
  assert (Hsync : forall n, sync_files all_pdfs s lines n = (Some n, s, lines)).
  { induction Hall as [|p all_pdfs Hp Hall IH]; intros n; [done|].
    cbn [Server.sync_files]. by rewrite Hp. }
  by rewrite Hsync.
Qed.
End Handler.

Lemma converted_pages_are_numbered_witness :
  let docs := [ServerExamples.page_doc 1; ServerExamples.page_doc 3] in
  0 < length docs /\
  exists raw_pages,
    ServerExamples.loader (u "b") = Ok raw_pages /\
    Forall (fun doc =>
              50 <= length (page_content doc) /\
              metadata doc =
                {| source_file := Some (u "b.pdf"); title := None;
                   book_title := Some (u "T"); author := Some (u "A");
                   page := Some (page_of doc) |} /\
              (1 <= page_of doc <= Z.of_nat (length raw_pages))%Z) docs /\
    StronglySorted (fun d d' => (page_of d < page_of d')%Z) docs.
Proof.
  apply (converted_pages_are_numbered (fun text => text) ServerExamples.loader
           (u "b") (u "b.pdf") (u "T") (u "A")
           [ServerExamples.page_doc 1; ServerExamples.page_doc 3]).
  reflexivity.
Defined.

Lemma sync_marks_what_it_adds_witness :
  let add_documents := ServerExamples.picky_database in
  let all_pdfs := [u "b"; u "c"] in
  let s := ServerExamples.fresh in
  let s' := ServerExamples.half_synced in
  let lines := [u " T "; u "A "; u "U"; u "B"; u "x"] in
  let lines' := [u "x"] in
  let answer := InternalServerError in
  (exists batches read,
     added s' = added s ++ batches /\
     lines = read ++ lines' /\
     match answer with
     | Success _ => size (_state s') = size (_state s) + length batches
     | InternalServerError =>
       size (_state s') = size (_state s) + length batches \/
       exists accepted refused e,
         batches = accepted ++ [refused] /\
         add_documents refused = Raise e /\
         size (_state s') = size (_state s) + length accepted
     end) /\
  _state s ⊆ _state s' /\
  (forall p, is_file_processed p (_state s') = true ->
     is_file_processed p (_state s) = true \/ In p all_pdfs) /\
  (answer = Success (u "Kütüphane güncel. Yeni dosya bulunamadı.") ->
     added s' = added s /\ size (_state s') = size (_state s)).
Proof.
  apply (sync_marks_what_it_adds (fun p => p ++ u ".pdf") ServerExamples.convert_as_given
           ServerExamples.picky_database ServerExamples.clock [u "b"; u "c"]
           ServerExamples.fresh [u " T "; u "A "; u "U"; u "B"; u "x"]
           InternalServerError ServerExamples.half_synced [u "x"]).
  vm_compute. reflexivity.
Defined.

Lemma processed_files_are_skipped_witness :
  handle_sync (fun p => p ++ u ".pdf") ServerExamples.convert ServerExamples.database
    ServerExamples.clock [u "b"] ServerExamples.synced [u "x"] =
    (Success (u "Kütüphane güncel. Yeni dosya bulunamadı."), ServerExamples.synced, [u "x"]).
Proof.
  apply (processed_files_are_skipped (fun p => p ++ u ".pdf") ServerExamples.convert
           ServerExamples.database ServerExamples.clock [u "b"] ServerExamples.synced
           [u "x"]).
  repeat constructor.
Defined.
End ServerFacts.

(** ** The hybrid retriever of the server *)
Module RetrieverFacts.
Import Py Data Server Shape.

Section Facts.
Variable split_documents : list Document -> list Document.

#[local] Abbreviation perform := (perform split_documents).

Lemma rebuild_bm25_in_step v :
  _all_docs_in_memory v = _db v -> in_step (_rebuild_bm25_retriever v).
Proof.
  intros Hmem. unfold _rebuild_bm25_retriever, in_step. rewrite Hmem.
  by destruct (_db v).
Qed.

Lemma new_in_step stored : in_step (new stored).
Proof.
  unfold new, _initialize. destruct stored as [|d stored]; [done|].
  by apply rebuild_bm25_in_step.
Qed.

Lemma perform_in_step v c : in_step v -> in_step (perform v c).
Proof.
  intros [Hmem Hbm]. destruct c as [documents|]; cbn [Server.perform].
  - unfold add_documents. destruct documents as [|d documents]; [done|].
    destruct (split_documents (d :: documents)) as [|c chunks]; [done|].
    apply rebuild_bm25_in_step. cbn [_all_docs_in_memory _db]. by rewrite Hmem.
  - done.
Qed.

(** X23. The keyword retriever follows the collection. From the moment
    the database is made, on whatever chunks its directory holds, and after
    any sequence of additions and rebuilds, the list kept in memory is the
    list of the chunks of the collection and the keyword retriever is built
    from exactly that list: [get_retriever] returns the ensemble over all
    the chunks when the collection holds any, and the vector retriever alone
    when it holds none. *)
Theorem keyword_retriever_follows_the_collection (stored : list Document)
    (calls : list call) :
  let v := foldl perform (new stored) calls in
  _all_docs_in_memory v = _db v /\
  get_retriever v =
    match _db v with
    | [] => VectorOnly
    | chunks => Ensemble chunks
    end /\
  (count v = 0 <-> get_retriever v = VectorOnly).
Proof.
  intros v.
  assert (Hstep : in_step v).
  { subst v. generalize (new_in_step stored). generalize (new stored).
    induction calls as [|c calls IH]; intros v0 Hv0; [done|].
    cbn [foldl]. by apply IH, perform_in_step. }
  destruct Hstep as [Hmem Hbm]. unfold get_retriever, count. rewrite Hbm.
  split_and!; [done|by destruct (_db v)|].
  destruct (_db v); [done|]. split; [done|discriminate].
Qed.
End Facts.
End RetrieverFacts.

(** ** Which duplicate is kept *)
Module UniqueFacts.
Import Py Re Data Spec Monolith DictFacts.

Section Dict.
Context {K V : Type} `{EqDecision K}.

(** With distinct keys, the entry of the key that was set holds the value
    that was set. *)
Lemma dict_set_value (k : K) (v v' : V) d :
  List.NoDup (map fst d) -> In (k, v') (dict_set k v d) -> v' = v.
Proof.
  induction d as [|[k0 v0] d IH]; simpl; intros Hnd.
  - by intros [[= <-]|[]].
  - apply List.NoDup_cons_iff in Hnd as [Hk0 Hnd].
    destruct (decide (k = k0)) as [->|Hne]; simpl.
    + intros [[= <-]|Hin]; [done|]. exfalso. apply Hk0.
      apply in_map_iff. by exists (k0, v').
    + intros [[= ? ?]|Hin]; [congruence|]. by apply IH.
Qed.

Lemma dict_set_NoDup (k : K) (v : V) d :
  List.NoDup (map fst d) -> List.NoDup (map fst (dict_set k v d)).
Proof.
  intros Hnd. destruct (decide (k ∈ map fst d)) as [Hin|Hnin];
    rewrite list_elem_of_In in *.
  - by rewrite dict_set_keys_old.
  - rewrite dict_set_keys_new by done. by apply NoDup_snoc.
Qed.

(** The value an entry of a comprehension holds is the last element of the
    list with its key; an entry whose key no element has comes from the
    dictionary the comprehension was built on. *)
Lemma comprehension_last (key : V -> K) l d k v :
  List.NoDup (map fst d) ->
  In (k, v) (dict_comprehension key l d) ->
  (In (k, v) d /\ ~ In k (map key l)) \/
  (key v = k /\ exists before after,
     l = before ++ v :: after /\ Forall (fun x => key x <> k) after).
Proof.
  unfold dict_comprehension. revert d.
  induction l as [|x l IH]; intros d Hnd; simpl.
  - intros Hin. left. split; [done|]. by intros [].
  - intros [[Hd Hk]|(Hkey & before & after & -> & Hafter)]%IH;
      [|right; split; [done|]; by exists (x :: before), after|by apply dict_set_NoDup].
    destruct (decide (k = key x)) as [->|Hne].
    + apply dict_set_value in Hd as ->; [|done].
      right. split; [done|]. exists [], l. split; [done|].
      apply List.Forall_forall. intros y Hy Heq. apply Hk.
      apply in_map_iff. by exists y.
    + apply dict_set_entries in Hd as [[-> _]|Hd]; [done|].
      left. split; [done|]. intros [?|?]; [congruence|done].
Qed.

(** A list whose keys are distinct, and new to the dictionary, is appended
    to it as it is. *)
Lemma comprehension_distinct (key : V -> K) l d :
  List.NoDup (map fst d ++ map key l) ->
  dict_comprehension key l d = d ++ map (fun x => (key x, x)) l.
Proof.
  unfold dict_comprehension. revert d.
  induction l as [|x l IH]; intros d Hnd; simpl; [by rewrite app_nil_r|].
  assert (Hnew : ~ In (key x) (map fst d)).
  { intros Hin. apply List.NoDup_remove_2 in Hnd. apply Hnd.
    apply in_or_app. by left. }
  assert (Hset : dict_set (key x) x d = d ++ [(key x, x)]).
  { clear -Hnew. induction d as [|[k0 v0] d IHd]; simpl; [done|].
    simpl in Hnew. destruct (decide (key x = k0)) as [Heq|Hne].
    - exfalso. apply Hnew. by left.
    - rewrite IHd; [done|]. intros Hin. apply Hnew. by right. }
  rewrite Hset, IH.
  - by rewrite <- app_assoc.
  - rewrite map_app. simpl. rewrite <- app_assoc. done.
Qed.
End Dict.

(** X16. Which duplicate is kept. Of the retrieved documents that share an
    identity (content, source file, page), the one kept is the last in the
    list, so its other metadata is the one that reaches the prompt and the
    verifier. Documents with distinct identities are all kept, in the order
    they were retrieved; so removing duplicates from a list that was made
    unique changes nothing. *)
Theorem unique_keeps_the_last_duplicate (retrieved_docs : list Document) :
  (forall kept, In kept (unique retrieved_docs) ->
     exists before after,
       retrieved_docs = before ++ kept :: after /\
       Forall (fun doc => identity doc <> identity kept) after) /\
  (List.NoDup (map identity retrieved_docs) -> unique retrieved_docs = retrieved_docs) /\
  unique (unique retrieved_docs) = unique retrieved_docs.
Proof.
  assert (Hdistinct : forall l : list Document,
    List.NoDup (map identity l) -> unique l = l).
  { intros l Hnd. unfold unique. rewrite comprehension_distinct by done.
    simpl. rewrite map_map. simpl. apply map_id. }
  split_and!.
  - unfold unique. intros kept (kv & <- & Hin)%in_map_iff. destruct kv as [k v].
    apply comprehension_last in Hin as [[[] _]|(Hkey & before & after & Heq & Hafter)];
      [|by apply List.NoDup_nil].
    simpl. exists before, after. split; [done|]. by rewrite Hkey.
  - apply Hdistinct.
  - apply Hdistinct. apply DedupFacts.unique_spec.
Qed.
End UniqueFacts.

(** ** Every reference is judged once *)
Module JudgementFacts.
Import Py Re Data Spec Monolith CitationFacts.

Lemma omap_lookup_total {K V} `{Countable K} (m : gmap K V) (f : V -> K) (ks : list K) :
  (forall k, k ∈ ks -> k ∈ dom m) ->
  (forall k v, m !! k = Some v -> f v = k) ->
  map f (omap (fun k => m !! k) ks) = ks.
Proof.
  intros Hdom Hkey. induction ks as [|k ks IH]; [done|].
  assert (Hk : k ∈ dom m) by (apply Hdom; by left).
  apply elem_of_dom in Hk as [v Hv]. csimpl. rewrite Hv. csimpl.
  rewrite (Hkey k v Hv), IH; [done|]. intros k' Hk'. apply Hdom. by right.
Qed.

Lemma cross_check_fields `{Unicode} final_answer source_docs c :
  cross_check final_answer source_docs = Some c ->
  verified_refs c = answer_references_set c ∩ dom (source_docs_map source_docs) /\
  hallucinated_refs c = answer_references_set c ∖ dom (source_docs_map source_docs) /\
  verified_sources c =
    omap (fun ref => source_docs_map source_docs !! ref) (elements (verified_refs c)).
Proof.
  unfold cross_check. destruct (findall pattern final_answer) as [|g gs]; [done|].
  by intros [= <-].
Qed.

(** X17. Every reference is judged once. When the answer holds a tag, each
    of its references is either verified or hallucinated and never both;
    and the verified sources are one document for each verified reference,
    the document of the bundle with that provenance: looking a verified
    reference up in the dictionary of the bundle never fails. *)
Theorem every_reference_is_judged_once `{Unicode} (final_answer : str)
    (source_docs : list Document) (c : CrossCheck) :
  cross_check final_answer source_docs = Some c ->
  verified_refs c ∪ hallucinated_refs c = answer_references_set c /\
  verified_refs c ∩ hallucinated_refs c = ∅ /\
  size (verified_refs c) + size (hallucinated_refs c) = size (answer_references_set c) /\
  map provenance (verified_sources c) = elements (verified_refs c) /\
  length (verified_sources c) = size (verified_refs c).
Proof.
  intros (Hv & Hh & Hs)%cross_check_fields.
  set (refs := answer_references_set c) in *.
  set (m := source_docs_map source_docs) in *.
  assert (Hunion : verified_refs c ∪ hallucinated_refs c = refs).
  { rewrite Hv, Hh. apply set_eq. intros r.
    rewrite elem_of_union, elem_of_intersection, elem_of_difference.
    destruct (decide (r ∈ dom m)); tauto. }
  assert (Hdisj : verified_refs c ## hallucinated_refs c).
  { rewrite Hv, Hh. intros r. rewrite elem_of_intersection, elem_of_difference. tauto. }
  assert (Hmap : map provenance (verified_sources c) = elements (verified_refs c)).
  { rewrite Hs. apply omap_lookup_total.
    - intros k Hk%elem_of_elements. rewrite Hv in Hk.
      by apply elem_of_intersection in Hk as [_ ?].
    - intros k v Hv'. by apply source_docs_map_lookup in Hv' as [_ ?]. }
  split_and!.
  - exact Hunion.
  - apply disjoint_intersection_L. exact Hdisj.
  - rewrite <- size_union by exact Hdisj. by rewrite Hunion.
  - exact Hmap.
  - rewrite <- (length_map provenance), Hmap. done.
Qed.

Lemma every_reference_is_judged_once_witness :
  exists c : CrossCheck,
    verified_refs c ∪ hallucinated_refs c = answer_references_set c /\
    verified_refs c ∩ hallucinated_refs c = ∅ /\
    size (verified_refs c) + size (hallucinated_refs c) = size (answer_references_set c) /\
    map provenance (verified_sources c) = elements (verified_refs c) /\
    length (verified_sources c) = size (verified_refs c).
Proof.
  destruct (cross_check (tag_T_A "5") [Examples.doc_T_A_5]) as [c|] eqn:Hc.
  - exists c.
    exact (every_reference_is_judged_once (tag_T_A "5") [Examples.doc_T_A_5] c Hc).
  - exfalso. revert Hc. unfold cross_check. rewrite findall_T_A_5. discriminate.
Defined.
End JudgementFacts.

(** ** How a query of the single-process application ends *)
Module QueryFacts.
Import Py Re Data Spec Monolith StreamFacts CitationFacts.

Section Facts.
Context `{Unicode} {S : Type} (ltb : S -> S -> bool).
Variable _config : AppConfig.
Variable retriever_invoke : Z -> str -> list Document.
Variable predict : list (str * str) -> list S.
Variable _llm : LlmCall -> list chunk.

#[local] Abbreviation reranked := (evidence ltb _config retriever_invoke predict).
#[local] Abbreviation _handle_query :=
  (_handle_query ltb _config retriever_invoke predict _llm).

(** X18. How a query ends. With a store, a relevance model and an engine
    that return, a query ends in one of three ways and in no other: no
    document is found, after the one call of the store; or the answer is
    presented, after one call of the store, one of the engine and one of the
    verifier, in that order; or, after the same three calls, the error
    message is printed, because [verify_and_present] raised [TypeError] at
    the sort of the verified sources. The error message is the outcome
    exactly when two of the verified sources have keys ([title], [page])
    that [<] cannot order; it is not on a bundle whose documents all hold a
    title and a page. The message of the [StopIteration] handler is never
    the outcome. When the engine streams no text, the empty answer is
    presented: as unverified, with the whole bundle as its possible
    sources. *)
Theorem query_ends_in_one_of_three_ways (user_query : str) :
  let source_docs := reranked user_query in
  let call := generation_call _config user_query source_docs in
  let final_answer := concat (fragments (_llm call)) in
  let log := [Retrieve user_query; Generate call; Verify final_answer source_docs] in
  ((source_docs = [] /\
    _handle_query user_query = (NoDocuments, [Retrieve user_query])) \/
   (0 < length source_docs /\
    exists blocks,
      verify_and_present final_answer source_docs = (Ok tt, blocks) /\
      In (Answer final_answer) blocks /\
      _handle_query user_query = (Presented final_answer source_docs blocks, log)) \/
   (0 < length source_docs /\
    verify_and_present final_answer source_docs =
      (Raise (TypeError "<"), [Answer final_answer; VerifiedHeading]) /\
    _handle_query user_query = (Failed, log))) /\
  ((_handle_query user_query).1 = Failed <->
   exists c d d',
     cross_check final_answer source_docs = Some c /\
     In d (verified_sources c) /\ In d' (verified_sources c) /\
     lt_key (sort_key d) (sort_key d') = Raise (TypeError "<")) /\
  (Forall titled source_docs -> (_handle_query user_query).1 <> Failed) /\
  (source_docs <> [] ->
   fragments (_llm call) = [] ->
   _handle_query user_query =
     (Presented [] source_docs [Answer []; NotVerified; PossibleSources source_docs],
      [Retrieve user_query; Generate call; Verify [] source_docs])).
Proof.
  intros source_docs call final_answer log.
  pose proof (handle_query_eq ltb _config retriever_invoke predict _llm user_query) as Heq.
  subst log final_answer call source_docs.
  destruct (reranked user_query) as [|doc docs] eqn:Hr.
  { split_and!; [by left|rewrite Heq|by rewrite Heq|done].
    split; [done|]. intros (c & d & d' & Hcc & Hd & _).
    by destruct (verified_sources_in _ _ _ _ Hcc Hd) as [[] _]. }
  cbv zeta in Heq.
  set (final_answer :=
    concat (fragments (_llm (generation_call _config user_query (doc :: docs))))) in *.
  split_and!.
  - right.
    destruct (verify_and_present_cases final_answer (doc :: docs))
      as [(blocks & Hv & Hin)|[Hv _]].
    + left. split; [simpl; lia|]. exists blocks. rewrite Hv in Heq. done.
    + right. rewrite Hv in Heq. split; [simpl; lia|done].
  - rewrite <- verify_and_present_raises_iff. rewrite Heq. cbn [fst].
    destruct (verify_and_present_cases final_answer (doc :: docs))
      as [(blocks & Hv & Hin)|[Hv _]]; rewrite Hv.
    + split; [done|]. by intros [printed [=]].
    + split; [by eauto|done].
  - intros Htitled.
    destruct (verify_and_present_titled final_answer (doc :: docs) Htitled) as [blocks Hv].
    rewrite Heq, Hv. done.
  - intros _ Hempty. subst final_answer. rewrite Heq, Hempty. done.
Qed.
End Facts.
End QueryFacts.

(** ** The client: what a query reaches *)
Module ClientFacts.
Import Py Re Data Spec Client VerifyFacts.

Section Facts.
Context `{Unicode} {S : Type} (ltb : S -> S -> bool).
Variable cfg : AppConfig.
Variable predict : list (str * str) -> list S.
Variable llm : LlmCall -> result str.
Variable retrieve_documents : str -> option (list Document).

(** X19. The client as written never calls the engine. [generate_answer]
    reads [self.formatter], an attribute its class never binds (it binds
    [_formatter]), before it calls the engine: whatever the query and the
    documents, it raises [AttributeError] with the log as it was. So a query
    of the client ends with nothing displayed when the server gives no
    document, and with that error, uncaught, as soon as it gives one;
    neither the engine nor the verifier is ever called. *)
Theorem client_as_written_never_generates (query : str) (retrieved_docs : list Document)
    (log : list event) :
  generate_answer ltb as_written cfg predict llm query retrieved_docs log =
    (Raise (AttributeError "formatter"), log) /\
  _handle_query ltb as_written cfg predict llm retrieve_documents query =
    match retrieve_documents query with
    | None => (Ok None, [Retrieve query])
    | Some [] => (Ok None, [Retrieve query])
    | Some _ => (Raise (AttributeError "formatter"), [Retrieve query])
    end.
Proof.
  split; [done|]. unfold Client._handle_query.
  by destruct (retrieve_documents query) as [[|doc docs]|].
Qed.

(** The loop over documents that have their keys and get an answer, up to
    a document that lacks a key. *)
Lemma verify_sources_missing_key claim before doc after vs us log :
  Forall (fun d =>
            is_Some (book_title (metadata d)) /\ is_Some (page (metadata d)) /\
            exists text, llm (verification_call cfg (page_content d) claim) = Ok text)
    before ->
  book_title (metadata doc) = None \/ page (metadata doc) = None ->
  verify_sources cfg llm claim (before ++ doc :: after) vs us log =
    (Raise (KeyError (match book_title (metadata doc) with
                      | Some _ => "page"
                      | None => "book_title"
                      end)),
     log ++ verification_calls cfg claim before).
Proof.
  intros Hbefore Hdoc. revert vs us log.
  induction Hbefore as [|d before (Ht & Hp & text & Htext) Hbefore IH]; intros vs us log.
  - rewrite app_nil_r. cbn [app Client.verify_sources].
    destruct (book_title (metadata doc)) as [t|]; [|done].
    destruct Hdoc as [?|Hpage]; [done|]. by rewrite Hpage.
  - cbn [app Client.verify_sources].
    destruct Ht as [t ->], Hp as [p ->]. cbn [subscript]. rewrite Htext.
    destruct (contains _ _); rewrite IH; cbn [verification_calls map];
      by rewrite <- app_assoc.
Qed.

(** X20. A document without its keys. The loop of [verify] reads
    [doc.metadata['book_title']] and [doc.metadata['page']] for its log
    line before it calls the engine. When the names of the module are
    bound, the answer does not hold the canonical sentence and its claim is
    not empty, a document that lacks one of the two keys makes [verify]
    raise [KeyError] for the first key that is missing: the engine is called
    for the documents before it, not for it nor for any after it, and no
    verdict is returned, whatever the engine said so far. *)
Theorem missing_metadata_key_stops_verification (raw_answer : str)
    (before : list Document) (doc : Document) (after : list Document)
    (log : list event) :
  contains NOT_FOUND raw_answer = false ->
  claim_of raw_answer <> [] ->
  Forall (fun d =>
            is_Some (book_title (metadata d)) /\ is_Some (page (metadata d)) /\
            exists text,
              llm (verification_call cfg (page_content d) (claim_of raw_answer)) = Ok text)
    before ->
  book_title (metadata doc) = None \/ page (metadata doc) = None ->
  verify both_bound cfg llm raw_answer (before ++ doc :: after) log =
    (Raise (KeyError (match book_title (metadata doc) with
                      | Some _ => "page"
                      | None => "book_title"
                      end)),
     log ++ verification_calls cfg (claim_of raw_answer) before).
Proof.
  intros Hc Hclaim Hbefore Hdoc. unfold Client.verify, claim_of in *. rewrite Hc.
  cbn [global_re self_formatter both_bound re_imported formatter_bound].
  destruct (strip _) as [|c claim] eqn:Hs; [done|].
  by rewrite (verify_sources_missing_key _ _ _ _ _ _ _ Hbefore Hdoc).
Qed.
End Facts.

Lemma missing_metadata_key_stops_verification_witness :
  let keyless :=
    {| page_content := u "Seven.";
       metadata := {| source_file := None; title := None;
                      book_title := Some (u "T"); author := None; page := None |} |} in
  verify both_bound config Examples.engine (u "Five is five.")
    ([Examples.doc_T_A_5] ++ keyless :: [Examples.doc_T_A_7]) [] =
    (Raise (KeyError (match book_title (metadata keyless) with
                      | Some _ => "page"
                      | None => "book_title"
                      end)),
     [] ++ verification_calls config (claim_of (u "Five is five.")) [Examples.doc_T_A_5]).
Proof.
  apply (missing_metadata_key_stops_verification config Examples.engine
           (u "Five is five.") [Examples.doc_T_A_5]).
  - by vm_compute.
  - by vm_compute.
  - constructor; [|constructor]. split_and!; [by eexists|by eexists|].
    exists (u " Evet. "). by vm_compute.
  - by right.
Defined.
End ClientFacts.

(** ** What reaches the engine *)
Module PromptFacts.
Import Py Re Data Spec Monolith.

Lemma join_holds_part sep (parts : list str) part :
  In part parts -> exists before after, join sep parts = before ++ part ++ after.
Proof.
  induction parts as [|p parts IH]; [done|].
  intros [->|Hin].
  - destruct parts as [|q parts].
    + exists [], []. by rewrite app_nil_r.
    + exists [], (sep ++ join sep (q :: parts)). done.
  - destruct (IH Hin) as (before & after & Heq).
    destruct parts as [|q parts]; [done|].
    exists (p ++ sep ++ before), after.
    change (join sep (p :: q :: parts)) with (p ++ sep ++ join sep (q :: parts)).
    rewrite Heq. by rewrite <- !app_assoc.
Qed.

Lemma format_app template1 template2 kwargs :
  format (template1 ++ template2) kwargs = format template1 kwargs ++ format template2 kwargs.
Proof. unfold format. apply flat_map_app. Qed.

(** X22. What reaches the engine. The prompt of the generation call of the
    single-process application is the prompt of the configuration with the
    context and the question in their places: the context is followed by a
    blank line, the word SORU and the question. The context holds a part
    for every document of the bundle: its tag, made of the title, the
    author and the page (the defaults where a key is absent), a newline and
    the content of the document, unchanged. *)
Theorem prompt_holds_the_evidence (user_query : str) (reranked_docs : list Document) :
  (exists head tail,
     prompt (generation_call APP_CONFIG user_query reranked_docs) =
       head ++ _format_context reranked_docs ++ NEWLINE ++ NEWLINE ++ u "SORU: "
            ++ user_query ++ tail) /\
  (forall doc, In doc reranked_docs ->
     exists before after,
       _format_context reranked_docs =
         before
           ++ (u "[Kaynak: " ++ (get (title (metadata doc)) (u "Bilinmiyor") ++ u " - "
                 ++ get (author (metadata doc)) (u "Bilinmiyor"))
                 ++ u ", Sayfa: " ++ str_of_int (get (page (metadata doc)) 0%Z) ++ u "]"
                 ++ NEWLINE ++ page_content doc)
           ++ after).
Proof.
  split.
  - unfold generation_call. cbn [prompt]. unfold APP_CONFIG. cbn [GENERATION_PROMPT].
    match goal with
    | |- context [format [?a; ?b; ?c; ?d; ?e; ?f; ?g; ?h; Text ?t] ?kw] =>
      change [a; b; c; d; e; f; g; h; Text t] with ([a; b; c; d; e] ++ [f; g; h; Text t]);
      rewrite (format_app [a; b; c; d; e] [f; g; h; Text t] kw);
      exists (format [a; b; c; d; e] kw), t
    end.
    f_equal.
  - intros doc Hin. unfold _format_context. apply join_holds_part.
    apply in_map_iff. by exists doc.
Qed.
End PromptFacts.
